(** * The volume-tracked liquid-transfer engine of the AdhE assay protocol

    A shallow embedding of the helper functions that [run] defines in
    [AdhE_assay_protocol.py]: [get_well_edge_offset], [offset_dispense],
    [adjust_well_volume], [custom_transfer] and [serial_dilution].

    Conventions of the embedding.
    - Python numbers that hold volumes (ul), lengths (mm), rates and speeds
      are exact rationals ([Q]); rounding of binary floating point is not
      modelled.  Counts and indices are [nat] or [Z].
    - The functions run in a state-and-exception monad over a [World]: the
      global dictionary [all_volumes], the commands issued to the robot so
      far, and the lines printed.  The state survives an exception, as the
      mutations of a Python dictionary do.
    - The Opentrons driver is an interface ([Driver]): what a pipette reports
      as [has_tip] and [current_volume] is a function of the commands issued
      so far.  Driver calls are taken to complete normally.
    - A local variable that an execution path may leave unassigned is an
      [option]; reading [None] raises [UnboundLocalError]. *)

From Stdlib Require Import QArith Qround Lqa Lia.
From stdpp Require Import gmap strings list pretty.

Local Open Scope string_scope.
Local Open Scope list_scope.

(** ** Numbers *)

Definition Qltb (x y : Q) : bool := negb (Qle_bool y x).

(** Python's [int(x)] on a number: truncation towards zero. *)
Definition py_int (x : Q) : Z := Z.quot (Qnum x) (Zpos (Qden x)).

(** Python's [math.ceil]. *)
Definition math_ceil (x : Q) : Z := Qceiling x.

(** ** Exceptions *)

(** The [assert] statements of the source, by what they check. *)
Inductive assertion :=
| TipAboveWellTop            (* get_well_edge_offset: height_below_well_top > 0 *)
| TransferVolumeOutOfRange   (* custom_transfer: min_volume <= volume <= max_volume *)
| MustBeWellObject           (* offset_dispense: isinstance(well, Well) *)
| SourceMustStartAtRowA      (* adjust_well_volume, 8-row source plate *)
| DestinationMustStartAtRowA (* adjust_well_volume, 8-row destination plate *).

Inductive exn :=
| AssertionError (a : assertion)
| NameError (var : string)
| UnboundLocalError (var : string)
| KeyError (key : string)
| IndexError
| ValueError (msg : string)
| RuntimeError (msg : string)
| ZeroDivisionError.

(** ** Labware, wells, locations, pipettes *)

(** A well object: [str(well.parent)], [well.well_name], [well.depth] and
    [well.width] are all the code reads of it. *)
Record Well := {
  parent : string;
  well_name : string;
  depth : Q;
  width : Q
}.

Record Point := { px : Q; py : Q; pz : Q }.

Inductive Anchor := Bottom | Top.

(** A location object: a point given relative to the bottom or the top
    centre of a well, as [well.bottom(z)], [well.top(z)] and
    [location.move(point)] build it. *)
Record Location := {
  labware : Well;
  anchor : Anchor;
  offset : Point
}.

Definition bottom (w : Well) (z : Q) : Location :=
  {| labware := w; anchor := Bottom; offset := {| px := 0; py := 0; pz := z |} |}.

Definition top (w : Well) (z : Q) : Location :=
  {| labware := w; anchor := Top; offset := {| px := 0; py := 0; pz := z |} |}.

Definition move (l : Location) (p : Point) : Location :=
  {| labware := labware l; anchor := anchor l;
     offset := {| px := px (offset l) + px p;
                  py := py (offset l) + py p;
                  pz := pz (offset l) + pz p |} |}.

(** Where the code accepts "a well object or a location object". *)
Inductive Target :=
| AWell (w : Well)
| ALocation (l : Location).

(** [location.labware.as_well()] *)
Definition as_well (l : Location) : Well := labware l.

(** A labware object, as the geometry provider presents it: its display
    string, its rows, its columns by name and its wells. *)
Record Labware := {
  display : string;
  rows : list (list Well);
  columns_by_name : gmap string (list Well);
  wells_by_name : list string
}.

Record Pipette := {
  name : string;
  channels : Z;
  min_volume : Q;
  max_volume : Q
}.

(** ** The robot *)

Inductive Command :=
| PickUpTip (p : Pipette)
| DropTip (p : Pipette)
| Aspirate (p : Pipette) (volume : Q) (location : option Target) (rate : option Q)
| Dispense (p : Pipette) (volume : Q) (location : option Target) (rate : option Q)
| BlowOut (p : Pipette) (location : option Location)
| TouchTip (p : Pipette) (speed : option Q)
| MoveTo (p : Pipette) (location : Location) (force_direct : bool)
| Delay (seconds : Q).

Class Driver := {
  has_tip : Pipette -> list Command -> bool;
  current_volume : Pipette -> list Command -> Q
}.

(** ** The world and the monad *)

Record World := {
  all_volumes : gmap string (Labware * gmap string Q);
  trace : list Command;
  stdout : list string
}.

Inductive result (A : Type) :=
| Ok (a : A)
| Raise (e : exn)
| OutOfFuel.
Arguments Ok {A} a.
Arguments Raise {A} e.
Arguments OutOfFuel {A}.

Definition M (A : Type) : Type := World -> result A * World.

#[global] Instance M_ret : MRet M := fun A a w => (Ok a, w).

#[global] Instance M_bind : MBind M := fun A B f m w =>
  match m w with
  | (Ok a, w') => f a w'
  | (Raise e, w') => (Raise e, w')
  | (OutOfFuel, w') => (OutOfFuel, w')
  end.

Definition raise {A} (e : exn) : M A := fun w => (Raise e, w).

Definition out_of_fuel {A} : M A := fun w => (OutOfFuel, w).

Definition get_world : M World := fun w => (Ok w, w).

Definition cmd (c : Command) : M unit := fun w =>
  (Ok tt, {| all_volumes := all_volumes w; trace := trace w ++ [c]; stdout := stdout w |}).

Definition print (s : string) : M unit := fun w =>
  (Ok tt, {| all_volumes := all_volumes w; trace := trace w; stdout := stdout w ++ [s] |}).

Definition set_volumes (w : World) (v : gmap string (Labware * gmap string Q)) : World :=
  {| all_volumes := v; trace := trace w; stdout := stdout w |}.

Definition put_volumes (v : gmap string (Labware * gmap string Q)) : M unit := fun w =>
  (Ok tt, set_volumes w v).

(** [assert cond] *)
Definition assert_ (cond : bool) (a : assertion) : M unit :=
  if cond then mret tt else raise (AssertionError a).

(** Reading a local variable that may not have been assigned. *)
Definition read_local {A} (var : string) (v : option A) : M A :=
  match v with
  | Some a => mret a
  | None => raise (UnboundLocalError var)
  end.

(** [for x in l: body x] *)
Fixpoint for_each {A} (l : list A) (body : A -> M unit) : M unit :=
  match l with
  | [] => mret tt
  | x :: l' => body x ;; for_each l' body
  end.

(** [for i in range(n): body i]; the result is the value the loop
    variable holds afterwards, if the body ran at all. *)
Fixpoint for_range_from (start count : nat) (last : option nat) (body : nat -> M unit)
  : M (option nat) :=
  match count with
  | O => mret last
  | S count' => body start ;; for_range_from (S start) count' (Some start) body
  end.

Definition for_range (n : Z) (body : nat -> M unit) : M (option nat) :=
  for_range_from 0 (Z.to_nat n) None body.

(** ** get_well_edge_offset *)

Definition tip_dict : gmap string (Q * Q) :=
  {[ "p20_single_gen2" := (0.90, 0.083)%Q; "p300_multi_gen2" := (1.07, 0.093)%Q ]}.

(** The parameter [well] is a [Well]: the first statement reads
    [well.depth], which a location object does not have, so of the
    [isinstance] dispatch on [well] only the first branch is left. *)
Definition get_well_edge_offset (pipette : Pipette) (well : Well) (height_above_bottom : Q)
  : M Q :=
  let EXTRA_OFFSET := 0.2%Q in
  let height_below_well_top := (depth well - height_above_bottom)%Q in
  assert_ (Qltb 0 height_below_well_top) TipAboveWellTop ;;
  PIPETTE_TIP_WIDTH ←
    match tip_dict !! name pipette with
    | Some (diameter, slope) =>
        mret (Some (diameter + height_below_well_top * slope)%Q)
    | None =>
        print ("No tip width defined for the " ++ name pipette) ;;
        mret None
    end ;
  let well_diameter := width well in
  tip_width ← read_local "PIPETTE_TIP_WIDTH" PIPETTE_TIP_WIDTH ;
  mret ((well_diameter - tip_width) / 2 + EXTRA_OFFSET)%Q.

(** ** offset_dispense *)

(** The double-quote character, for messages that quote words. *)
Definition dq : string := String (Ascii.ascii_of_nat 34) EmptyString.

Definition unknown_direction_message : string :=
  "Unknown well destination location, must be " ++ dq ++ "center" ++ dq ++ ", "
  ++ dq ++ "left" ++ dq ++ ", " ++ dq ++ "right" ++ dq ++ ", "
  ++ dq ++ "top" ++ dq ++ ", or " ++ dq ++ "bottom" ++ dq.

(** Truth value of [custom_offset_distance]: [None] and [0] are false. *)
Definition truthy (x : option Q) : option Q :=
  match x with
  | Some q => if Qeq_bool q 0 then None else Some q
  | None => None
  end.

(** The lateral offsets for an offset direction. *)
Definition xy_offsets (offset_direction : string) (offset_distance : Q) : M (Q * Q) :=
  if String.eqb offset_direction "center" then mret (0, 0)%Q
  else if String.eqb offset_direction "right" then mret (offset_distance, 0%Q)
  else if String.eqb offset_direction "left" then mret ((- offset_distance)%Q, 0%Q)
  else if String.eqb offset_direction "top" then mret (0%Q, offset_distance)
  else if String.eqb offset_direction "bottom" then mret (0%Q, (- offset_distance)%Q)
  else raise (RuntimeError unknown_direction_message).

(** The offset distance: the custom one if it is given and not zero. *)
Definition offset_distance_for (pipette : Pipette) (well : Well)
    (custom_offset_distance : option Q) (dispense_height : Q) : M Q :=
  match truthy custom_offset_distance with
  | Some d => mret d
  | None => get_well_edge_offset pipette well dispense_height
  end.

Definition offset_dispense (pipette : Pipette) (well : Target) (transfer_volume : Q)
    (offset_direction : string) (custom_offset_distance : option Q)
    (dispense_height : Q) (do_blowout : bool) (dest_blowout_height : Q)
    (do_touch_tip : bool) (dispense_rate : Q) (inspect_tips : bool) : M unit :=
  well ← match well with
         | AWell w => mret w
         | ALocation _ => raise (AssertionError MustBeWellObject)
         end ;
  offset_distance ← offset_distance_for pipette well custom_offset_distance dispense_height ;
  '(x_offset, y_offset) ← xy_offsets offset_direction offset_distance ;
  (if inspect_tips
   then cmd (MoveTo pipette (top well 10) false) ;; cmd (Delay 3)
   else mret tt) ;;
  cmd (MoveTo pipette (bottom well dispense_height) false) ;;
  cmd (MoveTo pipette
         (move (bottom well dispense_height) {| px := x_offset; py := y_offset; pz := 0 |})
         true) ;;
  cmd (Dispense pipette transfer_volume None (Some dispense_rate)) ;;
  cmd (MoveTo pipette (bottom well dispense_height) true) ;;
  (if do_blowout
   then
     cmd (MoveTo pipette (bottom well dest_blowout_height) false) ;;
     cmd (MoveTo pipette
            (move (bottom well dispense_height) {| px := x_offset; py := y_offset; pz := 0 |})
            true) ;;
     cmd (BlowOut pipette None) ;;
     cmd (MoveTo pipette (bottom well dest_blowout_height) true)
   else mret tt) ;;
  (if do_touch_tip then cmd (TouchTip pipette (Some 20%Q)) else mret tt).

(** ** adjust_well_volume *)

(** [needle in hay] on strings. *)
Fixpoint str_contains (needle hay : string) : bool :=
  String.prefix needle hay ||
  match hay with
  | EmptyString => false
  | String _ hay' => str_contains needle hay'
  end.

(** [s[0]]: the first character, as a string. *)
Definition str_first (s : string) : M string :=
  match s with
  | EmptyString => raise IndexError
  | String c _ => mret (String c EmptyString)
  end.

(** [s[1:]] *)
Definition str_rest (s : string) : string :=
  match s with
  | EmptyString => EmptyString
  | String _ s' => s'
  end.

(** [l[0::2]]; [l[1::2]] is [every_other (tail l)]. *)
Fixpoint every_other {A} (l : list A) : list A :=
  match l with
  | [] => []
  | x :: l' => x :: match l' with [] => [] | _ :: l'' => every_other l'' end
  end.

(** [l[start_idx::2]] for [start_idx] 0 or 1. *)
Definition slice_step2 {A} (start_idx : nat) (l : list A) : list A :=
  every_other (drop start_idx l).

(** [d[key]] on a dictionary with string keys. *)
Definition dict_get {V} (d : gmap string V) (key : string) : M V :=
  match d !! key with
  | Some v => mret v
  | None => raise (KeyError key)
  end.

(** [all_volumes[plate][1][well] = f(all_volumes[plate][1][well])], the
    common shape of the two augmented assignments below. *)
Definition update_volume (f : Q -> Q) (plate well : string) : M unit :=
  w ← get_world ;
  entry ← dict_get (all_volumes w) plate ;
  v ← dict_get (entry.2) well ;
  put_volumes (<[plate := (entry.1, <[well := f v]> (entry.2))]> (all_volumes w)).

(** [all_volumes[plate][1][well] += amount] *)
Definition add_volume (plate well : string) (amount : Q) : M unit :=
  update_volume (fun v => (v + amount)%Q) plate well.

(** [all_volumes[plate][1][well] -= amount] *)
Definition sub_volume (plate well : string) (amount : Q) : M unit :=
  update_volume (fun v => (v - amount)%Q) plate well.

(** The wells one side of an 8-channel transfer touches, with the number
    of channels per well.  The three [if] statements of the source test
    one variable against 1, 8 and 16 and are written here as a chain; when
    none applies the two locals stay unassigned.

    The assertion of the 8-row branch builds its message from variables
    that are assigned, so it fails with [AssertionError].  The message of
    the 16-row assertion is an f-string over the name [misaligned16]
    ([source_row], [destination_row]), which is assigned nowhere in the
    file: when the condition is false, evaluating the message raises
    [NameError] before any [AssertionError] is built. *)
Definition fan_out (plate : Labware) (plate_rows : nat) (start_row : string) (w : Well)
    (row_a : assertion) (misaligned16 : string) : M (option (Z * list Well)) :=
  if Nat.eqb plate_rows 1 then mret (Some (8%Z, [w]))
  else if Nat.eqb plate_rows 8 then
    assert_ (String.eqb start_row "A") row_a ;;
    column ← dict_get (columns_by_name plate) (str_rest (well_name w)) ;
    mret (Some (1%Z, column))
  else if Nat.eqb plate_rows 16 then
    (if String.eqb start_row "A" || String.eqb start_row "B"
     then mret tt
     else raise (NameError misaligned16)) ;;
    let start_idx := if String.eqb start_row "A" then 0 else 1 in
    column ← dict_get (columns_by_name plate) (str_rest (well_name w)) ;
    mret (Some (1%Z, slice_step2 start_idx column))
  else mret None.

(** The well behind a source or destination:
    [if isinstance(x, Location): x = x.labware.as_well()]. *)
Definition target_well (t : Target) : Well :=
  match t with AWell x => x | ALocation l => as_well l end.

(** "collect destination well information": whether the destination is
    not the trash and, if so, its plate, row count and start row. *)
Definition destination_info (destination : Well)
  : M (bool * option Labware * nat * option string) :=
  w ← get_world ;
  if str_contains "Fixed Trash" (parent destination)
  then mret (false, None, 0, None)
  else
    destination_entry ← dict_get (all_volumes w) (parent destination) ;
    destination_start_row ← str_first (well_name destination) ;
    mret (true, Some (destination_entry.1), length (rows (destination_entry.1)),
            Some destination_start_row).

(** "determine the number of pipette channels": the well lists of both
    sides with their channels per well, where assigned. *)
Definition well_lists (num_channels : Z) (source destination : Well)
    (source_plate : Labware) (source_plate_rows : nat) (source_start_row : string)
    (destination_plate : option Labware) (destination_plate_rows : nat)
    (destination_start_row : option string)
  : M (option (Z * list Well) * option (Z * list Well)) :=
  if Z.eqb num_channels 1 then
    mret (Some (1%Z, [source]), Some (1%Z, [destination]))
  else if Z.eqb num_channels 8 then
    source_fan ← fan_out source_plate source_plate_rows source_start_row source
                    SourceMustStartAtRowA "source_row" ;
    destination_fan ←
      match destination_plate, destination_start_row with
      | Some destination_plate, Some destination_start_row =>
          fan_out destination_plate destination_plate_rows destination_start_row
            destination DestinationMustStartAtRowA "destination_row"
      | _, _ => mret None
      end ;
    mret (source_fan, destination_fan)
  else raise (ValueError "Wrong number of channels. num_channels should be 1 or 8").

(** "subtract volume from source well(s)", "add volume to destination
    well(s)". *)
Definition apply_well_lists (transfer_volume : Q) (source destination : Well)
    (not_trash : bool) (source_fan destination_fan : option (Z * list Well)) : M unit :=
  '(uptake_channels, source_well_list) ← read_local "source_well_list" source_fan ;
  for_each source_well_list (fun s =>
    sub_volume (parent source) (well_name s)
      (transfer_volume * inject_Z uptake_channels)%Q) ;;
  if not_trash then
    '(dispense_channels, destination_well_list) ←
      read_local "destination_well_list" destination_fan ;
    for_each destination_well_list (fun d =>
      add_volume (parent destination) (well_name d)
        (transfer_volume * inject_Z dispense_channels)%Q)
  else mret tt.

Definition adjust_well_volume (transfer_volume : Q) (source destination : Target)
    (num_channels : Z) : M unit :=
  let source := target_well source in
  let destination := target_well destination in
  (* collect source well information *)
  w ← get_world ;
  source_entry ← dict_get (all_volumes w) (parent source) ;
  let source_plate := source_entry.1 in
  let source_plate_rows := length (rows source_plate) in
  source_start_row ← str_first (well_name source) ;
  info ← destination_info destination ;
  fans ← well_lists num_channels source destination source_plate source_plate_rows
           source_start_row (info.1.1.2) (info.1.2) (info.2) ;
  apply_well_lists transfer_volume source destination (info.1.1.1) (fans.1) (fans.2).

(** ** custom_transfer and serial_dilution *)

(** True division [x / y]. *)
Definition py_div (x y : Q) : M Q :=
  if Qeq_bool y 0 then raise ZeroDivisionError else mret (x / y)%Q.

(** [l[i]] for an index that is not negative. *)
Definition list_get {A} (l : list A) (i : nat) : M A :=
  match l !! i with
  | Some a => mret a
  | None => raise IndexError
  end.

(** The inner loop of the distribute strategy:
    [for i in range(count): if len(working) > 0: temp.append(working.pop())]. *)
Fixpoint pop_batch {A} (count : nat) (working temp : list A) : list A * list A :=
  match count with
  | O => (temp, working)
  | S count' =>
      match last working with
      | Some x => pop_batch count' (removelast working) (temp ++ [x])
      | None => pop_batch count' working temp
      end
  end.

Section Engine.
Context {driver : Driver}.

(** The fixed trash well, [protocol.fixed_trash['A1']]. *)
Variable trash : Well.

(** [if not pipette.has_tip: pipette.pick_up_tip()] *)
Definition pick_up_tip_if_needed (pipette : Pipette) : M unit :=
  w ← get_world ;
  if has_tip pipette (trace w) then mret tt else cmd (PickUpTip pipette).

(** One round of the [while] loop of the distribute strategy, after the
    batch [temp_transfer_list] has been popped. *)
Definition distribute_batch (pipette : Pipette) (transfer_volume : Q) (source : Location)
    (dispense_height : Q) (offset_direction : string) (do_touch_tip : bool)
    (dispense_rate : Q) (inspect_tips : bool) (carryover : Q)
    (temp_transfer_list : list Target) : M unit :=
  let aspirate_volume :=
    (transfer_volume * inject_Z (Z.of_nat (length temp_transfer_list))
     + max_volume pipette * carryover)%Q in
  w ← get_world ;
  cmd (Aspirate pipette (aspirate_volume - current_volume pipette (trace w))%Q
         (Some (ALocation source)) None) ;;
  (if do_touch_tip then cmd (TouchTip pipette None) else mret tt) ;;
  for_each temp_transfer_list (fun well =>
    offset_dispense pipette well transfer_volume offset_direction None dispense_height
      false 8%Q do_touch_tip dispense_rate inspect_tips ;;
    adjust_well_volume transfer_volume (ALocation source) well (channels pipette)).

(** [while len(working_destination_list) > 0: ...] *)
Fixpoint distribute_loop (fuel : nat) (pipette : Pipette) (transfer_volume : Q)
    (source : Location) (dispense_height : Q) (offset_direction : string)
    (do_touch_tip : bool) (dispense_rate : Q) (inspect_tips : bool) (carryover : Q)
    (max_wells_per_aspirate : Z) (working_destination_list : list Target) : M unit :=
  match working_destination_list with
  | [] => mret tt
  | _ :: _ =>
      match fuel with
      | O => out_of_fuel
      | S fuel' =>
          let '(temp_transfer_list, working') :=
            pop_batch (Z.to_nat max_wells_per_aspirate) working_destination_list [] in
          distribute_batch pipette transfer_volume source dispense_height offset_direction
            do_touch_tip dispense_rate inspect_tips carryover temp_transfer_list ;;
          distribute_loop fuel' pipette transfer_volume source dispense_height
            offset_direction do_touch_tip dispense_rate inspect_tips carryover
            max_wells_per_aspirate working'
      end
  end.

(** The number of wells filled from one aspirate, as the distribute
    strategy computes it before its loop. *)
Definition wells_per_aspirate (pipette : Pipette) (transfer_volume carryover : Q)
    (evenly_split_transfers : bool) (total_wells : nat) : M Z :=
  q ← py_div (max_volume pipette * (1 - carryover))%Q transfer_volume ;
  let max_wells_per_aspirate := py_int q in
  if evenly_split_transfers then
    g ← py_div (inject_Z (Z.of_nat total_wells)) (inject_Z max_wells_per_aspirate) ;
    let num_transfer_groups := math_ceil g in
    m ← py_div (inject_Z (Z.of_nat total_wells)) (inject_Z num_transfer_groups) ;
    mret (math_ceil m)
  else mret max_wells_per_aspirate.

Definition custom_transfer (fuel : nat) (pipette : Pipette) (transfer_volume : Q)
    (source : Target) (destination_list : list Target)
    (source_blowout_height dest_blowout_height dispense_height : Q)
    (offset_direction : string) (prewet_tip drop_tip do_blowout do_touch_tip : bool)
    (transfer_type : string) (dispense_rate : Q) (inspect_tips : bool)
    (evenly_split_transfers : bool) : M unit :=
  assert_ (Qle_bool transfer_volume (max_volume pipette)
           && Qle_bool (min_volume pipette) transfer_volume) TransferVolumeOutOfRange ;;
  let source := match source with AWell w => bottom w 1 | ALocation l => l end in
  pick_up_tip_if_needed pipette ;;
  (if prewet_tip then
     cmd (Aspirate pipette (max_volume pipette) (Some (ALocation source)) None) ;;
     cmd (Dispense pipette (max_volume pipette) (Some (ALocation source)) None) ;;
     (if do_blowout
      then cmd (BlowOut pipette (Some (bottom (as_well source) source_blowout_height)))
      else mret tt) ;;
     cmd (TouchTip pipette None)
   else mret tt) ;;
  if String.eqb transfer_type "single" then
    for_each destination_list (fun well =>
      cmd (Aspirate pipette transfer_volume (Some (ALocation source)) None) ;;
      cmd (TouchTip pipette None) ;;
      offset_dispense pipette well transfer_volume offset_direction None dispense_height
        do_blowout 8%Q do_touch_tip dispense_rate inspect_tips ;;
      adjust_well_volume transfer_volume (ALocation source) well (channels pipette)) ;;
    (if drop_tip then cmd (DropTip pipette) else mret tt)
  else if String.eqb transfer_type "distribute" then
    let working_destination_list := destination_list in
    let carryover := 0.1%Q in
    max_wells_per_aspirate ←
      wells_per_aspirate pipette transfer_volume carryover evenly_split_transfers
        (length working_destination_list) ;
    distribute_loop fuel pipette transfer_volume source dispense_height offset_direction
      do_touch_tip dispense_rate inspect_tips carryover max_wells_per_aspirate
      working_destination_list ;;
    (if drop_tip then cmd (DropTip pipette) else mret tt)
  else mret tt.

(** The mixing cycles of [serial_dilution] at the well [wells[k]]; the
    aspirate of the cycle runs at [aspirate_rate]. *)
Definition mix_cycles (pipette : Pipette) (mix_volume : Q) (wells : list Well) (k : nat)
    (mix_steps : Z) (dispense_height : Q) (aspirate_rate : Q) : M (option nat) :=
  for_range mix_steps (fun j =>
    w1 ← list_get wells k ;
    cmd (Aspirate pipette mix_volume (Some (AWell w1)) (Some aspirate_rate)) ;;
    w2 ← list_get wells k ;
    cmd (Dispense pipette mix_volume (Some (ALocation (bottom w2 dispense_height)))
           (Some 10%Q)) ;;
    cmd (Delay 0.5%Q)).

(** What follows the mixing cycles: the optional blow-out and the touch. *)
Definition blow_out_and_touch (pipette : Pipette) (wells : list Well) (k : nat)
    (blowout_height : Q) (do_blowout : bool) : M unit :=
  (if do_blowout
   then w ← list_get wells k ; cmd (BlowOut pipette (Some (bottom w blowout_height)))
   else mret tt) ;;
  cmd (TouchTip pipette (Some 20%Q)).

(** The body of the main loop of [serial_dilution], for the pair
    [wells[i]], [wells[i+1]]. *)
Definition dilution_step (pipette : Pipette) (transfer_volume mix_volume : Q)
    (wells : list Well) (mix_steps : Z) (dispense_height blowout_height : Q)
    (do_blowout always_get_new_tip : bool) (i : nat) : M unit :=
  wi ← list_get wells i ;
  wi1 ← list_get wells (i + 1) ;
  cmd (Aspirate pipette transfer_volume (Some (AWell wi)) (Some 1%Q)) ;;
  cmd (Dispense pipette transfer_volume (Some (AWell wi1)) (Some 10%Q)) ;;
  adjust_well_volume transfer_volume (AWell wi) (AWell wi1) (channels pipette) ;;
  mix_cycles pipette mix_volume wells (i + 1) mix_steps dispense_height 10%Q ;;
  blow_out_and_touch pipette wells (i + 1) blowout_height do_blowout ;;
  (if always_get_new_tip
   then cmd (DropTip pipette) ;; cmd (PickUpTip pipette)
   else mret tt).

(** The mixing at the first well before the transfers. *)
Definition mix_first (pipette : Pipette) (mix_volume : Q) (wells : list Well)
    (mix_steps : Z) (dispense_height blowout_height : Q) (mix_before do_blowout : bool)
  : M unit :=
  if mix_before then
    mix_cycles pipette mix_volume wells 0 mix_steps dispense_height 1%Q ;;
    blow_out_and_touch pipette wells 0 blowout_height do_blowout
  else mret tt.

Definition serial_dilution (pipette : Pipette) (transfer_volume mix_volume : Q)
    (wells : list Well) (mix_steps : Z) (dispense_height blowout_height : Q)
    (mix_before do_blowout always_get_new_tip : bool) : M unit :=
  pick_up_tip_if_needed pipette ;;
  mix_first pipette mix_volume wells mix_steps dispense_height blowout_height
    mix_before do_blowout ;;
  i ← for_range (Z.of_nat (length wells) - 1)
        (dilution_step pipette transfer_volume mix_volume wells mix_steps dispense_height
           blowout_height do_blowout always_get_new_tip) ;
  (* discard extra volume from the final wells *)
  i ← read_local "i" i ;
  last_well ← list_get wells (i + 1) ;
  cmd (Aspirate pipette transfer_volume (Some (AWell last_well)) None) ;;
  adjust_well_volume transfer_volume (AWell last_well) (AWell trash) (channels pipette) ;;
  cmd (DropTip pipette).

End Engine.

(** ** Observations on the ledger *)

(** The tracked volume of a well, if the ledger has the plate and the well. *)
Definition volume_of (w : World) (plate well : string) : option Q :=
  e ← all_volumes w !! plate ; e.2 !! well.

(** The same as a number: [0] for what is not tracked. *)
Definition vol (w : World) (plate well : string) : Q :=
  default 0%Q (volume_of w plate well).

(** A well the ledger tracks and whose name has a row letter. *)
Definition registered (w : World) (x : Well) : Prop :=
  well_name x <> "" /\ is_Some (volume_of w (parent x) (well_name x)).

Definition sum_volumes (vols : gmap string Q) : Q :=
  map_fold (fun _ v acc => (v + acc)%Q) 0%Q vols.

(** The sum of all tracked volumes of one plate. *)
Definition plate_total (w : World) (plate : string) : Q :=
  match all_volumes w !! plate with
  | Some e => sum_volumes e.2
  | None => 0%Q
  end.

(** Which plates the ledger has, with their labware and tracked wells. *)
Definition shape (w : World) (plate : string) : option (Labware * gset string) :=
  (fun e => (e.1, dom e.2)) <$> all_volumes w !! plate.

(** How many wells of a list bear a given name. *)
Definition hits (well : string) (l : list Well) : Z :=
  Z.of_nat (length (filter (fun x => well_name x = well) l)).

(** The ledger of [w'] is that of [w] with [delta plate well] added to each
    well and [total_delta plate] to each plate total; the plates and the
    tracked wells are the same. *)
Definition ledger_moved (w w' : World) (delta : string -> string -> Q)
    (total_delta : string -> Q) : Prop :=
  (forall p, shape w' p = shape w p)
  /\ (forall p n, (vol w' p n == vol w p n + delta p n)%Q)
  /\ (forall p, (plate_total w' p == plate_total w p + total_delta p)%Q).

(** The ledger has the plate and tracks every well of the list on it. *)
Definition tracked_on (w : World) (plate : string) (l : list Well) : Prop :=
  exists lw vols,
    all_volumes w !! plate = Some (lw, vols)
    /\ Forall (fun x => is_Some (vols !! well_name x)) l.

(** The ledger key of a well, and a change of [v] at that well only. *)
Definition well_key (x : Well) : string * string := (parent x, well_name x).

Definition at_well (x : Well) (v : Q) (plate well : string) : Q :=
  if decide ((plate, well) = well_key x) then v else 0%Q.

Definition is_trash (x : Well) : bool := str_contains "Fixed Trash" (parent x).

(** The row letter of a well, [well_name[0]], where the name is not empty. *)
Definition start_row (x : Well) : string :=
  match well_name x with
  | EmptyString => EmptyString
  | String c _ => String c EmptyString
  end.

(** The channel fan-out in the words of the specification: the wells an
    8-channel pipette placed on [x] addresses, and how many channels meet
    in each of them, by the number of rows of the plate. *)
Inductive channel_fan (plate : Labware) (x : Well) : Z -> list Well -> Prop :=
| fan_one_row :
    length (rows plate) = 1 ->
    channel_fan plate x 8 [x]
| fan_eight_rows column :
    length (rows plate) = 8 ->
    start_row x = "A" ->
    columns_by_name plate !! str_rest (well_name x) = Some column ->
    channel_fan plate x 1 column
| fan_sixteen_rows_A column :
    length (rows plate) = 16 ->
    start_row x = "A" ->
    columns_by_name plate !! str_rest (well_name x) = Some column ->
    channel_fan plate x 1 (every_other column)
| fan_sixteen_rows_B column :
    length (rows plate) = 16 ->
    start_row x = "B" ->
    columns_by_name plate !! str_rest (well_name x) = Some column ->
    channel_fan plate x 1 (every_other (drop 1 column)).

(** What the destination side of an adjustment needs: nothing of the
    trash; of any other well, a name, a plate in the ledger, and a fan-out
    of tracked wells. *)
Definition destination_ready (w : World) (dst : Well) (dm : Z) (dwl : list Well) : Prop :=
  is_trash dst = false ->
  well_name dst <> ""
  /\ exists dl dv,
       all_volumes w !! parent dst = Some (dl, dv)
       /\ channel_fan dl dst dm dwl
       /\ Forall (fun x => is_Some (dv !! well_name x)) dwl.

(** The row counts that the fan-out handles. *)
Definition supported_rows (n : nat) : Prop := n = 1 \/ n = 8 \/ n = 16.

(** The destination side of an 8-channel adjustment gets through its
    checks: it is the trash, or a named well of a plate of the ledger whose
    fan-out raises nothing. *)
Definition destination_passes (w : World) (dst : Well) : Prop :=
  is_trash dst = false ->
  well_name dst <> ""
  /\ exists dl dv dfan,
       all_volumes w !! parent dst = Some (dl, dv)
       /\ fan_out dl (length (rows dl)) (start_row dst) dst
            DestinationMustStartAtRowA "destination_row" w = (Ok dfan, w).

(** The failure of an 8-channel adjustment on a plate whose row count no
    branch handles: a well list that was never assigned. *)
Definition unsupported_plate_geometry (r : result unit) : Prop :=
  r = Raise (UnboundLocalError "source_well_list")
  \/ r = Raise (UnboundLocalError "destination_well_list").

(** The failure of the alignment assertions. *)
Definition invalid_multichannel_alignment (r : result unit) : Prop :=
  r = Raise (AssertionError SourceMustStartAtRowA)
  \/ r = Raise (AssertionError DestinationMustStartAtRowA).

(** Every column of the plate has one well per row. *)
Definition uniform_columns (plate : Labware) : Prop :=
  forall c column, columns_by_name plate !! c = Some column ->
                   length column = length (rows plate).

(** A sequence of single-channel transfers: volume, source, destination. *)
Definition run_transfers (l : list (Q * Well * Well)) : M unit :=
  for_each l (fun t => adjust_well_volume t.1.1 (AWell t.1.2) (AWell t.2) 1).

(** What a sequence of transfers adds to the total of a plate: the volume
    of each transfer into the plate minus that of each transfer out of it. *)
Fixpoint net_change (plate : string) (l : list (Q * Well * Well)) : Q :=
  match l with
  | [] => 0
  | t :: l' =>
      ((if decide (plate = parent t.2) then t.1.1 else 0)
       - (if decide (plate = parent t.1.2) then t.1.1 else 0)
       + net_change plate l')%Q
  end.

(** Consecutive batches of at most [k] elements, at most [fuel] of them. *)
Fixpoint chunks_fuel {A} (fuel k : nat) (l : list A) : list (list A) :=
  match l, fuel with
  | [], _ => []
  | _ :: _, O => []
  | _ :: _, S fuel' => take k l :: chunks_fuel fuel' k (drop k l)
  end.

(** ** A concrete deck, for running the functions

    Plates in the shape of those that [run] loads, under the keys of
    [all_volumes] (the assay plate's key with its micro sign written u),
    and one plate with four rows.  Well depths and widths other than those
    of the assay plate are arbitrary. *)

(** A rectangular plate: rows lettered from A, columns numbered from 1. *)
Definition plate_well (plate : string) (well_depth well_width : Q) (r c : nat) : Well :=
  {| parent := plate;
     well_name := String (Ascii.ascii_of_nat (65 + r)) (pretty (S c));
     depth := well_depth; width := well_width |}.

Definition make_plate (plate : string) (n_rows n_columns : nat) (well_depth well_width : Q)
  : Labware :=
  {| display := plate;
     rows := (fun r => (fun c => plate_well plate well_depth well_width r c)
                         <$> seq 0 n_columns) <$> seq 0 n_rows;
     columns_by_name :=
       list_to_map ((fun c => (pretty (S c),
                               (fun r => plate_well plate well_depth well_width r c)
                                 <$> seq 0 n_rows)) <$> seq 0 n_columns);
     wells_by_name :=
       c ← seq 0 n_columns ;
       (fun r => well_name (plate_well plate well_depth well_width r c)) <$> seq 0 n_rows |}.

(** [dict(zip(plate.wells_by_name(), itertools.repeat(0)))] *)
Definition zero_volumes (plate : Labware) : gmap string Q :=
  list_to_map ((fun n => (n, 0%Q)) <$> wells_by_name plate).

Definition ledger_of (plates : list Labware) : gmap string (Labware * gmap string Q) :=
  list_to_map ((fun p => (display p, (p, zero_volumes p))) <$> plates).

Definition reservoir_plate : Labware :=
  make_plate "NEST 12 Well Reservoir 15 mL on 2" 1 12 26.85 8.2.

Definition deepwell_plate : Labware :=
  make_plate "USA Scientific 96 Deep Well Plate 2.4 mL on 5" 8 12 41.3 8.2.

Definition assay_plate : Labware :=
  make_plate "Corning 384 Well Plate 112 uL Flat on Temperature Module GEN2 on 8"
    16 24 11.43 3.6.

(** A plate with four rows, which no branch of the fan-out handles. *)
Definition four_row_plate : Labware :=
  make_plate "Four Row Plate on 1" 4 6 10 8.

Definition fixed_trash : Well :=
  {| parent := "Opentrons Fixed Trash on 12"; well_name := "A1"; depth := 0; width := 0 |}.

Definition p20 : Pipette :=
  {| name := "p20_single_gen2"; channels := 1; min_volume := 1; max_volume := 20 |}.

Definition p300m : Pipette :=
  {| name := "p300_multi_gen2"; channels := 8; min_volume := 20; max_volume := 300 |}.

(** A pipette model that [tip_dict] has no profile for. *)
Definition p1000 : Pipette :=
  {| name := "p1000_single_gen2"; channels := 1; min_volume := 100; max_volume := 1000 |}.

(** The world at the start of a run. *)
Definition start : World :=
  {| all_volumes := ledger_of [reservoir_plate; deepwell_plate; assay_plate; four_row_plate];
     trace := []; stdout := [] |}.

(** A driver that simulates tips and tip contents from the commands. *)
Definition simulated_has_tip (p : Pipette) (t : list Command) : bool :=
  fold_left (fun b c =>
    match c with
    | PickUpTip q => if String.eqb (name q) (name p) then true else b
    | DropTip q => if String.eqb (name q) (name p) then false else b
    | _ => b
    end) t false.

Definition simulated_current_volume (p : Pipette) (t : list Command) : Q :=
  fold_left (fun v c =>
    match c with
    | Aspirate q x _ _ => if String.eqb (name q) (name p) then (v + x)%Q else v
    | Dispense q x _ _ => if String.eqb (name q) (name p) then (v - x)%Q else v
    | BlowOut q _ => if String.eqb (name q) (name p) then 0%Q else v
    | DropTip q => if String.eqb (name q) (name p) then 0%Q else v
    | _ => v
    end) t 0%Q.

Definition simulated : Driver :=
  {| has_tip := simulated_has_tip; current_volume := simulated_current_volume |}.

(** The volumes of the aspirate commands of a trace, and the wells that
    the pipette approached by an arcing move, in the order issued. *)
Definition aspirated (t : list Command) : list Q :=
  omap (fun c => match c with Aspirate _ v _ _ => Some v | _ => None end) t.

Definition approached (t : list Command) : list string :=
  omap (fun c => match c with
                 | MoveTo _ l false => Some (well_name (labware l))
                 | _ => None
                 end) t.

(** The 18 buffer wells of a standard curve over nine columns: row B, then
    row A. *)
Definition buffer_wells : list Target :=
  ((fun c => AWell (plate_well (display assay_plate) 11.43 3.6 1 c)) <$> seq 0 9)
  ++ ((fun c => AWell (plate_well (display assay_plate) 11.43 3.6 0 c)) <$> seq 0 9).

Definition buffer : Well := plate_well (display reservoir_plate) 26.85 8.2 0 0.

(** Well A1 and the first column of the assay plate; five wells of row A
    of the deep-well plate for a dilution series. *)
Definition assay_a1 : Well := plate_well (display assay_plate) 11.43 3.6 0 0.

Definition assay_column_1 : list Well :=
  (fun r => plate_well (display assay_plate) 11.43 3.6 r 0) <$> seq 0 16.

Definition dilution_wells : list Well :=
  (fun c => plate_well (display deepwell_plate) 41.3 8.2 0 c) <$> seq 0 5.

(** Appending commands to the trace of a world. *)
Definition extend (w : World) (cs : list Command) : World :=
  {| all_volumes := all_volumes w; trace := trace w ++ cs; stdout := stdout w |}.

(** A computation that only talks to the robot: it returns normally and
    leaves the ledger and the printed lines alone, and every command it
    issues satisfies [P]. *)
Definition robot_only {A} (P : Command -> Prop) (m : M A) : Prop :=
  forall w, exists a cs, m w = (Ok a, extend w cs) /\ Forall P cs.

(** The commands of a successful [offset_dispense], in the order issued:
    the approach and the dispense, the blow-out, the touch. *)
Definition dispense_moves (pipette : Pipette) (well : Well) (transfer_volume : Q)
    (x_offset y_offset dispense_height dispense_rate : Q) (inspect_tips : bool)
  : list Command :=
  (if inspect_tips then [MoveTo pipette (top well 10) false; Delay 3] else [])
  ++ [MoveTo pipette (bottom well dispense_height) false;
      MoveTo pipette
        (move (bottom well dispense_height) {| px := x_offset; py := y_offset; pz := 0 |})
        true;
      Dispense pipette transfer_volume None (Some dispense_rate);
      MoveTo pipette (bottom well dispense_height) true].

Definition blow_out_moves (pipette : Pipette) (well : Well)
    (x_offset y_offset dispense_height dest_blowout_height : Q) : list Command :=
  [MoveTo pipette (bottom well dest_blowout_height) false;
   MoveTo pipette
     (move (bottom well dispense_height) {| px := x_offset; py := y_offset; pz := 0 |})
     true;
   BlowOut pipette None;
   MoveTo pipette (bottom well dest_blowout_height) true].

(** Commands that are no part of the trailing disposal of a serial
    dilution: neither a tip drop nor an aspirate at the default rate (the
    trailing aspirate is the only one issued without a rate). *)
Definition no_disposal (c : Command) : Prop :=
  match c with
  | DropTip _ => False
  | Aspirate _ _ _ None => False
  | _ => True
  end.

(** ** Well names and indices

    [indices_from_well_name], [well_name_from_indices], [offset_well] and
    [well_id_from_name] are pure functions on text and integers.  The
    embedding covers ASCII text: where a name holds a character beyond
    ASCII, or [chr] would produce one, the outcome is [Beyond] and the
    theorems say nothing.  The limit that recent Python versions put on
    the number of digits [int] accepts is not modelled. *)

Module Addressing.

Inductive error := TypeError | ValueError.

Inductive outcome (A : Type) :=
| Return (a : A)
| Raise (e : error)
| Beyond.
Arguments Return {A} a.
Arguments Raise {A} e.
Arguments Beyond {A}.

Definition bind {A B} (m : outcome A) (f : A -> outcome B) : outcome B :=
  match m with
  | Return a => f a
  | Raise e => Raise e
  | Beyond => Beyond
  end.

Definition code (c : Ascii.ascii) : Z := Z.of_nat (Ascii.nat_of_ascii c).

Definition is_ascii (c : Ascii.ascii) : bool := (code c <? 128)%Z.

Fixpoint all_ascii (s : string) : bool :=
  match s with
  | EmptyString => true
  | String c s' => is_ascii c && all_ascii s'
  end.

(** [c.upper()] on an ASCII character. *)
Definition upper (c : Ascii.ascii) : Ascii.ascii :=
  if ((97 <=? code c) && (code c <=? 122))%Z
  then Ascii.ascii_of_nat (Ascii.nat_of_ascii c - 32)
  else c.

(** What [str.isspace] holds of an ASCII character. *)
Definition is_space (c : Ascii.ascii) : bool :=
  (((9 <=? code c) && (code c <=? 13)) || ((28 <=? code c) && (code c <=? 32)))%Z.

Definition digit_of (c : Ascii.ascii) : option Z :=
  if ((48 <=? code c) && (code c <=? 57))%Z then Some (code c - 48)%Z else None.

Fixpoint lstrip (s : string) : string :=
  match s with
  | EmptyString => EmptyString
  | String c s' => if is_space c then lstrip s' else s
  end.

Fixpoint rstrip (s : string) : string :=
  match s with
  | EmptyString => EmptyString
  | String c s' =>
      match rstrip s' with
      | EmptyString => if is_space c then EmptyString else String c EmptyString
      | r => String c r
      end
  end.

(** The digits of an integer literal, single underscores (code 95)
    allowed between them; [after_digit] tells whether the character before
    was a digit. *)
Fixpoint digits_value (acc : Z) (after_digit : bool) (s : string) : option Z :=
  match s with
  | EmptyString => if after_digit then Some acc else None
  | String c s' =>
      match digit_of c with
      | Some d => digits_value (10 * acc + d) true s'
      | None =>
          if (code c =? 95)%Z && after_digit then digits_value acc false s' else None
      end
  end.

(** [int(s)] on ASCII text: blanks around, a sign ([+] is code 43, [-]
    code 45), digits. *)
Definition int_of_string (s : string) : option Z :=
  match rstrip (lstrip s) with
  | EmptyString => None
  | String c d =>
      if (code c =? 43)%Z then digits_value 0 false d
      else if (code c =? 45)%Z then Z.opp <$> digits_value 0 false d
      else digits_value 0 false (String c d)
  end.

(** [chr(n)] *)
Definition chr (n : Z) : outcome Ascii.ascii :=
  if ((n <? 0) || (1114111 <? n))%Z then Raise ValueError
  else if (n <? 128)%Z then Return (Ascii.ascii_of_nat (Z.to_nat n))
  else Beyond.

Definition indices_from_well_name (well_name : string) : outcome (Z * Z) :=
  if all_ascii well_name then
    bind (match well_name with
          | EmptyString => Raise TypeError
          | String c _ => Return (code (upper c) - 65)%Z
          end)
      (fun row_idx =>
         match int_of_string (str_rest well_name) with
         | Some n => Return (row_idx, (n - 1)%Z)
         | None => Raise ValueError
         end)
  else Beyond.


Definition well_name_from_indices (row col : Z) : outcome string :=
  bind (chr (row + 65)) (fun row_letter => Return (String row_letter (pretty (col + 1)%Z))).


(** Text without a blank character. *)
Fixpoint no_blank (s : string) : bool :=
  match s with
  | EmptyString => true
  | String c s' => negb (is_space c) && no_blank s'
  end.

(** A row index whose letter is ASCII and not a lower-case letter. *)
Definition plain_row (row : Z) : Prop :=
  (0 <= row + 65 < 128)%Z /\ ~ (97 <= row + 65 <= 122)%Z.

End Addressing.

(** ** get_384_well_dispense_height and reset_well_volumes *)

(** The result is paired with whether the warning of a volume above 100 ul
    is logged. *)
Definition get_384_well_dispense_height (current_volume volume_to_add : Q) : bool * Q :=
  let well_depth := 11.43%Q in
  let well_volume := 112%Q in
  let EXTRA_Z_OFFSET := 0.8%Q in
  let volume_conversion_factor := (well_depth / well_volume)%Q in
  let warned := Qltb 100 (current_volume + volume_to_add) in
  let height :=
    ((current_volume + volume_to_add) * volume_conversion_factor + EXTRA_Z_OFFSET)%Q in
  (warned, if Qltb height 1 then 1.0%Q else height).

(** The total volume from which the dispense height reaches the top of a
    well 11.43 mm deep. *)
Definition overfull_volume : Q := ((11.43 - 0.8) * 112 / 11.43)%Q.

(** Every entry of [all_volumes] gets a fresh dictionary with 0 for each
    well of its plate. *)
Definition reset_well_volumes : M unit :=
  w ← get_world ;
  put_volumes ((fun val => (val.1, zero_volumes val.1)) <$> all_volumes w).

(** The volumes of the dispense commands of a list of commands, in the
    order issued. *)
Definition dispensed (t : list Command) : list Q :=
  omap (fun c => match c with Dispense _ v _ _ => Some v | _ => None end) t.

(** The offset directions that [offset_dispense] knows. *)
Definition known_direction (offset_direction : string) : Prop :=
  offset_direction ∈ ["center"; "right"; "left"; "top"; "bottom"].

(** ** Invariants of computations *)

(** Every run of [m] relates the world before it to the world after it by
    [R], whether it returns, raises or runs out of fuel. *)
Definition preserves {A} (R : World -> World -> Prop) (m : M A) : Prop :=
  forall w, R w (m w).2.

(** The ledger has the same plates, with the same labware and the same
    tracked wells. *)
Definition same_shape (w w' : World) : Prop := forall p, shape w' p = shape w p.

(** Only volumes of the ledger changed: the shape, the trace and the
    printed lines are the same. *)
Definition only_volumes (w w' : World) : Prop :=
  same_shape w w' /\ trace w' = trace w /\ stdout w' = stdout w.

(** Only volumes on the plates [plates] changed. *)
Definition only_volumes_on (plates : list string) (w w' : World) : Prop :=
  only_volumes w w'
  /\ forall p, p ∉ plates -> all_volumes w' !! p = all_volumes w !! p.

(** What a sequence of transfers adds to the volume of a well. *)
Fixpoint well_change (plate well : string) (l : list (Q * Well * Well)) : Q :=
  match l with
  | [] => 0
  | t :: l' =>
      (at_well t.2 t.1.1 plate well - at_well t.1.2 t.1.1 plate well
       + well_change plate well l')%Q
  end.

(** A transfer between two wells that the ledger tracks, neither of them
    on the trash. *)
Definition between_tracked_wells (w : World) (t : Q * Well * Well) : Prop :=
  registered w t.1.2 /\ registered w t.2
  /\ is_trash t.1.2 = false /\ is_trash t.2 = false.

(** The transfer that takes the same volume back. *)
Definition opposite (t : Q * Well * Well) : Q * Well * Well := (t.1.1, t.2, t.1.2).

(** The commands with which [custom_transfer] begins: the tip, if the
    pipette has none, and the prewetting of the tip. *)
Definition preparation {driver : Driver} (pipette : Pipette) (source : Location)
    (source_blowout_height : Q) (prewet_tip do_blowout : bool) (t : list Command)
  : list Command :=
  (if has_tip pipette t then [] else [PickUpTip pipette])
  ++ (if prewet_tip
      then [Aspirate pipette (max_volume pipette) (Some (ALocation source)) None;
            Dispense pipette (max_volume pipette) (Some (ALocation source)) None]
           ++ (if do_blowout
               then [BlowOut pipette (Some (bottom (as_well source) source_blowout_height))]
               else [])
           ++ [TouchTip pipette None]
      else []).

(** [source.bottom(z=1)] for a well, the location itself otherwise. *)
Definition source_location (source : Target) : Location :=
  match source with AWell w => bottom w 1 | ALocation l => l end.

(** The transfer volume is within the range of the pipette. *)
Definition volume_in_range (pipette : Pipette) (transfer_volume : Q) : Prop :=
  (transfer_volume <= max_volume pipette)%Q /\ (min_volume pipette <= transfer_volume)%Q.

(** * Theorems *)

(** ** Numbers *)

Lemma Qltb_lt (x y : Q) : Qltb x y = true <-> (x < y)%Q.
Proof.
  unfold Qltb. rewrite negb_true_iff. split.
  - intros H. apply Qnot_le_lt. intros Hle.
    apply Qle_bool_iff in Hle. congruence.
  - intros H. destruct (Qle_bool y x) eqn:E; [|reflexivity].
    apply Qle_bool_iff in E. exfalso. apply (Qlt_not_le _ _ H E).
Qed.

Lemma Qltb_nlt (x y : Q) : Qltb x y = false <-> ~ (x < y)%Q.
Proof.
  rewrite <- Qltb_lt. destruct (Qltb x y); split; congruence.
Qed.


(** ** The monad *)

Lemma bind_ok {A B} (m : M A) (f : A -> M B) w a w' :
  m w = (Ok a, w') -> (m ≫= f) w = f a w'.
Proof. intros E. unfold mbind, M_bind. rewrite E. reflexivity. Qed.

Lemma bind_raise {A B} (m : M A) (f : A -> M B) w e w' :
  m w = (Raise e, w') -> (m ≫= f) w = (Raise e, w').
Proof. intros E. unfold mbind, M_bind. rewrite E. reflexivity. Qed.

Lemma bind_out_of_fuel {A B} (m : M A) (f : A -> M B) w w' :
  m w = (OutOfFuel, w') -> (m ≫= f) w = (OutOfFuel, w').
Proof. intros E. unfold mbind, M_bind. rewrite E. reflexivity. Qed.

Lemma extend_nil w : extend w [] = w.
Proof. destruct w. unfold extend. simpl. rewrite app_nil_r. reflexivity. Qed.

Lemma extend_extend w cs1 cs2 : extend (extend w cs1) cs2 = extend w (cs1 ++ cs2).
Proof. unfold extend. simpl. rewrite app_assoc. reflexivity. Qed.

Lemma cmd_extend c w : cmd c w = (Ok tt, extend w [c]).
Proof. reflexivity. Qed.

Lemma robot_only_ret {A} P (a : A) : robot_only P (mret a).
Proof. intros w. exists a, []. rewrite extend_nil. split; [reflexivity | constructor]. Qed.

Lemma robot_only_cmd (P : Command -> Prop) c : P c -> robot_only P (cmd c).
Proof. intros H w. exists tt, [c]. split; [reflexivity | repeat constructor; exact H]. Qed.

Lemma robot_only_bind {A B} P (m : M A) (f : A -> M B) :
  robot_only P m -> (forall a, robot_only P (f a)) -> robot_only P (m ≫= f).
Proof.
  intros Hm Hf w. destruct (Hm w) as (a & cs & E & Hcs).
  destruct (Hf a (extend w cs)) as (b & cs' & E' & Hcs').
  exists b, (cs ++ cs'). rewrite (bind_ok _ _ _ _ _ E), E', extend_extend.
  split; [reflexivity | apply Forall_app; split; assumption].
Qed.

Lemma robot_only_for_range_from P (body : nat -> M unit) count :
  (forall i, robot_only P (body i)) ->
  forall first (last : option nat), robot_only P (for_range_from first count last body).
Proof.
  intros Hbody. induction count as [|count IH]; intros first last; simpl.
  - apply robot_only_ret.
  - apply robot_only_bind; [apply Hbody | intros _; apply IH].
Qed.

Lemma robot_only_weaken {A} (P R : Command -> Prop) (m : M A) :
  (forall c, P c -> R c) -> robot_only P m -> robot_only R m.
Proof.
  intros HPR Hm w. destruct (Hm w) as (a & cs & E & Hcs).
  exists a, cs. split; [exact E | eapply Forall_impl; eauto].
Qed.

(** ** get_well_edge_offset *)

Lemma tip_dict_unknown (n : string) :
  n <> "p20_single_gen2" -> n <> "p300_multi_gen2" -> tip_dict !! n = None.
Proof.
  intros H1 H2. unfold tip_dict.
  rewrite lookup_insert_ne by congruence.
  apply lookup_singleton_ne. congruence.
Qed.

Lemma tip_dict_known (n : string) (profile : Q * Q) :
  tip_dict !! n = Some profile ->
  (n = "p20_single_gen2" /\ profile = (0.90, 0.083)%Q)
  \/ (n = "p300_multi_gen2" /\ profile = (1.07, 0.093)%Q).
Proof.
  unfold tip_dict. intros H.
  destruct (decide (n = "p20_single_gen2")) as [->|N1].
  - rewrite lookup_insert_eq in H. left. split; congruence.
  - rewrite lookup_insert_ne in H by congruence.
    destruct (decide (n = "p300_multi_gen2")) as [->|N2].
    + rewrite lookup_singleton_eq in H. right. split; congruence.
    + rewrite lookup_singleton_ne in H by congruence. discriminate.
Qed.

(** The height assertion comes first, whatever the pipette. *)
Lemma get_well_edge_offset_too_high pipette well h w :
  ~ (h < depth well)%Q ->
  get_well_edge_offset pipette well h w = (Raise (AssertionError TipAboveWellTop), w).
Proof.
  intros Hh. unfold get_well_edge_offset.
  assert (E : Qltb 0 (depth well - h) = false).
  { apply Qltb_nlt. intros H. apply Hh. lra. }
  apply bind_raise. unfold assert_. rewrite E. reflexivity.
Qed.

Lemma get_well_edge_offset_assert_passes well h w :
  (h < depth well)%Q ->
  assert_ (Qltb 0 (depth well - h)) TipAboveWellTop w = (Ok tt, w).
Proof.
  intros Hh. unfold assert_.
  assert (E : Qltb 0 (depth well - h) = true) by (apply Qltb_lt; lra).
  rewrite E. reflexivity.
Qed.

(** C7: the computation fails with the height assertion unless
    [height_above_bottom < well.depth]; when that holds and the pipette has
    a tip profile (base diameter, taper slope) it returns
    [(width - (base + (depth - height) * taper)) / 2 + 0.2]; for the p20
    profile, a well 3.6 wide and 11.43 deep and height 2, this is
    [(3.6 - (0.9 + (11.43 - 2) * 0.083)) / 2 + 0.2]. *)
Theorem get_well_edge_offset_correct pipette well h w :
  (~ (h < depth well)%Q ->
   get_well_edge_offset pipette well h w = (Raise (AssertionError TipAboveWellTop), w))
  /\ (forall base taper,
        tip_dict !! name pipette = Some (base, taper) ->
        (h < depth well)%Q ->
        get_well_edge_offset pipette well h w
        = (Ok ((width well - (base + (depth well - h) * taper)) / 2 + 0.2)%Q, w))
  /\ (forall plate well_id, exists x,
        get_well_edge_offset p20
          {| parent := plate; well_name := well_id; depth := 11.43; width := 3.6 |} 2 w
        = (Ok x, w)
        /\ (x == (3.6 - (0.9 + (11.43 - 2) * 0.083)) / 2 + 0.2)%Q).
Proof.
  split; [apply get_well_edge_offset_too_high|]. split.
  - intros base taper Hp Hh. unfold get_well_edge_offset.
    rewrite (bind_ok _ _ _ _ _ (get_well_edge_offset_assert_passes well h w Hh)).
    rewrite Hp. reflexivity.
  - intros plate well_id. eexists. split; reflexivity.
Qed.

Lemma get_well_edge_offset_correct_witness :
  get_well_edge_offset p20 (plate_well (display assay_plate) 11.43 3.6 0 0) 2 start
  = (Ok ((3.6 - (0.90 + (11.43 - 2) * 0.083)) / 2 + 0.2)%Q, start)
  /\ get_well_edge_offset p20 (plate_well (display assay_plate) 11.43 3.6 0 0) 12 start
     = (Raise (AssertionError TipAboveWellTop), start).
Proof.
  split.
  - apply (proj1 (proj2 (get_well_edge_offset_correct p20
             (plate_well (display assay_plate) 11.43 3.6 0 0) 2 start)) 0.90%Q 0.083%Q).
    + reflexivity.
    + reflexivity.
  - apply (proj1 (get_well_edge_offset_correct p20
             (plate_well (display assay_plate) 11.43 3.6 0 0) 12 start)).
    intros H. vm_compute in H. discriminate H.
Defined.

(** The value of the offset in the example of C7, as a fraction. *)
Example get_well_edge_offset_value :
  ((3.6 - (0.9 + (11.43 - 2) * 0.083)) / 2 + 0.2 == 231731 # 200000)%Q.
Proof. reflexivity. Qed.

(** C10 as stated fails when the height is not below the well depth: for a
    pipette without a profile the height assertion is raised before the
    profile is looked up, and nothing is printed. *)
Lemma get_well_edge_offset_unknown_pipette_counterexample :
  tip_dict !! name p1000 = None
  /\ get_well_edge_offset p1000 (plate_well (display assay_plate) 11.43 3.6 0 0) 12 start
     = (Raise (AssertionError TipAboveWellTop), start)
  /\ (get_well_edge_offset p1000 (plate_well (display assay_plate) 11.43 3.6 0 0) 12 start).1
     <> Raise (UnboundLocalError "PIPETTE_TIP_WIDTH").
Proof.
  split; [reflexivity|]. split; [reflexivity|]. discriminate.
Qed.

(** C10, amended: for a pipette whose model is neither of the two profiled
    ones the computation never returns a value and never raises a
    [KeyError]; when the height is below the well depth the failed lookup
    is caught, one line is printed and the use of the unassigned tip width
    raises [UnboundLocalError]; otherwise the height assertion fails first
    and nothing is printed. *)
Theorem get_well_edge_offset_unknown_pipette pipette well h w :
  name pipette <> "p20_single_gen2" ->
  name pipette <> "p300_multi_gen2" ->
  (forall x w', get_well_edge_offset pipette well h w <> (Ok x, w'))
  /\ (forall k w', get_well_edge_offset pipette well h w <> (Raise (KeyError k), w'))
  /\ ((h < depth well)%Q ->
      get_well_edge_offset pipette well h w
      = (Raise (UnboundLocalError "PIPETTE_TIP_WIDTH"),
         {| all_volumes := all_volumes w; trace := trace w;
            stdout := stdout w ++ [("No tip width defined for the " ++ name pipette)%string] |}))
  /\ (~ (h < depth well)%Q ->
      get_well_edge_offset pipette well h w
      = (Raise (AssertionError TipAboveWellTop), w)).
Proof.
  intros N1 N2.
  assert (Hlow : (h < depth well)%Q ->
      get_well_edge_offset pipette well h w
      = (Raise (UnboundLocalError "PIPETTE_TIP_WIDTH"),
         {| all_volumes := all_volumes w; trace := trace w;
            stdout := stdout w ++ [("No tip width defined for the " ++ name pipette)%string] |})).
  { intros Hh. unfold get_well_edge_offset.
    rewrite (bind_ok _ _ _ _ _ (get_well_edge_offset_assert_passes well h w Hh)).
    rewrite (tip_dict_unknown _ N1 N2). reflexivity. }
  assert (Hhigh := get_well_edge_offset_too_high pipette well h w).
  destruct (Qlt_le_dec h (depth well)) as [Hh|Hh].
  - rewrite (Hlow Hh). repeat split; try discriminate; try (intros; assumption || reflexivity).
    intros Hn. contradiction.
  - assert (Hn : ~ (h < depth well)%Q) by (intros H; apply (Qlt_not_le _ _ H Hh)).
    rewrite (Hhigh Hn). repeat split; try discriminate; try reflexivity.
    intros H. contradiction.
Qed.

Lemma get_well_edge_offset_unknown_pipette_witness :
  get_well_edge_offset p1000 (plate_well (display assay_plate) 11.43 3.6 0 0) 2 start
  = (Raise (UnboundLocalError "PIPETTE_TIP_WIDTH"),
     {| all_volumes := all_volumes start; trace := [];
        stdout := ["No tip width defined for the p1000_single_gen2"] |}).
Proof.
  apply (proj1 (proj2 (proj2 (get_well_edge_offset_unknown_pipette p1000
           (plate_well (display assay_plate) 11.43 3.6 0 0) 2 start
           ltac:(discriminate) ltac:(discriminate))))).
  reflexivity.
Defined.

(** ** offset_dispense *)

Ltac run_commands :=
  unfold extend, mbind, M_bind, mret, M_ret, cmd; cbn;
  repeat rewrite <- app_assoc; reflexivity.

(** A successful offset dispense issues the approach and the dispense,
    then the blow-out moves if asked for, then the touch if asked for. *)
Lemma offset_dispense_commands pipette well transfer_volume offset_direction
    custom_offset_distance dispense_height do_blowout dest_blowout_height do_touch_tip
    dispense_rate inspect_tips w d x y :
  offset_distance_for pipette well custom_offset_distance dispense_height w = (Ok d, w) ->
  xy_offsets offset_direction d w = (Ok (x, y), w) ->
  offset_dispense pipette (AWell well) transfer_volume offset_direction
    custom_offset_distance dispense_height do_blowout dest_blowout_height do_touch_tip
    dispense_rate inspect_tips w
  = (Ok tt,
     extend w
       (dispense_moves pipette well transfer_volume x y dispense_height dispense_rate
          inspect_tips
        ++ (if do_blowout
            then blow_out_moves pipette well x y dispense_height dest_blowout_height
            else [])
        ++ (if do_touch_tip then [TouchTip pipette (Some 20%Q)] else []))).
Proof.
  intros Hd Hxy. unfold offset_dispense.
  rewrite (bind_ok (mret well) _ w well w) by reflexivity.
  rewrite (bind_ok _ _ _ _ _ Hd), (bind_ok _ _ _ _ _ Hxy).
  unfold dispense_moves, blow_out_moves.
  destruct inspect_tips, do_blowout, do_touch_tip; cbn [app]; run_commands.
Qed.

(** C8 at an input where it fails: a dispense of 20 ul at height 2 on the
    left edge of well A1 of the assay plate, with the blow-out enabled at
    height 8.  The move that precedes the blow-out goes to the left edge at
    the dispense height 2, not at the blow-out height 8. *)
Theorem offset_dispense_blow_out_at_dispense_height :
  let well := plate_well (display assay_plate) 11.43 3.6 0 0 in
  exists x,
    (x == - ((3.6 - (0.9 + (11.43 - 2) * 0.083)) / 2 + 0.2))%Q
    /\ offset_dispense p20 (AWell well) 20 "left" None 2 true 8 false 1 false start
       = (Ok tt,
          extend start
            [MoveTo p20 (bottom well 2) false;
             MoveTo p20 (move (bottom well 2) {| px := x; py := 0; pz := 0 |}) true;
             Dispense p20 20 None (Some 1%Q);
             MoveTo p20 (bottom well 2) true;
             MoveTo p20 (bottom well 8) false;
             MoveTo p20 (move (bottom well 2) {| px := x; py := 0; pz := 0 |}) true;
             BlowOut p20 None;
             MoveTo p20 (bottom well 8) true])
    /\ (pz (offset (move (bottom well 2) {| px := x; py := 0; pz := 0 |})) == 2)%Q
    /\ ~ (pz (offset (move (bottom well 2) {| px := x; py := 0; pz := 0 |})) == 8)%Q.
Proof.
  intros well. eexists. split; [|split; [|split]].
  2: { apply (offset_dispense_commands p20 well 20 "left" None 2 true 8 false 1 false
                start _ _ _ eq_refl eq_refl). }
  - reflexivity.
  - reflexivity.
  - intros H. vm_compute in H. discriminate H.
Qed.

(** In general: whenever an offset dispense with the blow-out enabled
    succeeds, the blow-out is preceded by a move to the lateral offset at
    the dispense height. *)
Lemma offset_dispense_blow_out_position pipette well transfer_volume offset_direction
    custom_offset_distance dispense_height dest_blowout_height do_touch_tip
    dispense_rate inspect_tips w d x y :
  offset_distance_for pipette well custom_offset_distance dispense_height w = (Ok d, w) ->
  xy_offsets offset_direction d w = (Ok (x, y), w) ->
  exists before after,
    offset_dispense pipette (AWell well) transfer_volume offset_direction
      custom_offset_distance dispense_height true dest_blowout_height do_touch_tip
      dispense_rate inspect_tips w
    = (Ok tt,
       extend w
         (before
          ++ [MoveTo pipette
                (move (bottom well dispense_height) {| px := x; py := y; pz := 0 |}) true;
              BlowOut pipette None]
          ++ after)).
Proof.
  intros Hd Hxy.
  exists (dispense_moves pipette well transfer_volume x y dispense_height dispense_rate
            inspect_tips ++ [MoveTo pipette (bottom well dest_blowout_height) false]).
  exists ([MoveTo pipette (bottom well dest_blowout_height) true]
          ++ (if do_touch_tip then [TouchTip pipette (Some 20%Q)] else [])).
  rewrite (offset_dispense_commands _ _ _ _ _ _ _ _ _ _ _ _ _ _ _ Hd Hxy).
  unfold blow_out_moves. repeat rewrite <- app_assoc. reflexivity.
Qed.

(** ** serial_dilution on a single well *)

Section SerialDilutionSingle.
Context {driver : Driver}.
Variable trash : Well.

Lemma pick_up_tip_if_needed_robot_only pipette :
  robot_only no_disposal (pick_up_tip_if_needed pipette).
Proof.
  intros w. unfold pick_up_tip_if_needed.
  rewrite (bind_ok get_world _ w w w) by reflexivity.
  destruct (has_tip pipette (trace w)).
  - apply robot_only_ret.
  - apply robot_only_cmd. exact I.
Qed.

Lemma list_get_ok {A} (l : list A) i x w : l !! i = Some x -> list_get l i w = (Ok x, w).
Proof. intros E. unfold list_get. rewrite E. reflexivity. Qed.

Lemma robot_only_list_get {A B} P (l : list A) i x (f : A -> M B) :
  l !! i = Some x -> robot_only P (f x) -> robot_only P (list_get l i ≫= f).
Proof.
  intros E Hf w. rewrite (bind_ok _ _ _ _ _ (list_get_ok l i x w E)). apply Hf.
Qed.

Lemma mix_cycles_robot_only pipette mix_volume wells k x mix_steps dispense_height rate :
  wells !! k = Some x ->
  robot_only no_disposal
    (mix_cycles pipette mix_volume wells k mix_steps dispense_height rate).
Proof.
  intros E. unfold mix_cycles, for_range. apply robot_only_for_range_from. intros j.
  apply (robot_only_list_get _ _ _ x _ E).
  apply robot_only_bind; [apply robot_only_cmd; exact I | intros _].
  apply (robot_only_list_get _ _ _ x _ E).
  apply robot_only_bind; [apply robot_only_cmd; exact I | intros _].
  apply robot_only_cmd. exact I.
Qed.

Lemma blow_out_and_touch_robot_only pipette wells k x blowout_height do_blowout :
  wells !! k = Some x ->
  robot_only no_disposal (blow_out_and_touch pipette wells k blowout_height do_blowout).
Proof.
  intros E. unfold blow_out_and_touch.
  apply robot_only_bind; [|intros _; apply robot_only_cmd; exact I].
  destruct do_blowout; [|apply robot_only_ret].
  apply (robot_only_list_get _ _ _ x _ E). apply robot_only_cmd. exact I.
Qed.

Lemma mix_first_robot_only pipette mix_volume wells x mix_steps dispense_height
    blowout_height mix_before do_blowout :
  wells !! 0 = Some x ->
  robot_only no_disposal
    (mix_first pipette mix_volume wells mix_steps dispense_height blowout_height
       mix_before do_blowout).
Proof.
  intros E. unfold mix_first. destruct mix_before; [|apply robot_only_ret].
  apply robot_only_bind.
  - apply (mix_cycles_robot_only _ _ _ _ x); exact E.
  - intros _. apply (blow_out_and_touch_robot_only _ _ _ x); exact E.
Qed.

(** C9 on the code: a serial dilution over a single well stops with
    [UnboundLocalError] on the loop variable [i], which the empty loop never
    assigned.  The ledger is as before, and among the commands issued up to
    then there is neither the trailing aspirate nor a tip drop. *)
Theorem serial_dilution_single_well pipette transfer_volume mix_volume x mix_steps
    dispense_height blowout_height mix_before do_blowout always_get_new_tip w :
  exists cs,
    serial_dilution trash pipette transfer_volume mix_volume [x] mix_steps dispense_height
      blowout_height mix_before do_blowout always_get_new_tip w
    = (Raise (UnboundLocalError "i"), extend w cs)
    /\ Forall no_disposal cs
    /\ all_volumes (extend w cs) = all_volumes w.
Proof.
  unfold serial_dilution.
  destruct (pick_up_tip_if_needed_robot_only pipette w) as (u1 & cs1 & E1 & F1).
  rewrite (bind_ok _ _ _ _ _ E1).
  destruct (mix_first_robot_only pipette mix_volume [x] x mix_steps dispense_height
              blowout_height mix_before do_blowout eq_refl (extend w cs1))
    as (u2 & cs2 & E2 & F2).
  rewrite (bind_ok _ _ _ _ _ E2), extend_extend.
  exists (cs1 ++ cs2). split; [reflexivity|]. split; [|reflexivity].
  apply Forall_app. split; assumption.
Qed.

End SerialDilutionSingle.

(** The same on the simulated deck, without the mixing before: a tip is
    picked up and nothing else happens. *)
Example single_well_run :
  serial_dilution (driver := simulated) fixed_trash p20 20 20
    [plate_well (display assay_plate) 11.43 3.6 1 0] 5 4 4 false false false start
  = (Raise (UnboundLocalError "i"), extend start [PickUpTip p20]).
Proof. reflexivity. Qed.

(** ** The ledger *)

Lemma set_volumes_id w : set_volumes w (all_volumes w) = w.
Proof. destruct w. reflexivity. Qed.

Lemma dict_get_ok {V} (d : gmap string V) key v w :
  d !! key = Some v -> dict_get d key w = (Ok v, w).
Proof. intros E. unfold dict_get. rewrite E. reflexivity. Qed.

Lemma dict_get_missing {V} (d : gmap string V) key w :
  d !! key = None -> dict_get d key w = (Raise (KeyError key), w).
Proof. intros E. unfold dict_get. rewrite E. reflexivity. Qed.

Lemma insert_as_alter (f : Q -> Q) (vols : gmap string Q) n v :
  vols !! n = Some v -> <[n := f v]> vols = alter f n vols.
Proof.
  intros E. apply map_eq. intros j. rewrite lookup_insert, lookup_alter.
  destruct (decide (n = j)) as [->|]; [rewrite E|]; reflexivity.
Qed.

Lemma update_volume_ok f plate well w lw vols :
  all_volumes w !! plate = Some (lw, vols) ->
  is_Some (vols !! well) ->
  update_volume f plate well w
  = (Ok tt, set_volumes w (<[plate := (lw, alter f well vols)]> (all_volumes w))).
Proof.
  intros Ep [v Ev]. unfold update_volume.
  rewrite (bind_ok get_world _ w w w) by reflexivity.
  rewrite (bind_ok _ _ _ _ _ (dict_get_ok _ _ _ w Ep)). cbn [fst snd].
  rewrite (bind_ok _ _ _ _ _ (dict_get_ok _ _ _ w Ev)).
  rewrite (insert_as_alter f vols well v Ev). reflexivity.
Qed.

(** Altering the volumes of the wells of a list, one after the other. *)
Lemma for_each_update f plate (l : list Well) :
  forall w lw vols,
    all_volumes w !! plate = Some (lw, vols) ->
    Forall (fun x => is_Some (vols !! well_name x)) l ->
    for_each l (fun s => update_volume f plate (well_name s)) w
    = (Ok tt,
       set_volumes w
         (<[plate := (lw, foldl (fun m s => alter f (well_name s) m) vols l)]>
            (all_volumes w))).
Proof.
  induction l as [|x l IH]; intros w lw vols Ep Hl; cbn [for_each foldl].
  - rewrite (insert_id _ _ _ Ep), set_volumes_id. reflexivity.
  - inversion Hl as [|? ? Hx Hl']; subst.
    rewrite (bind_ok _ _ _ _ _ (update_volume_ok f plate _ w lw vols Ep Hx)).
    rewrite (IH _ lw (alter f (well_name x) vols)).
    + unfold set_volumes. cbn [all_volumes trace stdout].
      rewrite insert_insert_eq. reflexivity.
    + cbn [set_volumes all_volumes]. apply lookup_insert_eq.
    + eapply Forall_impl; [exact Hl'|]. intros y [v Hy]. cbn beta in *.
      rewrite lookup_alter. destruct (decide (well_name x = well_name y)) as [E|_].
      * rewrite E, Hy. eexists; reflexivity.
      * rewrite Hy. eexists; reflexivity.
Qed.

Lemma foldl_alter_lookup (f : Q -> Q) (l : list Well) n :
  forall vols : gmap string Q,
    foldl (fun m s => alter f (well_name s) m) vols l !! n
    = Nat.iter (length (filter (fun x => well_name x = n) l)) f <$> vols !! n.
Proof.
  induction l as [|x l IH]; intros vols; cbn [foldl].
  - cbn. destruct (vols !! n); reflexivity.
  - rewrite IH, filter_cons, lookup_alter.
    destruct (decide (well_name x = n)) as [->|Hne].
    + cbn [length].
      destruct (vols !! n) as [v|]; cbn; [|reflexivity].
      f_equal. symmetry. apply Nat.iter_succ_r.
    + reflexivity.
Qed.

Lemma foldl_alter_dom (f : Q -> Q) (l : list Well) :
  forall vols : gmap string Q,
    dom (foldl (fun m s => alter f (well_name s) m) vols l) = dom vols.
Proof.
  induction l as [|x l IH]; intros vols; cbn [foldl]; [reflexivity|].
  rewrite IH. apply dom_alter_L.
Qed.

Lemma hits_nil_untracked (vols : gmap string Q) (l : list Well) n :
  Forall (fun x => is_Some (vols !! well_name x)) l ->
  vols !! n = None ->
  hits n l = 0%Z.
Proof.
  intros Hl En. unfold hits. induction Hl as [|x l [v Hx] Hl IH]; [reflexivity|].
  rewrite filter_cons. destruct (decide (well_name x = n)) as [E|_]; [|exact IH].
  congruence.
Qed.

Lemma iter_shift (f : Q -> Q) (d v : Q) k :
  (forall v, f v == v + d)%Q ->
  (Nat.iter k f v == v + inject_Z (Z.of_nat k) * d)%Q.
Proof.
  intros Hf. induction k as [|k IH].
  - cbn. ring.
  - rewrite Nat.iter_succ, Hf, IH.
    rewrite Nat2Z.inj_succ. unfold Z.succ. rewrite inject_Z_plus. ring.
Qed.

Lemma sum_volumes_alter (f : Q -> Q) (vols : gmap string Q) n v :
  vols !! n = Some v ->
  (sum_volumes (alter f n vols) == sum_volumes vols - v + f v)%Q.
Proof.
  intros E. unfold sum_volumes.
  assert (Hcomm : forall z1 z2 y : Q, (z1 + (z2 + y) == z2 + (z1 + y))%Q)
    by (intros; ring).
  assert (Hprop : forall (j : string) (z : Q),
            Proper (Qeq ==> Qeq) (fun acc => (z + acc)%Q)).
  { intros j z a b Hab. rewrite Hab. reflexivity. }
  rewrite (map_fold_delete Qeq (fun _ v acc => (v + acc)%Q) 0%Q n v vols);
    [|exact Hprop|intros; apply Hcomm|exact E].
  rewrite <- (insert_as_alter f vols n v E), <- insert_delete_eq.
  rewrite (map_fold_insert Qeq (fun _ v acc => (v + acc)%Q) 0%Q n (f v) (delete n vols));
    [|exact Hprop|intros; apply Hcomm|apply lookup_delete_eq].
  ring.
Qed.

Lemma sum_volumes_foldl_alter (f : Q -> Q) (d : Q) (l : list Well) :
  (forall v, f v == v + d)%Q ->
  forall vols : gmap string Q,
    Forall (fun x => is_Some (vols !! well_name x)) l ->
    (sum_volumes (foldl (fun m s => alter f (well_name s) m) vols l)
     == sum_volumes vols + inject_Z (Z.of_nat (length l)) * d)%Q.
Proof.
  intros Hf. induction l as [|x l IH]; intros vols Hl; cbn [foldl length].
  - cbn. ring.
  - inversion Hl as [|? ? [v Hx] Hl']; subst.
    rewrite IH.
    + rewrite (sum_volumes_alter f vols _ v Hx), Hf.
      rewrite Nat2Z.inj_succ. unfold Z.succ. rewrite inject_Z_plus. ring.
    + eapply Forall_impl; [exact Hl'|]. intros y [u Hy]. cbn beta in *.
      rewrite lookup_alter. destruct (decide (well_name x = well_name y)) as [E|_].
      * rewrite E, Hy. eexists; reflexivity.
      * rewrite Hy. eexists; reflexivity.
Qed.

(** The effect on the ledger of shifting the volume of every well of a list
    by [d]. *)
Lemma bulk_update_moved (f : Q -> Q) (d : Q) plate (l : list Well) w lw vols :
  (forall v, f v == v + d)%Q ->
  all_volumes w !! plate = Some (lw, vols) ->
  Forall (fun x => is_Some (vols !! well_name x)) l ->
  ledger_moved w
    (set_volumes w
       (<[plate := (lw, foldl (fun m s => alter f (well_name s) m) vols l)]>
          (all_volumes w)))
    (fun p n => if decide (p = plate) then inject_Z (hits n l) * d else 0)%Q
    (fun p => if decide (p = plate) then inject_Z (Z.of_nat (length l)) * d else 0)%Q.
Proof.
  intros Hf Ep Hl. unfold ledger_moved. split; [|split].
  - intros p. unfold shape, set_volumes. cbn [all_volumes]. rewrite lookup_insert.
    destruct (decide (plate = p)) as [<-|_]; [|reflexivity].
    rewrite Ep. cbn. rewrite foldl_alter_dom. reflexivity.
  - intros p n. unfold vol, volume_of, set_volumes. cbn [all_volumes].
    rewrite lookup_insert.
    destruct (decide (p = plate)) as [->|Hne].
    + rewrite decide_True by reflexivity. rewrite Ep. cbn.
      rewrite foldl_alter_lookup. destruct (vols !! n) as [v|] eqn:En; cbn.
      * apply iter_shift. exact Hf.
      * rewrite (hits_nil_untracked vols l n Hl En). ring.
    + rewrite decide_False by congruence. ring.
  - intros p. unfold plate_total, set_volumes. cbn [all_volumes].
    rewrite lookup_insert.
    destruct (decide (p = plate)) as [->|Hne].
    + rewrite decide_True by reflexivity. rewrite Ep. cbn [snd].
      apply sum_volumes_foldl_alter; assumption.
    + rewrite decide_False by congruence. ring.
Qed.

Lemma ledger_moved_refl w : ledger_moved w w (fun _ _ => 0%Q) (fun _ => 0%Q).
Proof.
  unfold ledger_moved. repeat split; intros; ring.
Qed.

Lemma ledger_moved_trans w1 w2 w3 d1 t1 d2 t2 :
  ledger_moved w1 w2 d1 t1 ->
  ledger_moved w2 w3 d2 t2 ->
  ledger_moved w1 w3 (fun p n => d1 p n + d2 p n)%Q (fun p => t1 p + t2 p)%Q.
Proof.
  intros (Hs1 & Hv1 & Hp1) (Hs2 & Hv2 & Hp2).
  unfold ledger_moved. split; [intros p; rewrite Hs2; apply Hs1|]. split.
  - intros p n. rewrite Hv2, Hv1. ring.
  - intros p. rewrite Hp2, Hp1. ring.
Qed.

Lemma ledger_moved_ext w w' d t d' t' :
  ledger_moved w w' d t ->
  (forall p n, d p n == d' p n)%Q ->
  (forall p, t p == t' p)%Q ->
  ledger_moved w w' d' t'.
Proof.
  intros (Hs & Hv & Hp) Hd Htt. unfold ledger_moved.
  repeat split; try assumption.
  - intros p n. rewrite <- Hd. apply Hv.
  - intros p. rewrite <- Htt. apply Hp.
Qed.

Lemma tracked_on_shape w w' plate l :
  shape w' plate = shape w plate -> tracked_on w plate l -> tracked_on w' plate l.
Proof.
  unfold shape, tracked_on. intros Hs (lw & vols & Ep & Hl). rewrite Ep in Hs.
  destruct (all_volumes w' !! plate) as [[lw' vols']|]; [|discriminate].
  cbn in Hs. injection Hs as -> Hdom.
  exists lw, vols'. split; [reflexivity|].
  eapply Forall_impl; [exact Hl|]. intros x Hx. cbn beta in *.
  apply elem_of_dom. rewrite Hdom. apply elem_of_dom. exact Hx.
Qed.

Lemma tracked_on_moved w w' d t plate l :
  ledger_moved w w' d t -> tracked_on w plate l -> tracked_on w' plate l.
Proof. intros (Hs & _). apply tracked_on_shape, Hs. Qed.

(** The effect of the two loops at the end of [adjust_well_volume] once
    both well lists are assigned and all their wells are tracked. *)
Lemma apply_well_lists_moved transfer_volume src dst not_trash um swl dfan dm dwl w :
  tracked_on w (parent src) swl ->
  (not_trash = true -> dfan = Some (dm, dwl) /\ tracked_on w (parent dst) dwl) ->
  exists w',
    apply_well_lists transfer_volume src dst not_trash (Some (um, swl)) dfan w = (Ok tt, w')
    /\ ledger_moved w w'
         (fun p n =>
            (if decide (p = parent src)
             then - (inject_Z (hits n swl) * (transfer_volume * inject_Z um)) else 0)
            + (if not_trash
               then if decide (p = parent dst)
                    then inject_Z (hits n dwl) * (transfer_volume * inject_Z dm) else 0
               else 0))%Q
         (fun p =>
            (if decide (p = parent src)
             then - (inject_Z (Z.of_nat (length swl)) * (transfer_volume * inject_Z um))
             else 0)
            + (if not_trash
               then if decide (p = parent dst)
                    then inject_Z (Z.of_nat (length dwl)) * (transfer_volume * inject_Z dm)
                    else 0
               else 0))%Q.
Proof.
  intros (sl & sv & Es & Hs) Hdst. unfold apply_well_lists.
  rewrite (bind_ok _ _ w (um, swl) w) by reflexivity. cbv beta iota.
  unfold sub_volume.
  rewrite (bind_ok _ _ _ _ _ (for_each_update _ _ swl w sl sv Es Hs)).
  pose proof (bulk_update_moved (fun v => v - transfer_volume * inject_Z um)%Q
                (- (transfer_volume * inject_Z um))%Q (parent src) swl w sl sv
                ltac:(intros; cbv beta; ring) Es Hs) as Hm1.
  set (w1 := set_volumes w _) in *.
  destruct not_trash.
  - destruct (Hdst eq_refl) as (-> & Hd).
    apply (tracked_on_moved _ _ _ _ _ _ Hm1) in Hd. destruct Hd as (dl & dv & Ed & Hd).
    rewrite (bind_ok _ _ w1 (dm, dwl) w1) by reflexivity. cbv beta iota.
    unfold add_volume.
    rewrite (for_each_update _ _ dwl w1 dl dv Ed Hd).
    eexists. split; [reflexivity|].
    pose proof (bulk_update_moved (fun v => v + transfer_volume * inject_Z dm)%Q
                  (transfer_volume * inject_Z dm)%Q (parent dst) dwl w1 dl dv
                  ltac:(intros; cbv beta; ring) Ed Hd) as Hm2.
    eapply ledger_moved_ext; [exact (ledger_moved_trans _ _ _ _ _ _ _ Hm1 Hm2)| |].
    + intros p n. cbv beta. destruct (decide (p = parent src)); ring.
    + intros p. cbv beta. destruct (decide (p = parent src)); ring.
  - exists w1. split; [reflexivity|].
    eapply ledger_moved_ext; [exact Hm1| |].
    + intros p n. cbv beta. destruct (decide (p = parent src)); ring.
    + intros p. cbv beta. destruct (decide (p = parent src)); ring.
Qed.

(** ** adjust_well_volume, stage by stage *)

Lemma str_first_ok x w :
  well_name x <> "" -> str_first (well_name x) w = (Ok (start_row x), w).
Proof.
  intros Hn. unfold str_first, start_row. destruct (well_name x); [congruence|reflexivity].
Qed.

Lemma destination_info_trash dst w :
  is_trash dst = true -> destination_info dst w = (Ok (false, None, 0, None), w).
Proof.
  intros Ht. unfold destination_info, is_trash in *.
  rewrite (bind_ok get_world _ w w w) by reflexivity. rewrite Ht. reflexivity.
Qed.

Lemma destination_info_plate dst w dl dv :
  is_trash dst = false ->
  all_volumes w !! parent dst = Some (dl, dv) ->
  well_name dst <> "" ->
  destination_info dst w = (Ok (true, Some dl, length (rows dl), Some (start_row dst)), w).
Proof.
  intros Ht Ed Hn. unfold destination_info, is_trash in *.
  rewrite (bind_ok get_world _ w w w) by reflexivity. rewrite Ht.
  rewrite (bind_ok _ _ _ _ _ (dict_get_ok _ _ _ w Ed)).
  rewrite (bind_ok _ _ _ _ _ (str_first_ok dst w Hn)). reflexivity.
Qed.

(** Once the source plate is found and the two middle stages return,
    [adjust_well_volume] is its two final loops. *)
Lemma adjust_well_volume_stages transfer_volume source destination num_channels w
    sl sv info fans :
  all_volumes w !! parent (target_well source) = Some (sl, sv) ->
  well_name (target_well source) <> "" ->
  destination_info (target_well destination) w = (Ok info, w) ->
  well_lists num_channels (target_well source) (target_well destination) sl
    (length (rows sl)) (start_row (target_well source)) (info.1.1.2) (info.1.2) (info.2) w
  = (Ok fans, w) ->
  adjust_well_volume transfer_volume source destination num_channels w
  = apply_well_lists transfer_volume (target_well source) (target_well destination)
      (info.1.1.1) (fans.1) (fans.2) w.
Proof.
  intros Es Hn Hinfo Hfans. unfold adjust_well_volume.
  rewrite (bind_ok get_world _ w w w) by reflexivity.
  rewrite (bind_ok _ _ _ _ _ (dict_get_ok _ _ _ w Es)). cbn [fst snd].
  rewrite (bind_ok _ _ _ _ _ (str_first_ok _ w Hn)).
  rewrite (bind_ok _ _ _ _ _ Hinfo).
  rewrite (bind_ok _ _ _ _ _ Hfans). reflexivity.
Qed.

(** A failure of one of the two middle stages is the failure of the whole,
    with the world untouched. *)
Lemma adjust_well_volume_fans_raise transfer_volume source destination num_channels w
    sl sv info e :
  all_volumes w !! parent (target_well source) = Some (sl, sv) ->
  well_name (target_well source) <> "" ->
  destination_info (target_well destination) w = (Ok info, w) ->
  well_lists num_channels (target_well source) (target_well destination) sl
    (length (rows sl)) (start_row (target_well source)) (info.1.1.2) (info.1.2) (info.2) w
  = (Raise e, w) ->
  adjust_well_volume transfer_volume source destination num_channels w = (Raise e, w).
Proof.
  intros Es Hn Hinfo Hfans. unfold adjust_well_volume.
  rewrite (bind_ok get_world _ w w w) by reflexivity.
  rewrite (bind_ok _ _ _ _ _ (dict_get_ok _ _ _ w Es)). cbn [fst snd].
  rewrite (bind_ok _ _ _ _ _ (str_first_ok _ w Hn)).
  rewrite (bind_ok _ _ _ _ _ Hinfo).
  apply bind_raise. exact Hfans.
Qed.

Lemma registered_lookup w x :
  registered w x ->
  well_name x <> ""
  /\ exists lw vols, all_volumes w !! parent x = Some (lw, vols)
                    /\ is_Some (vols !! well_name x).
Proof.
  intros [Hn [v Hv]]. split; [exact Hn|]. unfold volume_of in Hv.
  destruct (all_volumes w !! parent x) as [[lw vols]|] eqn:E; [|discriminate].
  exists lw, vols. split; [reflexivity|]. exists v. exact Hv.
Qed.

Lemma registered_tracked w x : registered w x -> tracked_on w (parent x) [x].
Proof.
  intros H. destruct (registered_lookup w x H) as (_ & lw & vols & E & Hx).
  exists lw, vols. split; [exact E|]. constructor; [exact Hx|constructor].
Qed.

Lemma registered_moved w w' d t x :
  ledger_moved w w' d t -> registered w x -> registered w' x.
Proof.
  intros Hm Hr. pose proof (registered_tracked w x Hr) as Ht.
  apply (tracked_on_moved _ _ _ _ _ _ Hm) in Ht.
  destruct Hr as [Hn _]. split; [exact Hn|].
  destruct Ht as (lw & vols & E & Hl). inversion Hl as [|? ? Hx _]; subst.
  unfold volume_of. rewrite E. exact Hx.
Qed.

Lemma hits_singleton n x :
  hits n [x] = if decide (well_name x = n) then 1%Z else 0%Z.
Proof.
  unfold hits. rewrite filter_cons. destruct (decide (well_name x = n)); reflexivity.
Qed.

(** ** Single-channel transfers *)

Lemma well_lists_single src dst sl n start dp dn dstart w :
  well_lists 1 src dst sl n start dp dn dstart w
  = (Ok (Some (1%Z, [src]), Some (1%Z, [dst])), w).
Proof. reflexivity. Qed.

Ltac split_cases :=
  repeat match goal with
         | |- context [decide ?P] => destruct (decide P)
         | H : (_, _) = (_, _) |- _ => injection H as ? ?
         end;
  subst; try congruence.

(** One single-channel adjustment moves [transfer_volume] out of the
    source well and, unless the destination is the trash, into the
    destination well. *)
Lemma adjust_single_channel_moved transfer_volume source destination w :
  registered w (target_well source) ->
  (is_trash (target_well destination) = false -> registered w (target_well destination)) ->
  exists w',
    adjust_well_volume transfer_volume source destination 1 w = (Ok tt, w')
    /\ ledger_moved w w'
         (fun p n =>
            (if decide ((p, n) = (parent (target_well source), well_name (target_well source)))
             then - transfer_volume else 0)
            + (if is_trash (target_well destination) then 0
               else if decide ((p, n) = (parent (target_well destination),
                                         well_name (target_well destination)))
                    then transfer_volume else 0))%Q
         (fun p =>
            (if decide (p = parent (target_well source)) then - transfer_volume else 0)
            + (if is_trash (target_well destination) then 0
               else if decide (p = parent (target_well destination))
                    then transfer_volume else 0))%Q.
Proof.
  set (src := target_well source). set (dst := target_well destination).
  intros Hs Hd.
  destruct (registered_lookup w src Hs) as (Hn & sl & sv & Es & Hx).
  pose proof (registered_tracked w src Hs) as Hts.
  destruct (is_trash dst) eqn:Ht.
  - rewrite (adjust_well_volume_stages transfer_volume source destination 1 w sl sv
               (false, None, 0, None) (Some (1%Z, [src]), Some (1%Z, [dst])) Es Hn
               (destination_info_trash dst w Ht) (well_lists_single _ _ _ _ _ _ _ _ _)).
    cbn [fst snd].
    destruct (apply_well_lists_moved transfer_volume src dst false 1 [src]
                (Some (1%Z, [dst])) 1 [dst] w Hts ltac:(discriminate))
      as (w' & E & Hm).
    exists w'. split; [exact E|]. eapply ledger_moved_ext; [exact Hm| |].
    + intros p n. cbv beta. rewrite hits_singleton.
      change (inject_Z 1) with 1%Q. split_cases; cbn; ring.
    + intros p. cbv beta. change (inject_Z (Z.of_nat (length [src]))) with 1%Q.
      change (inject_Z 1) with 1%Q. split_cases; ring.
  - specialize (Hd eq_refl).
    destruct (registered_lookup w dst Hd) as (Hnd & dl & dv & Ed & Hxd).
    pose proof (registered_tracked w dst Hd) as Htd.
    rewrite (adjust_well_volume_stages transfer_volume source destination 1 w sl sv
               (true, Some dl, length (rows dl), Some (start_row dst))
               (Some (1%Z, [src]), Some (1%Z, [dst])) Es Hn
               (destination_info_plate dst w dl dv Ht Ed Hnd)
               (well_lists_single _ _ _ _ _ _ _ _ _)).
    cbn [fst snd].
    destruct (apply_well_lists_moved transfer_volume src dst true 1 [src]
                (Some (1%Z, [dst])) 1 [dst] w Hts ltac:(intros _; split; [reflexivity|exact Htd]))
      as (w' & E & Hm).
    exists w'. split; [exact E|]. eapply ledger_moved_ext; [exact Hm| |].
    + intros p n. cbv beta. rewrite !hits_singleton.
      change (inject_Z 1) with 1%Q. split_cases; cbn; ring.
    + intros p. cbv beta. change (inject_Z (Z.of_nat (length [src]))) with 1%Q.
      change (inject_Z (Z.of_nat (length [dst]))) with 1%Q.
      change (inject_Z 1) with 1%Q. split_cases; ring.
Qed.

(** A sequence of single-channel transfers between registered wells, none
    into the trash, changes every plate total by its net change. *)
Lemma run_transfers_moved (l : list (Q * Well * Well)) :
  forall w,
    Forall (fun t => registered w t.1.2 /\ registered w t.2 /\ is_trash t.2 = false) l ->
    exists w' d,
      run_transfers l w = (Ok tt, w')
      /\ ledger_moved w w' d (fun p => net_change p l).
Proof.
  induction l as [|t l IH]; intros w Hl.
  - exists w, (fun _ _ => 0%Q). split; [reflexivity|]. apply ledger_moved_refl.
  - inversion Hl as [|? ? (Hs & Hd & Ht) Hl']; subst.
    destruct (adjust_single_channel_moved t.1.1 (AWell t.1.2) (AWell t.2) w Hs
                (fun _ => Hd)) as (w1 & E1 & Hm1).
    cbn [target_well] in Hm1. rewrite Ht in Hm1.
    destruct (IH w1) as (w' & d & E & Hm).
    { eapply Forall_impl; [exact Hl'|]. intros u (Hus & Hud & Hut).
      repeat split; try assumption; eapply registered_moved; eauto. }
    exists w'. eexists. split.
    + unfold run_transfers in *. cbn [for_each].
      rewrite (bind_ok _ _ _ _ _ E1). exact E.
    + eapply ledger_moved_ext; [exact (ledger_moved_trans _ _ _ _ _ _ _ Hm1 Hm)| |].
      * intros p n. reflexivity.
      * intros p. cbn [net_change]. split_cases; ring.
Qed.

(** C1: a single-channel adjustment takes [transfer_volume] from the
    tracked volume of the source well and adds it to that of the
    destination well, or to no well when the destination is the trash; and
    after any sequence of single-channel transfers that do not involve the
    trash, the total of a plate has changed by the volume of each transfer
    into it minus the volume of each transfer out of it, so by nothing for
    a transfer within the plate. *)
Theorem adjust_well_volume_single_channel :
  (forall transfer_volume source destination w,
     registered w (target_well source) ->
     (is_trash (target_well destination) = false ->
      registered w (target_well destination)) ->
     exists w',
       adjust_well_volume transfer_volume source destination 1 w = (Ok tt, w')
       /\ (forall p n,
             vol w' p n
             == vol w p n
                + ((if decide ((p, n) = (parent (target_well source),
                                         well_name (target_well source)))
                    then - transfer_volume else 0)
                   + (if is_trash (target_well destination) then 0
                      else if decide ((p, n) = (parent (target_well destination),
                                                well_name (target_well destination)))
                           then transfer_volume else 0)))%Q)
  /\ (forall (l : list (Q * Well * Well)) w,
        Forall (fun t => registered w t.1.2 /\ registered w t.2 /\ is_trash t.2 = false) l ->
        exists w',
          run_transfers l w = (Ok tt, w')
          /\ (forall p, plate_total w' p == plate_total w p + net_change p l)%Q)
  /\ (forall p v s d,
        (parent s = parent d -> net_change p [(v, s, d)] == 0)
        /\ (parent s <> parent d -> net_change (parent d) [(v, s, d)] == v)
        /\ (parent s <> parent d -> net_change (parent s) [(v, s, d)] == - v))%Q.
Proof.
  split; [|split].
  - intros transfer_volume source destination w Hs Hd.
    destruct (adjust_single_channel_moved transfer_volume source destination w Hs Hd)
      as (w' & E & _ & Hv & _).
    exists w'. split; [exact E | exact Hv].
  - intros l w Hl.
    destruct (run_transfers_moved l w Hl) as (w' & d & E & _ & _ & Hp).
    exists w'. split; [exact E | exact Hp].
  - intros p v s d. cbn [net_change fst snd]. repeat split; intros H; split_cases; ring.
Qed.

(** ** Eight-channel transfers *)

Lemma fan_out_channel_fan plate x m l a v w :
  channel_fan plate x m l ->
  fan_out plate (length (rows plate)) (start_row x) x a v w = (Ok (Some (m, l)), w).
Proof.
  intros H. unfold fan_out.
  destruct H as [Hr | column Hr Hs Hc | column Hr Hs Hc | column Hr Hs Hc];
    rewrite Hr; cbn [Nat.eqb]; try rewrite Hs.
  - reflexivity.
  - rewrite (bind_ok _ _ w tt w) by reflexivity.
    rewrite (bind_ok _ _ _ _ _ (dict_get_ok _ _ _ w Hc)). reflexivity.
  - rewrite (bind_ok _ _ w tt w) by reflexivity.
    rewrite (bind_ok _ _ _ _ _ (dict_get_ok _ _ _ w Hc)). reflexivity.
  - rewrite (bind_ok _ _ w tt w) by reflexivity.
    rewrite (bind_ok _ _ _ _ _ (dict_get_ok _ _ _ w Hc)). reflexivity.
Qed.

Lemma fan_out_unsupported plate n start x a v w :
  n <> 1 -> n <> 8 -> n <> 16 ->
  fan_out plate n start x a v w = (Ok None, w).
Proof.
  intros H1 H8 H16. unfold fan_out.
  apply Nat.eqb_neq in H1, H8, H16. rewrite H1, H8, H16. reflexivity.
Qed.

Lemma fan_out_misaligned_8 plate start x a v w :
  start <> "A" ->
  fan_out plate 8 start x a v w = (Raise (AssertionError a), w).
Proof.
  intros Hs. unfold fan_out. cbn [Nat.eqb].
  apply String.eqb_neq in Hs. rewrite Hs. reflexivity.
Qed.

Lemma fan_out_misaligned_16 plate start x a v w :
  start <> "A" -> start <> "B" ->
  fan_out plate 16 start x a v w = (Raise (NameError v), w).
Proof.
  intros HA HB. unfold fan_out. cbn [Nat.eqb].
  apply String.eqb_neq in HA, HB. rewrite HA, HB. reflexivity.
Qed.

Lemma every_other_length_both {A} (l : list A) :
  length (every_other l) = Nat.div2 (S (length l))
  /\ forall x, length (every_other (x :: l)) = Nat.div2 (S (S (length l))).
Proof.
  induction l as [|y l [IH1 IH2]].
  - split; [reflexivity | intros x; reflexivity].
  - split; [apply IH2|]. intros x. cbn [every_other length]. rewrite IH1. reflexivity.
Qed.

Lemma every_other_length {A} (l : list A) :
  length (every_other l) = Nat.div2 (S (length l)).
Proof. apply every_other_length_both. Qed.

(** On a plate with one well per row and column, the fan-out is the well
    itself with 8 channels, or 8 wells with one channel each. *)
Lemma channel_fan_size plate x m l :
  channel_fan plate x m l ->
  uniform_columns plate ->
  (length (rows plate) = 1 /\ m = 8%Z /\ l = [x])
  \/ (length (rows plate) = 8 /\ m = 1%Z /\ length l = 8)
  \/ (length (rows plate) = 16 /\ m = 1%Z /\ length l = 8).
Proof.
  intros H Hu. destruct H as [Hr | column Hr Hs Hc | column Hr Hs Hc | column Hr Hs Hc].
  - left. auto.
  - right; left. rewrite (Hu _ _ Hc). auto.
  - right; right. rewrite every_other_length, (Hu _ _ Hc), Hr. auto.
  - right; right. rewrite every_other_length, length_drop, (Hu _ _ Hc), Hr. auto.
Qed.

Lemma hits_not_member n (l : list Well) :
  n ∉ well_name <$> l -> hits n l = 0%Z.
Proof.
  unfold hits. induction l as [|x l IH]; intros Hn; [reflexivity|].
  rewrite filter_cons. rewrite fmap_cons in Hn. apply not_elem_of_cons in Hn as [Hx Hl].
  destruct (decide (well_name x = n)); [congruence | apply IH, Hl].
Qed.

Lemma hits_member n (l : list Well) :
  NoDup (well_name <$> l) -> n ∈ well_name <$> l -> hits n l = 1%Z.
Proof.
  induction l as [|x l IH]; intros Hnd Hin.
  - rewrite fmap_nil in Hin. apply elem_of_nil in Hin. contradiction.
  - rewrite fmap_cons in Hnd, Hin. apply NoDup_cons in Hnd as [Hx Hnd].
    unfold hits in *. rewrite filter_cons.
    destruct (decide (well_name x = n)) as [E|Hne].
    + subst n. pose proof (hits_not_member _ _ Hx) as H0. unfold hits in H0.
      cbn [length]. lia.
    + apply elem_of_cons in Hin as [E|Hin]; [congruence|]. apply IH; assumption.
Qed.

Lemma adjust_eight_channel_moved transfer_volume source destination w sl sv um swl dm dwl :
  well_name (target_well source) <> "" ->
  all_volumes w !! parent (target_well source) = Some (sl, sv) ->
  channel_fan sl (target_well source) um swl ->
  Forall (fun x => is_Some (sv !! well_name x)) swl ->
  destination_ready w (target_well destination) dm dwl ->
  exists w',
    adjust_well_volume transfer_volume source destination 8 w = (Ok tt, w')
    /\ ledger_moved w w'
         (fun p n =>
            (if decide (p = parent (target_well source))
             then - (inject_Z (hits n swl) * (transfer_volume * inject_Z um)) else 0)
            + (if negb (is_trash (target_well destination))
               then if decide (p = parent (target_well destination))
                    then inject_Z (hits n dwl) * (transfer_volume * inject_Z dm) else 0
               else 0))%Q
         (fun p =>
            (if decide (p = parent (target_well source))
             then - (inject_Z (Z.of_nat (length swl)) * (transfer_volume * inject_Z um))
             else 0)
            + (if negb (is_trash (target_well destination))
               then if decide (p = parent (target_well destination))
                    then inject_Z (Z.of_nat (length dwl)) * (transfer_volume * inject_Z dm)
                    else 0
               else 0))%Q.
Proof.
  set (src := target_well source). set (dst := target_well destination).
  intros Hn Es Hfs Hts Hd.
  assert (Htr : tracked_on w (parent src) swl) by (exists sl, sv; auto).
  unfold destination_ready in Hd. destruct (is_trash dst) eqn:Ht.
  - erewrite (adjust_well_volume_stages transfer_volume source destination 8 w sl sv
                (false, None, 0, None) (Some (um, swl), None) Es Hn
                (destination_info_trash dst w Ht)).
    + cbn [fst snd negb].
      apply (apply_well_lists_moved transfer_volume src dst false um swl None dm dwl w Htr).
      discriminate.
    + cbn [fst snd]. unfold well_lists. cbn [Z.eqb Pos.eqb].
      rewrite (bind_ok _ _ _ _ _ (fan_out_channel_fan sl src um swl _ _ w Hfs)).
      reflexivity.
  - destruct (Hd eq_refl) as (Hnd & dl & dv & Ed & Hfd & Htd).
    erewrite (adjust_well_volume_stages transfer_volume source destination 8 w sl sv
                (true, Some dl, length (rows dl), Some (start_row dst))
                (Some (um, swl), Some (dm, dwl)) Es Hn
                (destination_info_plate dst w dl dv Ht Ed Hnd)).
    + cbn [fst snd negb].
      apply (apply_well_lists_moved transfer_volume src dst true um swl
               (Some (dm, dwl)) dm dwl w Htr).
      intros _. split; [reflexivity|]. exists dl, dv. auto.
    + cbn [fst snd]. unfold well_lists. cbn [Z.eqb Pos.eqb].
      rewrite (bind_ok _ _ _ _ _ (fan_out_channel_fan sl src um swl _ _ w Hfs)).
      rewrite (bind_ok _ _ _ _ _ (fan_out_channel_fan dl dst dm dwl _ _ w Hfd)).
      reflexivity.
Qed.

(** C2: an 8-channel adjustment takes [um * transfer_volume] from every
    well of the source fan-out and adds [dm * transfer_volume] to every
    well of the destination fan-out, where the fan-out of a 1-row plate is
    the well itself with 8 channels, that of an 8-row plate started in row
    A is its column with one channel per well, and that of a 16-row plate
    started in row A or B is every other well of the column; on plates
    with one well per row and column these are 8 wells, each counted once. *)
Theorem adjust_well_volume_eight_channel :
  (forall transfer_volume source destination w sl sv um swl dm dwl,
     well_name (target_well source) <> "" ->
     all_volumes w !! parent (target_well source) = Some (sl, sv) ->
     channel_fan sl (target_well source) um swl ->
     Forall (fun x => is_Some (sv !! well_name x)) swl ->
     destination_ready w (target_well destination) dm dwl ->
     exists w',
       adjust_well_volume transfer_volume source destination 8 w = (Ok tt, w')
       /\ (forall p n,
             vol w' p n
             == vol w p n
                + ((if decide (p = parent (target_well source))
                    then - (inject_Z (hits n swl) * (transfer_volume * inject_Z um))
                    else 0)
                   + (if negb (is_trash (target_well destination))
                      then if decide (p = parent (target_well destination))
                           then inject_Z (hits n dwl) * (transfer_volume * inject_Z dm)
                           else 0
                      else 0)))%Q)
  /\ (forall plate x m l,
        channel_fan plate x m l ->
        uniform_columns plate ->
        (length (rows plate) = 1 /\ m = 8%Z /\ l = [x])
        \/ (length (rows plate) = 8 /\ m = 1%Z /\ length l = 8)
        \/ (length (rows plate) = 16 /\ m = 1%Z /\ length l = 8))
  /\ (forall n (l : list Well),
        NoDup (well_name <$> l) ->
        (n ∈ well_name <$> l -> hits n l = 1%Z)
        /\ (n ∉ well_name <$> l -> hits n l = 0%Z)).
Proof.
  split; [|split].
  - intros transfer_volume source destination w sl sv um swl dm dwl Hn Es Hfs Hts Hd.
    destruct (adjust_eight_channel_moved transfer_volume source destination w sl sv
                um swl dm dwl Hn Es Hfs Hts Hd) as (w' & E & _ & Hv & _).
    exists w'. split; [exact E | exact Hv].
  - apply channel_fan_size.
  - intros n l Hnd. split; [apply hits_member, Hnd | apply hits_not_member].
Qed.

(** ** Plates that the fan-out does not handle *)

(** C4 as stated fails where the other plate is misaligned: from a plate
    with four rows to row B of a plate with eight rows, the adjustment
    stops at the alignment assertion of the destination. *)
Lemma adjust_well_volume_unsupported_rows_counterexample :
  let source := plate_well (display four_row_plate) 10 8 0 0 in
  let destination := plate_well (display deepwell_plate) 41.3 8.2 1 0 in
  (exists sv, all_volumes start !! parent source = Some (four_row_plate, sv))
  /\ length (rows four_row_plate) = 4
  /\ adjust_well_volume 20 (AWell source) (AWell destination) 8 start
     = (Raise (AssertionError DestinationMustStartAtRowA), start)
  /\ ~ unsupported_plate_geometry
        (adjust_well_volume 20 (AWell source) (AWell destination) 8 start).1.
Proof.
  cbv zeta. split; [eexists; reflexivity|]. split; [reflexivity|].
  split; [reflexivity|]. intros [H|H]; discriminate H.
Qed.

Lemma apply_well_lists_unassigned_source transfer_volume src dst not_trash dfan w :
  apply_well_lists transfer_volume src dst not_trash None dfan w
  = (Raise (UnboundLocalError "source_well_list"), w).
Proof. reflexivity. Qed.

(** With the destination list unassigned, the failure comes after the
    loop over the source wells. *)
Lemma apply_well_lists_unassigned_destination transfer_volume src dst um swl w :
  tracked_on w (parent src) swl ->
  exists w',
    apply_well_lists transfer_volume src dst true (Some (um, swl)) None w
    = (Raise (UnboundLocalError "destination_well_list"), w')
    /\ ledger_moved w w'
         (fun p n => if decide (p = parent src)
                     then inject_Z (hits n swl) * - (transfer_volume * inject_Z um)
                     else 0)%Q
         (fun p => if decide (p = parent src)
                   then inject_Z (Z.of_nat (length swl)) * - (transfer_volume * inject_Z um)
                   else 0)%Q.
Proof.
  intros (sl & sv & Es & Hs). unfold apply_well_lists.
  rewrite (bind_ok _ _ w (um, swl) w) by reflexivity. cbv beta iota.
  unfold sub_volume.
  rewrite (bind_ok _ _ _ _ _ (for_each_update _ _ swl w sl sv Es Hs)).
  eexists. split; [reflexivity|].
  apply (bulk_update_moved (fun v => v - transfer_volume * inject_Z um)%Q
           (- (transfer_volume * inject_Z um))%Q (parent src) swl w sl sv).
  - intros. cbv beta. ring.
  - exact Es.
  - exact Hs.
Qed.

(** C4, amended: an 8-channel adjustment whose source plate has a row
    count other than 1, 8 and 16 fails on the unassigned source well list
    and leaves the ledger as it was, provided the destination side gets
    through its own checks; one whose source side is in order and whose
    destination plate has such a row count fails on the unassigned
    destination well list. *)
Theorem adjust_well_volume_unsupported_rows :
  (forall transfer_volume source destination w sl sv,
     well_name (target_well source) <> "" ->
     all_volumes w !! parent (target_well source) = Some (sl, sv) ->
     ~ supported_rows (length (rows sl)) ->
     destination_passes w (target_well destination) ->
     adjust_well_volume transfer_volume source destination 8 w
     = (Raise (UnboundLocalError "source_well_list"), w))
  /\ (forall transfer_volume source destination w sl sv um swl dl dv,
        well_name (target_well source) <> "" ->
        all_volumes w !! parent (target_well source) = Some (sl, sv) ->
        channel_fan sl (target_well source) um swl ->
        Forall (fun x => is_Some (sv !! well_name x)) swl ->
        is_trash (target_well destination) = false ->
        well_name (target_well destination) <> "" ->
        all_volumes w !! parent (target_well destination) = Some (dl, dv) ->
        ~ supported_rows (length (rows dl)) ->
        exists w',
          adjust_well_volume transfer_volume source destination 8 w
          = (Raise (UnboundLocalError "destination_well_list"), w')).
Proof.
  unfold supported_rows. split.
  - intros transfer_volume source destination w sl sv Hn Es Hrows Hd.
    set (src := target_well source) in *. set (dst := target_well destination) in *.
    assert (Hfs : forall a v, fan_out sl (length (rows sl)) (start_row src) src a v w
                              = (Ok None, w)).
    { intros a v. apply fan_out_unsupported; intros E; apply Hrows; auto. }
    unfold destination_passes in Hd. destruct (is_trash dst) eqn:Ht.
    + erewrite (adjust_well_volume_stages transfer_volume source destination 8 w sl sv
                  (false, None, 0, None) (None, None) Es Hn
                  (destination_info_trash dst w Ht)).
      * reflexivity.
      * cbn [fst snd]. unfold well_lists. cbn [Z.eqb Pos.eqb].
        rewrite (bind_ok _ _ _ _ _ (Hfs _ _)). reflexivity.
    + destruct (Hd eq_refl) as (Hnd & dl & dv & dfan & Ed & Hfd).
      erewrite (adjust_well_volume_stages transfer_volume source destination 8 w sl sv
                  (true, Some dl, length (rows dl), Some (start_row dst))
                  (None, dfan) Es Hn
                  (destination_info_plate dst w dl dv Ht Ed Hnd)).
      * reflexivity.
      * cbn [fst snd]. unfold well_lists. cbn [Z.eqb Pos.eqb].
        rewrite (bind_ok _ _ _ _ _ (Hfs _ _)).
        rewrite (bind_ok _ _ _ _ _ Hfd). reflexivity.
  - intros transfer_volume source destination w sl sv um swl dl dv
           Hn Es Hfs Hts Ht Hnd Ed Hrows.
    set (src := target_well source) in *. set (dst := target_well destination) in *.
    erewrite (adjust_well_volume_stages transfer_volume source destination 8 w sl sv
                (true, Some dl, length (rows dl), Some (start_row dst))
                (Some (um, swl), None) Es Hn
                (destination_info_plate dst w dl dv Ht Ed Hnd)).
    + cbn [fst snd].
      destruct (apply_well_lists_unassigned_destination transfer_volume src dst um swl w)
        as (w' & E & _); [exists sl, sv; auto|].
      exists w'. exact E.
    + cbn [fst snd]. unfold well_lists. cbn [Z.eqb Pos.eqb].
      rewrite (bind_ok _ _ _ _ _ (fan_out_channel_fan sl src um swl _ _ w Hfs)).
      rewrite (bind_ok _ _ _ _ _
                 (fan_out_unsupported dl (length (rows dl)) (start_row dst) dst _ _ w
                    ltac:(intros E; apply Hrows; auto)
                    ltac:(intros E; apply Hrows; auto)
                    ltac:(intros E; apply Hrows; auto))).
      reflexivity.
Qed.

(** ** Misaligned eight-channel transfers *)

Lemma destination_info_ok dst w :
  (is_trash dst = false ->
   well_name dst <> "" /\ exists dl dv, all_volumes w !! parent dst = Some (dl, dv)) ->
  exists info, destination_info dst w = (Ok info, w)
               /\ (is_trash dst = true -> info = (false, None, 0, None))
               /\ (is_trash dst = false ->
                   exists dl dv, all_volumes w !! parent dst = Some (dl, dv)
                     /\ info = (true, Some dl, length (rows dl), Some (start_row dst))).
Proof.
  intros H. destruct (is_trash dst) eqn:Ht.
  - eexists. split; [apply destination_info_trash, Ht|]. split; [reflexivity|discriminate].
  - destruct (H eq_refl) as (Hn & dl & dv & Ed).
    eexists. split; [apply (destination_info_plate dst w dl dv Ht Ed Hn)|].
    split; [discriminate|]. intros _. exists dl, dv. split; [exact Ed|reflexivity].
Qed.

(** A misaligned source: the assertion of the 8-row branch fails as an
    assertion; that of the 16-row branch fails while building its message,
    which reads the name [source_row] that nothing defines. *)
Lemma adjust_well_volume_misaligned_source transfer_volume source destination w sl sv :
  well_name (target_well source) <> "" ->
  all_volumes w !! parent (target_well source) = Some (sl, sv) ->
  (is_trash (target_well destination) = false ->
   well_name (target_well destination) <> ""
   /\ exists dl dv, all_volumes w !! parent (target_well destination) = Some (dl, dv)) ->
  (length (rows sl) = 8 ->
   start_row (target_well source) <> "A" ->
   adjust_well_volume transfer_volume source destination 8 w
   = (Raise (AssertionError SourceMustStartAtRowA), w))
  /\ (length (rows sl) = 16 ->
      start_row (target_well source) <> "A" ->
      start_row (target_well source) <> "B" ->
      adjust_well_volume transfer_volume source destination 8 w
      = (Raise (NameError "source_row"), w)).
Proof.
  intros Hn Es Hd.
  destruct (destination_info_ok _ w Hd) as (info & Hinfo & _).
  split.
  - intros Hr Hs.
    apply (adjust_well_volume_fans_raise _ _ _ _ _ sl sv info _ Es Hn Hinfo).
    unfold well_lists. cbn [Z.eqb Pos.eqb]. apply bind_raise.
    rewrite Hr. apply fan_out_misaligned_8, Hs.
  - intros Hr HA HB.
    apply (adjust_well_volume_fans_raise _ _ _ _ _ sl sv info _ Es Hn Hinfo).
    unfold well_lists. cbn [Z.eqb Pos.eqb]. apply bind_raise.
    rewrite Hr. apply fan_out_misaligned_16; assumption.
Qed.

(** A misaligned destination, once the source side is through. *)
Lemma adjust_well_volume_misaligned_destination transfer_volume source destination w
    sl sv sfan dl dv :
  well_name (target_well source) <> "" ->
  all_volumes w !! parent (target_well source) = Some (sl, sv) ->
  fan_out sl (length (rows sl)) (start_row (target_well source)) (target_well source)
    SourceMustStartAtRowA "source_row" w = (Ok sfan, w) ->
  is_trash (target_well destination) = false ->
  well_name (target_well destination) <> "" ->
  all_volumes w !! parent (target_well destination) = Some (dl, dv) ->
  (length (rows dl) = 8 ->
   start_row (target_well destination) <> "A" ->
   adjust_well_volume transfer_volume source destination 8 w
   = (Raise (AssertionError DestinationMustStartAtRowA), w))
  /\ (length (rows dl) = 16 ->
      start_row (target_well destination) <> "A" ->
      start_row (target_well destination) <> "B" ->
      adjust_well_volume transfer_volume source destination 8 w
      = (Raise (NameError "destination_row"), w)).
Proof.
  intros Hn Es Hfs Ht Hnd Ed.
  pose proof (destination_info_plate _ w dl dv Ht Ed Hnd) as Hinfo.
  split.
  - intros Hr Hs.
    apply (adjust_well_volume_fans_raise _ _ _ _ _ sl sv _ _ Es Hn Hinfo).
    cbn [fst snd]. unfold well_lists. cbn [Z.eqb Pos.eqb].
    rewrite (bind_ok _ _ _ _ _ Hfs). apply bind_raise.
    rewrite Hr. apply fan_out_misaligned_8, Hs.
  - intros Hr HA HB.
    apply (adjust_well_volume_fans_raise _ _ _ _ _ sl sv _ _ Es Hn Hinfo).
    cbn [fst snd]. unfold well_lists. cbn [Z.eqb Pos.eqb].
    rewrite (bind_ok _ _ _ _ _ Hfs). apply bind_raise.
    rewrite Hr. apply fan_out_misaligned_16; assumption.
Qed.

(** C5 on the code, at inputs where it fails: an 8-channel transfer from
    well C1 of the 16-row assay plate, and one from the reservoir into well
    C1 of that plate, both stop with [NameError] and not with the failure
    of an alignment assertion; the same on the 8-row deep-well plate, from
    or into well B1, fails the assertion. *)
Theorem adjust_well_volume_misaligned_sixteen_rows :
  let c1 := plate_well (display assay_plate) 11.43 3.6 2 0 in
  let b1 := plate_well (display deepwell_plate) 41.3 8.2 1 0 in
  let reservoir := plate_well (display reservoir_plate) 26.85 8.2 0 0 in
  (well_name c1 = "C1" /\ length (rows assay_plate) = 16)
  /\ adjust_well_volume 20 (AWell c1) (AWell fixed_trash) 8 start
     = (Raise (NameError "source_row"), start)
  /\ adjust_well_volume 20 (AWell reservoir) (AWell c1) 8 start
     = (Raise (NameError "destination_row"), start)
  /\ ~ invalid_multichannel_alignment
        (adjust_well_volume 20 (AWell c1) (AWell fixed_trash) 8 start).1
  /\ ~ invalid_multichannel_alignment
        (adjust_well_volume 20 (AWell reservoir) (AWell c1) 8 start).1
  /\ (well_name b1 = "B1" /\ length (rows deepwell_plate) = 8)
  /\ adjust_well_volume 20 (AWell b1) (AWell fixed_trash) 8 start
     = (Raise (AssertionError SourceMustStartAtRowA), start)
  /\ adjust_well_volume 20 (AWell reservoir) (AWell b1) 8 start
     = (Raise (AssertionError DestinationMustStartAtRowA), start).
Proof.
  cbv zeta. repeat split; try reflexivity; intros [H|H]; discriminate H.
Qed.

(** ** serial_dilution and the ledger *)

Lemma ledger_moved_extend w cs : ledger_moved w (extend w cs) (fun _ _ => 0%Q) (fun _ => 0%Q).
Proof. exact (ledger_moved_refl w). Qed.

(** A computation that only talks to the robot leaves the ledger alone. *)
Lemma robot_only_moved {A} P (m : M A) w :
  robot_only P m ->
  exists a w', m w = (Ok a, w') /\ ledger_moved w w' (fun _ _ => 0%Q) (fun _ => 0%Q).
Proof.
  intros H. destruct (H w) as (a & cs & E & _).
  exists a, (extend w cs). split; [exact E | apply ledger_moved_extend].
Qed.

Section SerialDilutionLedger.
Context {driver : Driver}.
Variable trash : Well.
Variable pipette : Pipette.
Variables transfer_volume mix_volume : Q.
Variable wells : list Well.
Variable mix_steps : Z.
Variables dispense_height blowout_height : Q.
Variables do_blowout always_get_new_tip : bool.

Hypothesis single_channel : channels pipette = 1%Z.

Lemma dilution_step_tail_robot_only i b :
  wells !! (i + 1) = Some b ->
  robot_only (fun _ => True)
    (mix_cycles pipette mix_volume wells (i + 1) mix_steps dispense_height 10%Q ;;
     blow_out_and_touch pipette wells (i + 1) blowout_height do_blowout ;;
     (if always_get_new_tip
      then cmd (DropTip pipette) ;; cmd (PickUpTip pipette)
      else mret tt)).
Proof.
  intros Eb. apply robot_only_bind.
  - eapply robot_only_weaken; [|apply (mix_cycles_robot_only _ _ _ _ b); exact Eb]. auto.
  - intros _. apply robot_only_bind.
    + eapply robot_only_weaken; [|apply (blow_out_and_touch_robot_only _ _ _ b); exact Eb].
      auto.
    + intros _. destruct always_get_new_tip; [|apply robot_only_ret].
      apply robot_only_bind; [apply robot_only_cmd; exact I|].
      intros _. apply robot_only_cmd. exact I.
Qed.

(** One round of the loop moves [transfer_volume] from [wells[i]] to
    [wells[i+1]]. *)
Lemma dilution_step_moved i a b w :
  wells !! i = Some a ->
  wells !! (i + 1) = Some b ->
  registered w a ->
  registered w b ->
  is_trash b = false ->
  exists w' t,
    dilution_step pipette transfer_volume mix_volume wells mix_steps
      dispense_height blowout_height do_blowout always_get_new_tip i w = (Ok tt, w')
    /\ ledger_moved w w'
         (fun p n => at_well a (- transfer_volume) p n + at_well b transfer_volume p n)%Q t.
Proof.
  intros Ea Eb Ha Hb Ht. unfold dilution_step.
  rewrite (bind_ok _ _ _ _ _ (list_get_ok wells i a w Ea)).
  rewrite (bind_ok _ _ _ _ _ (list_get_ok wells (i + 1) b w Eb)).
  rewrite (bind_ok _ _ _ _ _ (cmd_extend _ w)).
  rewrite (bind_ok _ _ _ _ _ (cmd_extend _ _)), extend_extend.
  rewrite single_channel.
  destruct (adjust_single_channel_moved transfer_volume (AWell a) (AWell b)
              (extend w [Aspirate pipette transfer_volume (Some (AWell a)) (Some 1%Q);
                         Dispense pipette transfer_volume (Some (AWell b)) (Some 10%Q)])
              Ha (fun _ => Hb)) as (w1 & E1 & Hm1).
  rewrite (bind_ok _ _ _ _ _ E1).
  destruct (robot_only_moved _ _ w1 (dilution_step_tail_robot_only i b Eb))
    as (u & w2 & E2 & Hm2).
  destruct u. exists w2. eexists. split; [exact E2|].
  eapply ledger_moved_ext; [exact (ledger_moved_trans _ _ _ _ _ _ _ Hm1 Hm2)| |].
  - intros p n. cbv beta. cbn [target_well]. rewrite Ht. unfold at_well, well_key. ring.
  - intros p. reflexivity.
Qed.

(** The loop from index [start]: what left [wells[start]] has arrived in
    [wells[start + count]], and the wells between are as before. *)
Lemma dilution_loop_moved count :
  forall start last w,
    start + count < length wells ->
    Forall (fun x => registered w x /\ is_trash x = false) wells ->
    exists w' t first final,
      wells !! start = Some first
      /\ wells !! (start + count) = Some final
      /\ for_range_from start count last
           (dilution_step pipette transfer_volume mix_volume wells mix_steps
              dispense_height blowout_height do_blowout always_get_new_tip) w
         = (Ok (match count with O => last | S c => Some (start + c) end), w')
      /\ ledger_moved w w'
           (fun p n => at_well first (- transfer_volume) p n
                       + at_well final transfer_volume p n)%Q t.
Proof.
  induction count as [|count IH]; intros start last w Hlen Hw.
  - destruct (lookup_lt_is_Some_2 wells start ltac:(lia)) as [first E].
    exists w. eexists. exists first, first. rewrite Nat.add_0_r.
    split; [exact E|]. split; [exact E|]. split; [reflexivity|].
    eapply ledger_moved_ext; [apply ledger_moved_refl| |].
    + intros p n. cbv beta. unfold at_well. destruct (decide _); ring.
    + intros p. reflexivity.
  - destruct (lookup_lt_is_Some_2 wells start ltac:(lia)) as [a Ea].
    destruct (lookup_lt_is_Some_2 wells (start + 1) ltac:(lia)) as [b Eb].
    pose proof (proj1 (Forall_lookup _ _) Hw _ _ Ea) as [Ha _].
    pose proof (proj1 (Forall_lookup _ _) Hw _ _ Eb) as [Hb Htb].
    destruct (dilution_step_moved start a b w Ea Eb Ha Hb Htb) as (w1 & t1 & E1 & Hm1).
    destruct (IH (S start) (Some start) w1) as (w' & t & first & final & Ef & El & E & Hm).
    { lia. }
    { eapply Forall_impl; [exact Hw|]. intros x [Hx Hxt].
      split; [eapply registered_moved; eauto | exact Hxt]. }
    replace (S start) with (start + 1) in Ef by lia. rewrite Eb in Ef.
    injection Ef as <-.
    exists w'. eexists. exists a, final.
    split; [exact Ea|]. split; [rewrite <- El; f_equal; lia|]. split.
    + cbn [for_range_from]. rewrite (bind_ok _ _ _ _ _ E1), E.
      destruct count; do 3 f_equal; lia.
    + eapply ledger_moved_ext; [exact (ledger_moved_trans _ _ _ _ _ _ _ Hm1 Hm)| |].
      * intros p n. cbv beta. unfold at_well. repeat destruct (decide _); ring.
      * intros p. reflexivity.
Qed.

(** C6: after a single-channel serial dilution over two or more wells the
    ledger shows the first well lower by [transfer_volume] and every other
    well, those of the series included, as before; this holds with and
    without mixing at the first well. *)
Theorem serial_dilution_ledger first mix_before w :
  is_trash trash = true ->
  2 <= length wells ->
  wells !! 0 = Some first ->
  Forall (fun x => registered w x /\ is_trash x = false) wells ->
  exists w',
    serial_dilution trash pipette transfer_volume mix_volume wells mix_steps
      dispense_height blowout_height mix_before do_blowout always_get_new_tip w
    = (Ok tt, w')
    /\ (forall p n, vol w' p n == vol w p n + at_well first (- transfer_volume) p n)%Q
    /\ (vol w' (parent first) (well_name first)
        == vol w (parent first) (well_name first) - transfer_volume)%Q
    /\ (forall x, x ∈ wells -> well_key x <> well_key first ->
                  vol w' (parent x) (well_name x) == vol w (parent x) (well_name x))%Q.
Proof.
  intros Htrash Hlen Efirst Hw.
  assert (Hall : exists w',
    serial_dilution trash pipette transfer_volume mix_volume wells mix_steps
      dispense_height blowout_height mix_before do_blowout always_get_new_tip w
    = (Ok tt, w')
    /\ (forall p n, vol w' p n == vol w p n + at_well first (- transfer_volume) p n)%Q).
  { unfold serial_dilution.
    destruct (robot_only_moved _ _ w (pick_up_tip_if_needed_robot_only pipette))
      as (u1 & w1 & E1 & Hm1).
    rewrite (bind_ok _ _ _ _ _ E1).
    destruct (robot_only_moved _ _ w1
                (mix_first_robot_only pipette mix_volume wells first mix_steps
                   dispense_height blowout_height mix_before do_blowout Efirst))
      as (u2 & w2 & E2 & Hm2).
    rewrite (bind_ok _ _ _ _ _ E2).
    pose proof (ledger_moved_trans _ _ _ _ _ _ _ Hm1 Hm2) as Hm12.
    assert (Hw2 : Forall (fun x => registered w2 x /\ is_trash x = false) wells).
    { eapply Forall_impl; [exact Hw|]. intros x [Hx Hxt].
      split; [eapply registered_moved; eauto | exact Hxt]. }
    unfold for_range.
    replace (Z.to_nat (Z.of_nat (length wells) - 1)) with (S (length wells - 2)) by lia.
    destruct (dilution_loop_moved (S (length wells - 2)) 0 None w2 ltac:(lia) Hw2)
      as (w3 & t3 & first' & final & Ef & El & E3 & Hm3).
    rewrite Efirst in Ef. injection Ef as <-.
    rewrite (bind_ok _ _ _ _ _ E3).
    rewrite (bind_ok _ _ w3 (0 + (length wells - 2)) w3) by reflexivity.
    replace (0 + (length wells - 2) + 1) with (0 + S (length wells - 2)) by lia.
    rewrite (bind_ok _ _ _ _ _ (list_get_ok wells _ final w3 El)).
    rewrite (bind_ok _ _ _ _ _ (cmd_extend _ w3)).
    rewrite single_channel.
    assert (Hfinal : registered w3 final).
    { apply (registered_moved _ _ _ _ _ Hm3).
      exact (proj1 (proj1 (Forall_lookup _ _) Hw2 _ _ El)). }
    destruct (adjust_single_channel_moved transfer_volume (AWell final) (AWell trash)
                (extend w3 [Aspirate pipette transfer_volume (Some (AWell final)) None])
                Hfinal) as (w4 & E4 & Hm4).
    { cbn [target_well]. rewrite Htrash. discriminate. }
    rewrite (bind_ok _ _ _ _ _ E4). rewrite cmd_extend.
    eexists. split; [reflexivity|].
    pose proof (ledger_moved_trans _ _ _ _ _ _ _ Hm12
                  (ledger_moved_trans _ _ _ _ _ _ _ Hm3 Hm4)) as (_ & Hv & _).
    intros p n. change (vol (extend w4 [DropTip pipette]) p n) with (vol w4 p n).
    rewrite Hv. cbv beta. cbn [target_well]. rewrite Htrash.
    unfold at_well, well_key. destruct (decide ((p, n) = (parent final, well_name final)));
      ring. }
  destruct Hall as (w' & E & Hv). exists w'. split; [exact E|]. split; [exact Hv|].
  split.
  - rewrite Hv. unfold at_well, well_key. rewrite decide_True by reflexivity. ring.
  - intros x _ Hx. rewrite Hv. unfold at_well. rewrite decide_False; [ring|].
    intros H. apply Hx. exact H.
Qed.

End SerialDilutionLedger.

(** ** The distribute strategy *)

Lemma pop_batch_take {A} count :
  forall working temp : list A,
    pop_batch count working temp
    = (temp ++ take count (reverse working), reverse (drop count (reverse working))).
Proof.
  induction count as [|count IH]; intros working temp; cbn [pop_batch].
  - rewrite take_0, drop_0, app_nil_r, reverse_involutive. reflexivity.
  - destruct working as [|x working _] using rev_ind.
    + cbn [last]. rewrite IH. cbn. rewrite take_nil, drop_nil. reflexivity.
    + rewrite last_snoc, removelast_last, IH, reverse_snoc. cbn [take drop].
      rewrite <- app_assoc. reflexivity.
Qed.

Lemma chunks_fuel_concat {A} fuel k :
  forall l : list A, 1 <= k -> length l <= fuel -> concat (chunks_fuel fuel k l) = l.
Proof.
  induction fuel as [|fuel IH]; intros l Hk Hl.
  - destruct l; [reflexivity | cbn in Hl; lia].
  - destruct l as [|x l]; [reflexivity|]. cbn [chunks_fuel concat].
    rewrite IH.
    + apply take_drop.
    + exact Hk.
    + rewrite length_drop. cbn [length] in *. lia.
Qed.

Lemma chunks_fuel_sizes {A} fuel k :
  forall l : list A, 1 <= k ->
    Forall (fun b => 1 <= length b <= k) (chunks_fuel fuel k l).
Proof.
  induction fuel as [|fuel IH]; intros l Hk.
  - destruct l; constructor.
  - destruct l as [|x l]; [constructor|]. cbn [chunks_fuel]. constructor.
    + rewrite length_take. cbn [length]. lia.
    + apply IH, Hk.
Qed.

Lemma sum_list_concat_lengths {A} (ll : list (list A)) :
  sum_list (length <$> ll) = length (concat ll).
Proof.
  induction ll as [|b ll IH]; [reflexivity|].
  cbn. rewrite length_app, IH. reflexivity.
Qed.

Section Distribute.
Context {driver : Driver}.
Variable pipette : Pipette.
Variable transfer_volume : Q.
Variable source : Location.
Variable dispense_height : Q.
Variable offset_direction : string.
Variable do_touch_tip : bool.
Variable dispense_rate : Q.
Variable inspect_tips : bool.
Variable carryover : Q.

(** With a limit of at least one well and fuel for one round per
    destination, the [while] loop is a [for] loop over the batches of the
    reversed destination list. *)
Lemma distribute_loop_chunks fuel :
  forall (max_wells_per_aspirate : Z) working w,
    (1 <= max_wells_per_aspirate)%Z ->
    length working <= fuel ->
    distribute_loop fuel pipette transfer_volume source dispense_height
      offset_direction do_touch_tip dispense_rate inspect_tips carryover
      max_wells_per_aspirate working w
    = for_each (chunks_fuel fuel (Z.to_nat max_wells_per_aspirate) (reverse working))
        (distribute_batch pipette transfer_volume source dispense_height
           offset_direction do_touch_tip dispense_rate inspect_tips carryover) w.
Proof.
  induction fuel as [|fuel IH]; intros k working w Hk Hlen.
  - destruct working; [reflexivity | cbn in Hlen; lia].
  - destruct working as [|x working]; [reflexivity|].
    cbn [distribute_loop]. rewrite pop_batch_take. cbn [app].
    destruct (reverse (x :: working)) as [|y rw] eqn:Er.
    { apply (f_equal length) in Er. rewrite length_reverse in Er. discriminate Er. }
    cbn [chunks_fuel for_each]. unfold mbind, M_bind.
    destruct (distribute_batch _ _ _ _ _ _ _ _ _ _ w) as [[[]| |] w1]; try reflexivity.
    rewrite IH.
    + rewrite reverse_involutive. reflexivity.
    + exact Hk.
    + rewrite length_reverse, length_drop.
      apply (f_equal length) in Er. rewrite length_reverse in Er.
      cbn [length] in *. lia.
Qed.

(** With a limit of no well the loop makes no progress: every round
    aspirates for an empty batch and leaves the destination list as it is. *)
Lemma distribute_loop_no_progress fuel :
  forall (max_wells_per_aspirate : Z) x working w,
    (max_wells_per_aspirate <= 0)%Z ->
    (distribute_loop fuel pipette transfer_volume source dispense_height
       offset_direction do_touch_tip dispense_rate inspect_tips carryover
       max_wells_per_aspirate (x :: working) w).1 = OutOfFuel.
Proof.
  induction fuel as [|fuel IH]; intros k x working w Hk; [reflexivity|].
  cbn [distribute_loop]. replace (Z.to_nat k) with 0 by lia. cbn [pop_batch].
  unfold mbind, M_bind.
  destruct (distribute_batch _ _ _ _ _ _ _ _ _ [] w) as [r w1] eqn:E.
  assert (Hr : r = Ok tt).
  { unfold distribute_batch in E. cbn [length for_each] in E.
    unfold mbind, M_bind, get_world, cmd, mret, M_ret in E.
    destruct do_touch_tip; injection E as <- _; reflexivity. }
  subst r. apply IH, Hk.
Qed.

(** Each batch begins with one aspirate, of the batch size times the
    transfer volume plus the carryover share of the pipette's volume, less
    what the pipette reports to hold. *)
Lemma distribute_batch_aspirate temp_transfer_list w :
  distribute_batch pipette transfer_volume source dispense_height
    offset_direction do_touch_tip dispense_rate inspect_tips carryover
    temp_transfer_list w
  = ((if do_touch_tip then cmd (TouchTip pipette None) else mret tt) ;;
     for_each temp_transfer_list (fun well =>
       offset_dispense pipette well transfer_volume offset_direction None dispense_height
         false 8%Q do_touch_tip dispense_rate inspect_tips ;;
       adjust_well_volume transfer_volume (ALocation source) well (channels pipette)))
      (extend w
         [Aspirate pipette
            (transfer_volume * inject_Z (Z.of_nat (length temp_transfer_list))
             + max_volume pipette * carryover
             - current_volume pipette (trace w))%Q
            (Some (ALocation source)) None]).
Proof. reflexivity. Qed.

End Distribute.

(** ** The number of wells per aspirate *)

Lemma py_div_ok x y w : ~ (y == 0)%Q -> py_div x y w = (Ok (x / y)%Q, w).
Proof.
  intros Hy. unfold py_div. destruct (Qeq_bool y 0) eqn:E; [|reflexivity].
  apply Qeq_bool_iff in E. contradiction.
Qed.

Lemma py_div_by_zero x y w : (y == 0)%Q -> py_div x y w = (Raise ZeroDivisionError, w).
Proof.
  intros Hy. unfold py_div. apply Qeq_bool_iff in Hy. rewrite Hy. reflexivity.
Qed.

(** On a number that is not negative, [int] is the floor. *)
Lemma py_int_floor q : (0 <= q)%Q -> py_int q = Qfloor q.
Proof.
  destruct q as [n d]. unfold py_int, Qfloor, Qle. cbn. intros H.
  apply Z.quot_div_nonneg; lia.
Qed.

Lemma py_int_pos q : (1 <= py_int q)%Z -> (0 <= q)%Q.
Proof.
  destruct q as [n d]. unfold py_int, Qle. cbn. intros H.
  destruct (Z.neg_nonneg_cases n) as [Hn|Hn]; [|lia].
  assert (n ÷ Z.pos d <= 0)%Z; [|lia].
  rewrite <- (Z.opp_involutive n), Z.quot_opp_l by lia.
  assert (0 <= (- n) ÷ Z.pos d)%Z by (apply Z.quot_pos; lia). lia.
Qed.

Lemma Qceiling_pos q : (0 < q)%Q -> (1 <= Qceiling q)%Z.
Proof.
  intros Hq. assert (H : (0 < inject_Z (Qceiling q))%Q).
  { eapply Qlt_le_trans; [exact Hq | apply Qle_ceiling]. }
  change 0%Q with (inject_Z 0) in H. rewrite <- Zlt_Qlt in H. lia.
Qed.

Lemma Qdiv_pos a b : (0 < a)%Q -> (0 < b)%Q -> (0 < a / b)%Q.
Proof.
  intros Ha Hb. apply Qlt_shift_div_l; [exact Hb|]. rewrite Qmult_0_l. exact Ha.
Qed.

Lemma inject_Z_pos z : (1 <= z)%Z -> (0 < inject_Z z)%Q.
Proof. intros H. change 0%Q with (inject_Z 0). rewrite <- Zlt_Qlt. lia. Qed.

(** The even split: with [total >= 1] wells and a limit of at least one,
    the recomputed limit lies between one and the old limit. *)
Lemma even_split_bounds (total limit : Z) :
  (1 <= total)%Z -> (1 <= limit)%Z ->
  (1 <= Qceiling (inject_Z total / inject_Z limit))%Z
  /\ (1 <= Qceiling (inject_Z total
                    / inject_Z (Qceiling (inject_Z total / inject_Z limit)))
      <= limit)%Z.
Proof.
  intros Ht Hl.
  pose proof (inject_Z_pos total Ht) as Htq. pose proof (inject_Z_pos limit Hl) as Hlq.
  set (g := Qceiling (inject_Z total / inject_Z limit)).
  assert (Hg : (1 <= g)%Z) by (apply Qceiling_pos, Qdiv_pos; assumption).
  pose proof (inject_Z_pos g Hg) as Hgq.
  split; [exact Hg|]. split.
  - apply Qceiling_pos, Qdiv_pos; assumption.
  - rewrite <- (Qceiling_Z limit). apply Qceiling_resp_le.
    apply Qle_shift_div_r; [exact Hgq|].
    assert (Hle : (inject_Z total / inject_Z limit <= inject_Z g)%Q) by apply Qle_ceiling.
    apply (Qmult_le_r _ _ (inject_Z limit) Hlq) in Hle.
    assert (E : (inject_Z total / inject_Z limit * inject_Z limit == inject_Z total)%Q).
    { field. intros H0. rewrite H0 in Hlq. apply (Qlt_irrefl _ Hlq). }
    rewrite E in Hle. rewrite Qmult_comm. exact Hle.
Qed.

Lemma wells_per_aspirate_plain pipette transfer_volume carryover total w :
  ~ (transfer_volume == 0)%Q ->
  wells_per_aspirate pipette transfer_volume carryover false total w
  = (Ok (py_int (max_volume pipette * (1 - carryover) / transfer_volume)), w).
Proof.
  intros Hv. unfold wells_per_aspirate.
  rewrite (bind_ok _ _ _ _ _ (py_div_ok _ _ w Hv)). reflexivity.
Qed.

Lemma wells_per_aspirate_even pipette transfer_volume carryover total w :
  ~ (transfer_volume == 0)%Q ->
  (1 <= py_int (max_volume pipette * (1 - carryover) / transfer_volume))%Z ->
  1 <= total ->
  wells_per_aspirate pipette transfer_volume carryover true total w
  = (Ok (Qceiling
           (inject_Z (Z.of_nat total)
            / inject_Z (Qceiling
                          (inject_Z (Z.of_nat total)
                           / inject_Z (py_int (max_volume pipette * (1 - carryover)
                                               / transfer_volume)))))), w).
Proof.
  intros Hv Hl Ht. unfold wells_per_aspirate, math_ceil.
  rewrite (bind_ok _ _ _ _ _ (py_div_ok _ _ w Hv)).
  set (limit := py_int _) in *.
  destruct (even_split_bounds (Z.of_nat total) limit ltac:(lia) Hl) as (Hg & _).
  assert (Hl0 : ~ (inject_Z limit == 0)%Q).
  { intros H0. pose proof (inject_Z_pos limit Hl) as H.
    rewrite H0 in H. apply (Qlt_irrefl _ H). }
  assert (Hg0 : ~ (inject_Z (Qceiling (inject_Z (Z.of_nat total) / inject_Z limit))
                   == 0)%Q).
  { intros H0. pose proof (inject_Z_pos _ Hg) as H.
    rewrite H0 in H. apply (Qlt_irrefl _ H). }
  rewrite (bind_ok _ _ _ _ _ (py_div_ok _ _ w Hl0)).
  rewrite (bind_ok _ _ _ _ _ (py_div_ok _ _ w Hg0)).
  reflexivity.
Qed.

(** ** custom_transfer, distribute *)

(** C3 as stated fails for a transfer volume above nine tenths of the
    pipette's volume, which the range assertion lets through: with 300 ul
    on the 300 ul pipette the limit is 0; the even split then divides by
    zero, and without it the loop never consumes a destination. *)
Lemma custom_transfer_distribute_counterexample :
  Qle_bool 300 (max_volume p300m) && Qle_bool (min_volume p300m) 300 = true
  /\ wells_per_aspirate p300m 300 0.1 false 1 start = (Ok 0%Z, start)
  /\ (forall fuel,
        (custom_transfer (driver := simulated) fuel p300m 300 (AWell buffer)
           [AWell (plate_well (display assay_plate) 11.43 3.6 0 0)]
           25 8 6 "right" false true false false "distribute" 1 false true start).1
        = Raise ZeroDivisionError)
  /\ (forall fuel,
        (custom_transfer (driver := simulated) fuel p300m 300 (AWell buffer)
           [AWell (plate_well (display assay_plate) 11.43 3.6 0 0)]
           25 8 6 "right" false true false false "distribute" 1 false false start).1
        = OutOfFuel).
Proof.
  split; [reflexivity|]. split; [reflexivity|]. split.
  - intros fuel. reflexivity.
  - intros fuel. unfold custom_transfer.
    rewrite (bind_ok _ _ start tt start) by reflexivity.
    rewrite (bind_ok _ _ start tt (extend start [PickUpTip p300m])) by reflexivity.
    rewrite (bind_ok _ _ _ tt (extend start [PickUpTip p300m])) by reflexivity.
    cbn [String.eqb Ascii.eqb Bool.eqb andb].
    rewrite (bind_ok _ _ _ 0%Z (extend start [PickUpTip p300m])) by reflexivity.
    unfold mbind at 1. unfold M_bind.
    pose proof (distribute_loop_no_progress (driver := simulated) p300m 300
                  (bottom buffer 1) 6 "right" false 1 false 0.1 fuel 0
                  (AWell (plate_well (display assay_plate) 11.43 3.6 0 0)) []
                  (extend start [PickUpTip p300m]) ltac:(lia)) as H.
    destruct (distribute_loop _ _ _ _ _ _ _ _ _ _ _ _ _) as [r w']. cbn in H. subst r.
    reflexivity.
Qed.

Lemma chunks_fuel_two_nines {A} (l : list A) :
  length l = 18 -> length <$> chunks_fuel 18 9 (reverse l) = [9; 9].
Proof.
  intros H. do 19 (destruct l as [|? l]; try discriminate H). reflexivity.
Qed.

(** C3, amended: for a transfer volume that is not zero the maximum batch
    size is [int(max_volume * (1 - 0.1) / transfer_volume)], which is the
    floor where the quotient is not negative; when it is at least 1 and
    there is a destination, the even split recomputes it as
    [ceil(total / ceil(total / limit))], between 1 and the old limit; with
    a limit of at least 1 the loop processes the reversed destination list
    in consecutive batches, none empty, none above the limit, whose sizes
    sum to the number of destinations; for 20 ul, a 300 ul pipette and 18
    destinations the limit is 13 and the even split gives 2 batches of 9;
    each batch starts with an aspirate of batch size times transfer volume
    plus a tenth of the pipette's volume, minus what is in the tip. *)
Theorem custom_transfer_distribute_batches :
  (forall pipette transfer_volume total w,
     ~ (transfer_volume == 0)%Q ->
     wells_per_aspirate pipette transfer_volume 0.1 false total w
     = (Ok (py_int (max_volume pipette * (1 - 0.1) / transfer_volume)), w)
     /\ ((0 <= max_volume pipette * (1 - 0.1) / transfer_volume)%Q ->
         py_int (max_volume pipette * (1 - 0.1) / transfer_volume)
         = Qfloor (max_volume pipette * (1 - 0.1) / transfer_volume)))
  /\ (forall pipette transfer_volume total w,
        let limit := py_int (max_volume pipette * (1 - 0.1) / transfer_volume) in
        let even :=
          Qceiling (inject_Z (Z.of_nat total)
                    / inject_Z (Qceiling (inject_Z (Z.of_nat total) / inject_Z limit))) in
        ~ (transfer_volume == 0)%Q ->
        (1 <= limit)%Z ->
        1 <= total ->
        wells_per_aspirate pipette transfer_volume 0.1 true total w = (Ok even, w)
        /\ (1 <= even <= limit)%Z
        /\ limit = Qfloor (max_volume pipette * (1 - 0.1) / transfer_volume))
  /\ (forall (driver : Driver) fuel pipette transfer_volume source dispense_height
             offset_direction do_touch_tip dispense_rate inspect_tips carryover
             (limit : Z) (destination_list : list Target) w,
        let batches := chunks_fuel fuel (Z.to_nat limit) (reverse destination_list) in
        (1 <= limit)%Z ->
        length destination_list <= fuel ->
        distribute_loop fuel pipette transfer_volume source dispense_height
          offset_direction do_touch_tip dispense_rate inspect_tips carryover limit
          destination_list w
        = for_each batches
            (distribute_batch pipette transfer_volume source dispense_height
               offset_direction do_touch_tip dispense_rate inspect_tips carryover) w
        /\ concat batches = reverse destination_list
        /\ Forall (fun b => 1 <= length b <= Z.to_nat limit) batches
        /\ sum_list (length <$> batches) = length destination_list)
  /\ (forall pipette w (destination_list : list Target),
        max_volume pipette = 300%Q ->
        length destination_list = 18 ->
        wells_per_aspirate pipette 20 0.1 false 18 w = (Ok 13%Z, w)
        /\ wells_per_aspirate pipette 20 0.1 true 18 w = (Ok 9%Z, w)
        /\ length <$> chunks_fuel 18 9 (reverse destination_list) = [9; 9])
  /\ (forall (driver : Driver) pipette transfer_volume source dispense_height
             offset_direction do_touch_tip dispense_rate inspect_tips
             (temp_transfer_list : list Target) w,
        distribute_batch pipette transfer_volume source dispense_height offset_direction
          do_touch_tip dispense_rate inspect_tips 0.1 temp_transfer_list w
        = ((if do_touch_tip then cmd (TouchTip pipette None) else mret tt) ;;
           for_each temp_transfer_list (fun well =>
             offset_dispense pipette well transfer_volume offset_direction None
               dispense_height false 8%Q do_touch_tip dispense_rate inspect_tips ;;
             adjust_well_volume transfer_volume (ALocation source) well
               (channels pipette)))
            (extend w
               [Aspirate pipette
                  (transfer_volume * inject_Z (Z.of_nat (length temp_transfer_list))
                   + max_volume pipette * 0.1
                   - current_volume pipette (trace w))%Q
                  (Some (ALocation source)) None])).
Proof.
  split; [|split; [|split; [|split]]].
  - intros pipette transfer_volume total w Hv.
    split; [apply wells_per_aspirate_plain, Hv | apply py_int_floor].
  - intros pipette transfer_volume total w limit even Hv Hl Ht. split; [|split].
    + apply wells_per_aspirate_even; assumption.
    + apply even_split_bounds; [lia | exact Hl].
    + apply py_int_floor, py_int_pos, Hl.
  - intros driver fuel pipette transfer_volume source dispense_height offset_direction
           do_touch_tip dispense_rate inspect_tips carryover limit destination_list w
           batches Hl Hfuel.
    assert (Hrev : length (reverse destination_list) <= fuel)
      by (rewrite length_reverse; exact Hfuel).
    split; [apply distribute_loop_chunks; assumption|].
    assert (Hc : concat batches = reverse destination_list)
      by (apply chunks_fuel_concat; [lia | exact Hrev]).
    split; [exact Hc|]. split; [apply chunks_fuel_sizes; lia|].
    rewrite sum_list_concat_lengths, Hc. apply length_reverse.
  - intros pipette w destination_list Hmax Hlen. unfold wells_per_aspirate.
    rewrite Hmax. split; [reflexivity|]. split; [reflexivity|].
    apply chunks_fuel_two_nines, Hlen.
  - intros. reflexivity.
Qed.

Lemma custom_transfer_distribute_batches_witness :
  (wells_per_aspirate p300m 20 0.1 true 18 start = (Ok 9%Z, start)
   /\ (1 <= 9 <= 13)%Z)
  /\ length <$> chunks_fuel 18 9 (reverse buffer_wells) = [9; 9]
  /\ sum_list (length <$> chunks_fuel 18 9 (reverse buffer_wells)) = 18.
Proof.
  split; [|split].
  - destruct (proj1 (proj2 custom_transfer_distribute_batches) p300m 20%Q 18 start)
      as (E & Hb & _).
    + intros H. vm_compute in H. discriminate H.
    + vm_compute. discriminate.
    + lia.
    + split; [exact E | exact Hb].
  - apply (proj1 (proj2 (proj2 (proj2 custom_transfer_distribute_batches)))
             p300m start buffer_wells); reflexivity.
  - apply (proj1 (proj2 (proj2 custom_transfer_distribute_batches))
             simulated 18 p300m 20%Q (bottom buffer 1) 6%Q "right" false 1%Q false 0.1%Q
             9%Z buffer_wells start).
    + lia.
    + vm_compute. lia.
Defined.

(** The whole transfer on the simulated deck: buffer from the reservoir to
    the 18 buffer wells, 20 ul each, evenly split.  After the prewetting
    aspirate of 300 ul there are two aspirates, of 210 ul and, with 30 ul
    left in the tips, 180 ul; the wells are visited in the reverse of the
    order given; the reservoir well is down by 18 * 8 * 20 ul. *)
Example custom_transfer_distribute_run :
  let r := custom_transfer (driver := simulated) 18 p300m 20 (AWell buffer) buffer_wells
             25 8 6 "right" true true false false "distribute" 1 false true start in
  r.1 = Ok tt
  /\ Forall2 Qeq (aspirated (trace r.2)) [300; 210; 180]%Q
  /\ approached (trace r.2) = reverse (well_name ∘ target_well <$> buffer_wells)
  /\ (vol r.2 (display reservoir_plate) "A1" == - (18 * 8 * 20))%Q
  /\ (vol r.2 (display assay_plate) "C3" == 20)%Q.
Proof.
  cbv zeta. split; [vm_compute; reflexivity|].
  split; [vm_compute; repeat constructor|].
  split; [vm_compute; reflexivity|]. split; vm_compute; reflexivity.
Qed.

(** ** The theorems at work on the simulated deck *)

Ltac tracked :=
  repeat constructor; vm_compute; eexists; reflexivity.

Lemma adjust_well_volume_single_channel_witness :
  (exists w',
     adjust_well_volume 20 (AWell buffer) (AWell assay_a1) 1 start = (Ok tt, w')
     /\ (vol w' (display reservoir_plate) "A1" == - 20)%Q
     /\ (vol w' (display assay_plate) "A1" == 20)%Q)
  /\ (exists w',
        run_transfers [(20%Q, buffer, assay_a1); (5%Q, assay_a1, assay_a1)] start
        = (Ok tt, w')
        /\ (plate_total w' (display assay_plate) == 20)%Q
        /\ (plate_total w' (display reservoir_plate) == - 20)%Q).
Proof.
  split.
  - destruct (proj1 adjust_well_volume_single_channel 20%Q (AWell buffer) (AWell assay_a1)
                start) as (w' & E & Hv).
    + split; [discriminate | vm_compute; eexists; reflexivity].
    + intros _. split; [discriminate | vm_compute; eexists; reflexivity].
    + exists w'. split; [exact E|]. split; rewrite Hv; vm_compute; reflexivity.
  - destruct (proj1 (proj2 adjust_well_volume_single_channel)
                [(20%Q, buffer, assay_a1); (5%Q, assay_a1, assay_a1)] start)
      as (w' & E & Hp).
    + repeat constructor; try discriminate; vm_compute; eexists; reflexivity.
    + exists w'. split; [exact E|]. split; rewrite Hp; vm_compute; reflexivity.
Defined.

Lemma adjust_well_volume_eight_channel_witness :
  exists w',
    adjust_well_volume 20 (AWell buffer) (AWell assay_a1) 8 start = (Ok tt, w')
    /\ (vol w' (display reservoir_plate) "A1" == - (8 * 20))%Q
    /\ (vol w' (display assay_plate) "C1" == 20)%Q
    /\ (vol w' (display assay_plate) "B1" == 0)%Q.
Proof.
  destruct (proj1 adjust_well_volume_eight_channel 20%Q (AWell buffer) (AWell assay_a1)
              start reservoir_plate (zero_volumes reservoir_plate) 8%Z [buffer]
              1%Z (every_other assay_column_1)) as (w' & E & Hv).
  - discriminate.
  - reflexivity.
  - apply fan_one_row. reflexivity.
  - tracked.
  - intros _. split; [discriminate|].
    exists assay_plate, (zero_volumes assay_plate). split; [reflexivity|]. split.
    + apply fan_sixteen_rows_A; reflexivity.
    + tracked.
  - exists w'. split; [exact E|]. repeat split; rewrite Hv; vm_compute; reflexivity.
Defined.

Lemma adjust_well_volume_unsupported_rows_witness :
  adjust_well_volume 20 (AWell (plate_well (display four_row_plate) 10 8 0 0))
    (AWell fixed_trash) 8 start
  = (Raise (UnboundLocalError "source_well_list"), start)
  /\ exists w',
       adjust_well_volume 20 (AWell buffer)
         (AWell (plate_well (display four_row_plate) 10 8 0 0)) 8 start
       = (Raise (UnboundLocalError "destination_well_list"), w').
Proof.
  split.
  - apply (proj1 adjust_well_volume_unsupported_rows 20%Q
             (AWell (plate_well (display four_row_plate) 10 8 0 0)) (AWell fixed_trash)
             start four_row_plate (zero_volumes four_row_plate)).
    + discriminate.
    + reflexivity.
    + intros [H|[H|H]]; vm_compute in H; discriminate H.
    + intros H. vm_compute in H. discriminate H.
  - apply (proj2 adjust_well_volume_unsupported_rows 20%Q (AWell buffer)
             (AWell (plate_well (display four_row_plate) 10 8 0 0))
             start reservoir_plate (zero_volumes reservoir_plate) 8%Z [buffer]
             four_row_plate (zero_volumes four_row_plate)).
    + discriminate.
    + reflexivity.
    + apply fan_one_row. reflexivity.
    + tracked.
    + reflexivity.
    + discriminate.
    + reflexivity.
    + intros [H|[H|H]]; vm_compute in H; discriminate H.
Defined.

Lemma serial_dilution_ledger_witness :
  exists w',
    serial_dilution (driver := simulated) fixed_trash p20 100 100 dilution_wells 5 4 4
      true false false start
    = (Ok tt, w')
    /\ (vol w' (display deepwell_plate) "A1" == - 100)%Q
    /\ (vol w' (display deepwell_plate) "A3" == 0)%Q
    /\ (vol w' (display deepwell_plate) "A5" == 0)%Q.
Proof.
  destruct (serial_dilution_ledger (driver := simulated) fixed_trash p20 100%Q 100%Q
              dilution_wells 5%Z 4%Q 4%Q false false eq_refl
              (plate_well (display deepwell_plate) 41.3 8.2 0 0) true start)
    as (w' & E & Hv & _).
  - reflexivity.
  - vm_compute. lia.
  - reflexivity.
  - repeat constructor; try discriminate; vm_compute; eexists; reflexivity.
  - exists w'. split; [exact E|]. repeat split; rewrite Hv; vm_compute; reflexivity.
Defined.

(** ** Well names and indices *)

Lemma lstrip_no_blank s : Addressing.no_blank s = true -> Addressing.lstrip s = s.
Proof.
  destruct s as [|c s]; [reflexivity|]. cbn. intros H.
  apply andb_prop in H as [H _]. apply negb_true_iff in H. rewrite H. reflexivity.
Qed.

Lemma rstrip_no_blank s : Addressing.no_blank s = true -> Addressing.rstrip s = s.
Proof.
  induction s as [|c s IH]; [reflexivity|]. cbn. intros H.
  apply andb_prop in H as [Hc Hs]. apply negb_true_iff in Hc.
  rewrite (IH Hs), Hc. destruct s; reflexivity.
Qed.

Lemma pretty_N_char_digit y :
  (y < 10)%N ->
  Addressing.digit_of (pretty_N_char y) = Some (Z.of_N y)
  /\ Addressing.is_space (pretty_N_char y) = false
  /\ Addressing.is_ascii (pretty_N_char y) = true.
Proof.
  intros H.
  assert (y = 0 \/ y = 1 \/ y = 2 \/ y = 3 \/ y = 4 \/ y = 5 \/ y = 6 \/ y = 7
          \/ y = 8 \/ y = 9)%N as Hy by lia.
  repeat (destruct Hy as [->|Hy]; [repeat split; reflexivity|]).
  subst y. repeat split; reflexivity.
Qed.

(** The text of a positive number: digits only, and [digits_value] reads
    the number back. *)
Lemma pretty_N_go_digits x :
  forall s after_digit,
    (0 < x)%N ->
    Addressing.no_blank s = true ->
    Addressing.all_ascii s = true ->
    (exists c rest, pretty_N_go x s = String c rest
                    /\ is_Some (Addressing.digit_of c))
    /\ Addressing.no_blank (pretty_N_go x s) = true
    /\ Addressing.all_ascii (pretty_N_go x s) = true
    /\ Addressing.digits_value 0 after_digit (pretty_N_go x s)
       = Addressing.digits_value (Z.of_N x) true s.
Proof.
  induction (N.lt_wf_0 x) as [x _ IH]. intros s after_digit Hx Hs Ha.
  rewrite pretty_N_go_step by exact Hx.
  destruct (pretty_N_char_digit (x `mod` 10)%N) as (Hd & Hsp & Hasc).
  { apply N.mod_lt. discriminate. }
  set (s2 := String (pretty_N_char (x `mod` 10)%N) s).
  assert (Hs2 : Addressing.no_blank s2 = true) by (cbn; rewrite Hsp, Hs; reflexivity).
  assert (Ha2 : Addressing.all_ascii s2 = true) by (cbn; rewrite Hasc, Ha; reflexivity).
  assert (Hstep : forall acc p,
            Addressing.digits_value acc p s2
            = Addressing.digits_value (10 * acc + Z.of_N (x `mod` 10)%N)%Z true s).
  { intros acc p. subst s2. cbn [Addressing.digits_value]. rewrite Hd. reflexivity. }
  destruct (N.eq_dec (x `div` 10)%N 0%N) as [E0|Hpos].
  - rewrite E0, pretty_N_go_0. split; [|split; [|split]].
    + exists (pretty_N_char (x `mod` 10)%N), s. split; [reflexivity|].
      rewrite Hd. eexists; reflexivity.
    + exact Hs2.
    + exact Ha2.
    + rewrite Hstep. f_equal.
      pose proof (N.div_mod x 10%N ltac:(discriminate)) as Hdm. rewrite E0 in Hdm. lia.
  - assert (Hlt : (x `div` 10 < x)%N) by (apply N.div_lt; [exact Hx | reflexivity]).
    assert (Hq : (0 < x `div` 10)%N) by (apply N.neq_0_lt_0; exact Hpos).
    destruct (IH (x `div` 10)%N Hlt s2 after_digit Hq Hs2 Ha2) as (H1 & H2 & H3 & H4).
    split; [exact H1|]. split; [exact H2|]. split; [exact H3|].
    rewrite H4, Hstep. f_equal.
    pose proof (N.div_mod x 10%N ltac:(discriminate)) as Hdm. lia.
Qed.

Lemma pretty_positive_digits (p : positive) :
  (exists c rest, pretty p = String c rest /\ is_Some (Addressing.digit_of c))
  /\ Addressing.no_blank (pretty p) = true
  /\ Addressing.all_ascii (pretty p) = true
  /\ Addressing.digits_value 0 false (pretty p) = Some (Z.pos p).
Proof.
  unfold pretty, pretty_positive, pretty, pretty_N.
  rewrite decide_False by discriminate.
  destruct (pretty_N_go_digits (N.pos p) "" false ltac:(lia) eq_refl eq_refl)
    as (H1 & H2 & H3 & H4).
  repeat split; assumption.
Qed.

Lemma digit_not_sign c :
  is_Some (Addressing.digit_of c) ->
  (Addressing.code c =? 43)%Z = false /\ (Addressing.code c =? 45)%Z = false.
Proof.
  unfold Addressing.digit_of. intros [d H].
  destruct ((48 <=? Addressing.code c)%Z && (Addressing.code c <=? 57)%Z) eqn:E;
    [|discriminate].
  apply andb_prop in E as [E1 E2]. split; apply Z.eqb_neq; lia.
Qed.

(** [int(str(z))] is [z]. *)
Lemma int_of_string_pretty (z : Z) :
  Addressing.int_of_string (pretty z) = Some z
  /\ Addressing.all_ascii (pretty z) = true.
Proof.
  destruct z as [|p|p].
  - split; reflexivity.
  - destruct (pretty_positive_digits p) as ((c & rest & E & Hc) & Hb & Ha & Hv).
    split; [|exact Ha]. unfold Addressing.int_of_string.
    change (pretty (Z.pos p)) with (pretty p).
    rewrite (lstrip_no_blank _ Hb), (rstrip_no_blank _ Hb).
    rewrite E in *. destruct (digit_not_sign c Hc) as [-> ->]. exact Hv.
  - destruct (pretty_positive_digits p) as (_ & Hb & Ha & Hv).
    change (pretty (Z.neg p)) with (String (Ascii.ascii_of_nat 45) (pretty p)).
    split; [|cbn; exact Ha]. unfold Addressing.int_of_string.
    assert (Hb' : Addressing.no_blank (String (Ascii.ascii_of_nat 45) (pretty p)) = true)
      by (cbn; exact Hb).
    rewrite (lstrip_no_blank _ Hb'), (rstrip_no_blank _ Hb').
    cbn [Z.eqb Addressing.code]. rewrite Hv. reflexivity.
Qed.

Lemma code_ascii_of_nat (n : Z) :
  (0 <= n < 256)%Z -> Addressing.code (Ascii.ascii_of_nat (Z.to_nat n)) = n.
Proof.
  intros H. unfold Addressing.code.
  rewrite Ascii.nat_ascii_embedding by lia. lia.
Qed.

(** The letter of a plain row: ASCII, and its own upper case. *)
Lemma chr_plain_row row :
  Addressing.plain_row row ->
  exists c, Addressing.chr (row + 65) = Addressing.Return c
            /\ Addressing.code c = (row + 65)%Z
            /\ Addressing.is_ascii c = true
            /\ Addressing.upper c = c.
Proof.
  intros [Hr Hl]. exists (Ascii.ascii_of_nat (Z.to_nat (row + 65))).
  assert (Hc := code_ascii_of_nat (row + 65) ltac:(lia)).
  split; [|split; [exact Hc|split]].
  - unfold Addressing.chr.
    replace ((row + 65 <? 0)%Z || (1114111 <? row + 65)%Z) with false
      by (symmetry; apply orb_false_intro; [apply Z.ltb_ge | apply Z.ltb_ge]; lia).
    replace (row + 65 <? 128)%Z with true by (symmetry; apply Z.ltb_lt; lia).
    reflexivity.
  - unfold Addressing.is_ascii. rewrite Hc. apply Z.ltb_lt. lia.
  - unfold Addressing.upper. rewrite Hc.
    destruct ((97 <=? row + 65)%Z && (row + 65 <=? 122)%Z) eqn:E; [|reflexivity].
    apply andb_prop in E as [E1 E2]. apply Z.leb_le in E1, E2. lia.
Qed.

(** The letter of a row between 32 and 57 is a lower-case letter, whose
    upper case is the letter of the row 32 above. *)
Lemma chr_lower_row row :
  (97 <= row + 65 <= 122)%Z ->
  exists c, Addressing.chr (row + 65) = Addressing.Return c
            /\ Addressing.is_ascii c = true
            /\ Addressing.code (Addressing.upper c) = (row + 65 - 32)%Z.
Proof.
  intros Hl. exists (Ascii.ascii_of_nat (Z.to_nat (row + 65))).
  assert (Hc := code_ascii_of_nat (row + 65) ltac:(lia)).
  split; [|split].
  - unfold Addressing.chr.
    replace ((row + 65 <? 0)%Z || (1114111 <? row + 65)%Z) with false
      by (symmetry; apply orb_false_intro; [apply Z.ltb_ge | apply Z.ltb_ge]; lia).
    replace (row + 65 <? 128)%Z with true by (symmetry; apply Z.ltb_lt; lia).
    reflexivity.
  - unfold Addressing.is_ascii. rewrite Hc. apply Z.ltb_lt. lia.
  - unfold Addressing.upper. rewrite Hc.
    replace ((97 <=? row + 65)%Z && (row + 65 <=? 122)%Z) with true
      by (symmetry; apply andb_true_intro; split; apply Z.leb_le; lia).
    unfold Addressing.code in *. rewrite Ascii.nat_ascii_embedding by lia. lia.
Qed.

(** The indices of a name made of an ASCII letter and the text of a number. *)
Lemma indices_of_letter_and_number c (n : Z) :
  Addressing.is_ascii c = true ->
  Addressing.indices_from_well_name (String c (pretty n))
  = Addressing.Return ((Addressing.code (Addressing.upper c) - 65)%Z, (n - 1)%Z).
Proof.
  intros Hc. destruct (int_of_string_pretty n) as [Hi Ha].
  unfold Addressing.indices_from_well_name. cbn [Addressing.all_ascii str_rest].
  rewrite Hc, Ha. cbn [andb Addressing.bind]. rewrite Hi. reflexivity.
Qed.

Lemma name_then_indices_plain row col :
  Addressing.plain_row row ->
  exists s, Addressing.well_name_from_indices row col = Addressing.Return s
            /\ Addressing.indices_from_well_name s = Addressing.Return (row, col).
Proof.
  intros Hr. destruct (chr_plain_row row Hr) as (c & Echr & Hcode & Hasc & Hup).
  exists (String c (pretty (col + 1)%Z)). split.
  - unfold Addressing.well_name_from_indices. rewrite Echr. reflexivity.
  - rewrite (indices_of_letter_and_number c _ Hasc), Hup, Hcode.
    f_equal. f_equal; lia.
Qed.

Lemma name_then_indices_lower row col :
  (97 <= row + 65 <= 122)%Z ->
  exists s, Addressing.well_name_from_indices row col = Addressing.Return s
            /\ Addressing.indices_from_well_name s
               = Addressing.Return ((row - 32)%Z, col).
Proof.
  intros Hl. destruct (chr_lower_row row Hl) as (c & Echr & Hasc & Hup).
  exists (String c (pretty (col + 1)%Z)). split.
  - unfold Addressing.well_name_from_indices. rewrite Echr. reflexivity.
  - rewrite (indices_of_letter_and_number c _ Hasc), Hup.
    f_equal. f_equal; lia.
Qed.

(** X1: the name of indices, then the indices of that name, are the same
    indices for a plain row; for a row whose letter is lower case, they are
    those of the row 32 above, as the name is read in upper case. *)
Theorem well_name_round_trip row col :
  (Addressing.plain_row row ->
   exists s, Addressing.well_name_from_indices row col = Addressing.Return s
             /\ Addressing.indices_from_well_name s = Addressing.Return (row, col))
  /\ ((97 <= row + 65 <= 122)%Z ->
      exists s, Addressing.well_name_from_indices row col = Addressing.Return s
                /\ Addressing.indices_from_well_name s
                   = Addressing.Return ((row - 32)%Z, col)).
Proof.
  split; [apply name_then_indices_plain | apply name_then_indices_lower].
Qed.

Lemma well_name_round_trip_witness :
  (exists s, Addressing.well_name_from_indices 1 14 = Addressing.Return s
             /\ Addressing.indices_from_well_name s = Addressing.Return (1, 14)%Z)
  /\ (exists s, Addressing.well_name_from_indices 32 0 = Addressing.Return s
                /\ Addressing.indices_from_well_name s = Addressing.Return (0, 0)%Z).
Proof.
  split.
  - apply (proj1 (well_name_round_trip 1 14)). split; lia.
  - apply (proj2 (well_name_round_trip 32 0)). lia.
Defined.











(** ** get_384_well_dispense_height *)

Lemma volume_conversion_factor_value : (11.43 / 112 == 1143 # 11200)%Q.
Proof. reflexivity. Qed.

Lemma dispense_height_cases current_volume volume_to_add :
  let total := (current_volume + volume_to_add)%Q in
  let linear := (total * (11.43 / 112) + 0.8)%Q in
  (linear < 1 -> (get_384_well_dispense_height current_volume volume_to_add).2 == 1)%Q
  /\ (~ linear < 1 ->
      (get_384_well_dispense_height current_volume volume_to_add).2 == linear)%Q.
Proof.
  cbv zeta. unfold get_384_well_dispense_height. cbn [snd]. split; intros H.
  - apply Qltb_lt in H. rewrite H. reflexivity.
  - apply Qltb_nlt in H. rewrite H. reflexivity.
Qed.

Lemma dispense_height_linear current_volume volume_to_add :
  let total := (current_volume + volume_to_add)%Q in
  let height := (get_384_well_dispense_height current_volume volume_to_add).2 in
  (total * (1143 # 11200) + 0.8 < 1 /\ height == 1)%Q
  \/ (1 <= total * (1143 # 11200) + 0.8 /\ height == total * (1143 # 11200) + 0.8)%Q.
Proof.
  cbv zeta.
  destruct (dispense_height_cases current_volume volume_to_add) as [Hlow Hhigh].
  cbv zeta in Hlow, Hhigh. rewrite volume_conversion_factor_value in Hlow, Hhigh.
  destruct (Qlt_le_dec ((current_volume + volume_to_add) * (1143 # 11200) + 0.8) 1) as [Hc|Hc].
  - left. split; [exact Hc | exact (Hlow Hc)].
  - right. split; [exact Hc | apply Hhigh; lra].
Qed.

(** X5: the dispense height is never below 1 mm; it is 1 mm for a total
    volume up to 1 ul and the linear height
    [total * (11.43 / 112) + 0.8] from 2 ul on; it does not fall when the
    total volume grows; the warning is logged exactly for a total above
    100 ul. *)
Theorem get_384_well_dispense_height_bounds current_volume volume_to_add :
  let total := (current_volume + volume_to_add)%Q in
  let r := get_384_well_dispense_height current_volume volume_to_add in
  (1 <= r.2)%Q
  /\ (total <= 1 -> r.2 == 1)%Q
  /\ (2 <= total -> r.2 == total * (11.43 / 112) + 0.8)%Q
  /\ (forall current_volume' volume_to_add',
        (total <= current_volume' + volume_to_add')%Q ->
        (r.2 <= (get_384_well_dispense_height current_volume' volume_to_add').2)%Q)
  /\ (r.1 = true <-> (100 < total)%Q).
Proof.
  cbv zeta. rewrite volume_conversion_factor_value.
  pose proof (dispense_height_linear current_volume volume_to_add) as H.
  cbv zeta in H.
  set (total := (current_volume + volume_to_add)%Q) in *.
  set (height := (get_384_well_dispense_height current_volume volume_to_add).2) in *.
  split; [destruct H as [[Hc ->]|[Hc ->]]; lra|].
  split; [intros H1; destruct H as [[Hc E]|[Hc E]]; [exact E | lra]|].
  split; [intros H2; destruct H as [[Hc E]|[Hc E]]; [lra | exact E]|].
  split.
  - intros cv' va' Hle.
    pose proof (dispense_height_linear cv' va') as H'. cbv zeta in H'.
    set (height' := (get_384_well_dispense_height cv' va').2) in *.
    destruct H as [[Hc E]|[Hc E]], H' as [[Hc' E']|[Hc' E']]; rewrite E, E'; lra.
  - unfold get_384_well_dispense_height. cbn [fst]. apply Qltb_lt.
Qed.

Lemma get_384_well_dispense_height_bounds_witness :
  ((get_384_well_dispense_height 0 0).2 == 1)%Q
  /\ ((get_384_well_dispense_height 40 20).2 == (40 + 20) * (11.43 / 112) + 0.8)%Q
  /\ ((get_384_well_dispense_height 0 0).2 <= (get_384_well_dispense_height 40 20).2)%Q.
Proof.
  split; [|split].
  - apply (proj1 (proj2 (get_384_well_dispense_height_bounds 0 0))).
    vm_compute. discriminate.
  - apply (proj1 (proj2 (proj2 (get_384_well_dispense_height_bounds 40 20)))).
    vm_compute. discriminate.
  - apply (proj1 (proj2 (proj2 (proj2 (get_384_well_dispense_height_bounds 0 0)))) 40%Q 20%Q).
    vm_compute. discriminate.
Defined.

(** ** offset_dispense: failures and the custom offset *)

Lemma offset_distance_for_outcome pipette well custom_offset_distance dispense_height w :
  (exists d, offset_distance_for pipette well custom_offset_distance dispense_height w
             = (Ok d, w))
  \/ (exists e w',
        offset_distance_for pipette well custom_offset_distance dispense_height w
        = (Raise e, w')
        /\ trace w' = trace w /\ all_volumes w' = all_volumes w
        /\ (e = AssertionError TipAboveWellTop \/ e = UnboundLocalError "PIPETTE_TIP_WIDTH")).
Proof.
  unfold offset_distance_for. destruct (truthy custom_offset_distance) as [d|].
  { left. exists d. reflexivity. }
  destruct (Qlt_le_dec dispense_height (depth well)) as [Hh|Hh].
  - destruct (tip_dict !! name pipette) as [[base taper]|] eqn:Hp.
    + left. eexists. unfold get_well_edge_offset.
      rewrite (bind_ok _ _ _ _ _ (get_well_edge_offset_assert_passes _ _ w Hh)).
      rewrite Hp. reflexivity.
    + right. eexists _, _. split.
      * unfold get_well_edge_offset.
        rewrite (bind_ok _ _ _ _ _ (get_well_edge_offset_assert_passes _ _ w Hh)).
        rewrite Hp. reflexivity.
      * cbn. auto.
  - right. exists (AssertionError TipAboveWellTop), w. split; [|auto].
    apply get_well_edge_offset_too_high. intros H. apply (Qlt_not_le _ _ H Hh).
Qed.

Lemma xy_offsets_outcome offset_direction d w :
  (exists x y, xy_offsets offset_direction d w = (Ok (x, y), w))
  \/ xy_offsets offset_direction d w = (Raise (RuntimeError unknown_direction_message), w).
Proof.
  unfold xy_offsets.
  repeat (match goal with |- context [String.eqb ?a ?b] => destruct (String.eqb a b) end;
          [left; eexists _, _; reflexivity|]).
  right. reflexivity.
Qed.

Lemma xy_offsets_known offset_direction d w :
  known_direction offset_direction ->
  exists x y, xy_offsets offset_direction d w = (Ok (x, y), w).
Proof.
  unfold known_direction. rewrite !elem_of_cons, elem_of_nil.
  intros [->|[->|[->|[->|[->|[]]]]]]; eexists _, _; reflexivity.
Qed.

Lemma dispensed_app t1 t2 : dispensed (t1 ++ t2) = dispensed t1 ++ dispensed t2.
Proof. unfold dispensed. apply omap_app. Qed.

(** X6: [offset_dispense] never changes the volume ledger.  When it
    succeeds, the commands it adds to the trace hold exactly one dispense,
    of the transfer volume.  When it fails, the robot has not been moved at
    all (the trace is as before), and the failure is one of: the
    destination is not a well, the dispense height is not below the well
    top, the pipette has no tip profile, the offset direction is unknown. *)
Theorem offset_dispense_all_or_nothing pipette well transfer_volume offset_direction
    custom_offset_distance dispense_height do_blowout dest_blowout_height do_touch_tip
    dispense_rate inspect_tips w :
  let r := offset_dispense pipette well transfer_volume offset_direction
             custom_offset_distance dispense_height do_blowout dest_blowout_height
             do_touch_tip dispense_rate inspect_tips w in
  all_volumes r.2 = all_volumes w
  /\ match r.1 with
     | Ok _ => exists cs, trace r.2 = trace w ++ cs /\ dispensed cs = [transfer_volume]
     | Raise e =>
         trace r.2 = trace w
         /\ e ∈ [AssertionError MustBeWellObject; AssertionError TipAboveWellTop;
                 UnboundLocalError "PIPETTE_TIP_WIDTH";
                 RuntimeError unknown_direction_message]
     | OutOfFuel => False
     end.
Proof.
  cbv zeta. destruct well as [well|l].
  2: { cbn. split; [reflexivity|]. split; [reflexivity|]. set_solver. }
  destruct (offset_distance_for_outcome pipette well custom_offset_distance
              dispense_height w) as [[d Hd]|(e & w' & Hd & Ht & Hv & He)].
  - destruct (xy_offsets_outcome offset_direction d w) as [(x & y & Hxy)|Hxy].
    + rewrite (offset_dispense_commands _ _ _ _ _ _ _ _ _ _ _ _ _ _ _ Hd Hxy).
      cbn [fst snd]. split; [reflexivity|]. eexists. split; [reflexivity|].
      unfold dispense_moves, blow_out_moves.
      destruct inspect_tips, do_blowout, do_touch_tip; reflexivity.
    + unfold offset_dispense.
      rewrite (bind_ok (mret well) _ w well w) by reflexivity.
      rewrite (bind_ok _ _ _ _ _ Hd), (bind_raise _ _ _ _ _ Hxy).
      cbn [fst snd]. split; [reflexivity|]. split; [reflexivity|]. set_solver.
  - unfold offset_dispense.
    rewrite (bind_ok (mret well) _ w well w) by reflexivity.
    rewrite (bind_raise _ _ _ _ _ Hd).
    cbn [fst snd]. split; [exact Hv|]. split; [exact Ht|].
    destruct He as [->| ->]; set_solver.
Qed.

(** X7: a custom offset distance that is not zero is used as it is: with a
    known direction the dispense succeeds for every pipette, also one
    without a tip profile, and at every dispense height, also above the
    well top; the lateral move goes to that distance.  A custom offset
    distance of 0 counts as none given. *)
Theorem offset_dispense_custom_offset pipette well transfer_volume offset_direction
    d dispense_height do_blowout dest_blowout_height do_touch_tip dispense_rate
    inspect_tips w :
  ~ (d == 0)%Q ->
  known_direction offset_direction ->
  (exists x y,
     xy_offsets offset_direction d w = (Ok (x, y), w)
     /\ offset_dispense pipette (AWell well) transfer_volume offset_direction (Some d)
          dispense_height do_blowout dest_blowout_height do_touch_tip dispense_rate
          inspect_tips w
        = (Ok tt,
           extend w
             (dispense_moves pipette well transfer_volume x y dispense_height
                dispense_rate inspect_tips
              ++ (if do_blowout
                  then blow_out_moves pipette well x y dispense_height dest_blowout_height
                  else [])
              ++ (if do_touch_tip then [TouchTip pipette (Some 20%Q)] else []))))
  /\ offset_dispense pipette (AWell well) transfer_volume offset_direction (Some 0%Q)
       dispense_height do_blowout dest_blowout_height do_touch_tip dispense_rate
       inspect_tips w
     = offset_dispense pipette (AWell well) transfer_volume offset_direction None
         dispense_height do_blowout dest_blowout_height do_touch_tip dispense_rate
         inspect_tips w.
Proof.
  intros Hd Hdir. split; [|reflexivity].
  destruct (xy_offsets_known offset_direction d w Hdir) as (x & y & Hxy).
  exists x, y. split; [exact Hxy|].
  apply (offset_dispense_commands _ _ _ _ _ _ _ _ _ _ _ _ d); [|exact Hxy].
  unfold offset_distance_for, truthy.
  destruct (Qeq_bool d 0) eqn:E; [|reflexivity].
  apply Qeq_bool_iff in E. contradiction.
Qed.

Lemma offset_dispense_custom_offset_witness :
  offset_dispense p1000 (AWell assay_a1) 20 "right" (Some 1.5%Q) 12 false 8 false 1 false
    start
  = (Ok tt,
     extend start
       [MoveTo p1000 (bottom assay_a1 12) false;
        MoveTo p1000 (move (bottom assay_a1 12) {| px := 1.5; py := 0; pz := 0 |}) true;
        Dispense p1000 20 None (Some 1%Q);
        MoveTo p1000 (bottom assay_a1 12) true]).
Proof.
  destruct (offset_dispense_custom_offset p1000 assay_a1 20 "right" 1.5 12 false 8 false
              1 false start) as [(x & y & Hxy & H) _].
  - intros H. vm_compute in H. discriminate H.
  - unfold known_direction. set_solver.
  - rewrite H. injection Hxy as <- <-. reflexivity.
Defined.

(** X8: on a well 11.43 mm deep, as those of the 384-well assay plate, the
    height that [get_384_well_dispense_height] gives is below the well top
    exactly for a total volume below (11.43 - 0.8) * 112 / 11.43 (about
    104.16 ul): from that volume on, also for the nominal 112 ul of the
    well, an [offset_dispense] at that height without a custom offset fails
    with the height assertion before the robot moves. *)
Theorem get_384_well_dispense_height_overfull pipette well current_volume volume_to_add
    transfer_volume offset_direction do_blowout dest_blowout_height do_touch_tip
    dispense_rate inspect_tips w :
  (depth well == 11.43)%Q ->
  let total := (current_volume + volume_to_add)%Q in
  let height := (get_384_well_dispense_height current_volume volume_to_add).2 in
  ((height < depth well)%Q <-> (total < overfull_volume)%Q)
  /\ ((overfull_volume <= total)%Q ->
      offset_dispense pipette (AWell well) transfer_volume offset_direction None height
        do_blowout dest_blowout_height do_touch_tip dispense_rate inspect_tips w
      = (Raise (AssertionError TipAboveWellTop), w))
  /\ (104 < overfull_volume /\ overfull_volume < 105)%Q.
Proof.
  intros Hdepth. cbv zeta.
  pose proof (dispense_height_linear current_volume volume_to_add) as H. cbv zeta in H.
  set (total := (current_volume + volume_to_add)%Q) in *.
  set (height := (get_384_well_dispense_height current_volume volume_to_add).2) in *.
  assert (Ev : (overfull_volume == 119056 # 1143)%Q) by reflexivity.
  assert (Hiff : (height < depth well)%Q <-> (total < overfull_volume)%Q).
  { rewrite Hdepth, Ev. destruct H as [[Hc ->]|[Hc ->]]; split; intros; lra. }
  split; [exact Hiff|]. split; [|rewrite Ev; split; reflexivity].
  intros Hfull. unfold offset_dispense.
  rewrite (bind_ok (mret well) _ w well w) by reflexivity.
  apply bind_raise. unfold offset_distance_for, truthy.
  apply get_well_edge_offset_too_high. rewrite Hiff. lra.
Qed.

Lemma get_384_well_dispense_height_overfull_witness :
  offset_dispense p300m (AWell assay_a1) 20 "left" None
    (get_384_well_dispense_height 85 20).2 false 8 false 1 false start
  = (Raise (AssertionError TipAboveWellTop), start).
Proof.
  apply (proj1 (proj2 (get_384_well_dispense_height_overfull p300m assay_a1 85 20 20 "left"
                         false 8 false 1 false start ltac:(reflexivity)))).
  vm_compute. discriminate.
Defined.

(** ** What the ledger functions never change *)

Section Preserves.
Variable R : World -> World -> Prop.
Hypothesis R_refl : forall w, R w w.
Hypothesis R_trans : forall w1 w2 w3, R w1 w2 -> R w2 w3 -> R w1 w3.

Lemma preserves_pure {A} (m : M A) : (forall w, (m w).2 = w) -> preserves R m.
Proof. intros H w. rewrite H. apply R_refl. Qed.

Lemma preserves_bind {A B} (m : M A) (f : A -> M B) :
  preserves R m -> (forall a, preserves R (f a)) -> preserves R (m ≫= f).
Proof.
  intros Hm Hf w. unfold mbind, M_bind. specialize (Hm w).
  destruct (m w) as [[a|e|] w']; cbn [snd] in *; [|exact Hm..].
  exact (R_trans _ _ _ Hm (Hf a w')).
Qed.

Lemma preserves_for_each {A} (l : list A) (body : A -> M unit) :
  (forall x, preserves R (body x)) -> preserves R (for_each l body).
Proof.
  intros Hb. induction l as [|x l IH]; cbn [for_each].
  - apply preserves_pure. reflexivity.
  - apply preserves_bind; [apply Hb | intros _; exact IH].
Qed.

Lemma preserves_for_range_from (body : nat -> M unit) count :
  (forall i, preserves R (body i)) ->
  forall first last, preserves R (for_range_from first count last body).
Proof.
  intros Hb. induction count as [|count IH]; intros first last; cbn [for_range_from].
  - apply preserves_pure. reflexivity.
  - apply preserves_bind; [apply Hb | intros _; apply IH].
Qed.

Lemma preserves_dict_get {V} (d : gmap string V) key : preserves R (dict_get d key).
Proof. apply preserves_pure. intros w. unfold dict_get. destruct (d !! key); reflexivity. Qed.

Lemma preserves_read_local {A} var (v : option A) : preserves R (read_local var v).
Proof. apply preserves_pure. intros w. destruct v; reflexivity. Qed.

Lemma preserves_list_get {A} (l : list A) i : preserves R (list_get l i).
Proof. apply preserves_pure. intros w. unfold list_get. destruct (l !! i); reflexivity. Qed.

Lemma preserves_assert cond a : preserves R (assert_ cond a).
Proof. apply preserves_pure. intros w. destruct cond; reflexivity. Qed.

Lemma preserves_str_first s : preserves R (str_first s).
Proof. apply preserves_pure. intros w. destruct s; reflexivity. Qed.

Lemma preserves_py_div x y : preserves R (py_div x y).
Proof. apply preserves_pure. intros w. unfold py_div. destruct (Qeq_bool y 0); reflexivity. Qed.

End Preserves.

Lemma same_shape_refl w : same_shape w w.
Proof. intros p. reflexivity. Qed.

Lemma same_shape_trans w1 w2 w3 : same_shape w1 w2 -> same_shape w2 w3 -> same_shape w1 w3.
Proof. intros H1 H2 p. rewrite H2. apply H1. Qed.

Lemma only_volumes_refl w : only_volumes w w.
Proof. split; [apply same_shape_refl | split; reflexivity]. Qed.

Lemma only_volumes_trans w1 w2 w3 :
  only_volumes w1 w2 -> only_volumes w2 w3 -> only_volumes w1 w3.
Proof.
  intros (S1 & T1 & O1) (S2 & T2 & O2).
  split; [exact (same_shape_trans _ _ _ S1 S2) | split; congruence].
Qed.

Lemma only_volumes_on_refl plates w : only_volumes_on plates w w.
Proof. split; [apply only_volumes_refl | reflexivity]. Qed.

Lemma only_volumes_on_trans plates w1 w2 w3 :
  only_volumes_on plates w1 w2 -> only_volumes_on plates w2 w3 ->
  only_volumes_on plates w1 w3.
Proof.
  intros [V1 F1] [V2 F2]. split; [exact (only_volumes_trans _ _ _ V1 V2)|].
  intros p Hp. rewrite (F2 p Hp). apply F1, Hp.
Qed.

Lemma preserves_weaken {A} (R R' : World -> World -> Prop) (m : M A) :
  (forall w w', R w w' -> R' w w') -> preserves R m -> preserves R' m.
Proof. intros H Hm w. apply H, Hm. Qed.

Lemma update_volume_only_volumes_on plates f plate well :
  plate ∈ plates -> preserves (only_volumes_on plates) (update_volume f plate well).
Proof.
  intros Hin w. unfold update_volume.
  rewrite (bind_ok get_world _ w w w) by reflexivity.
  destruct (all_volumes w !! plate) as [[lw vols]|] eqn:Ep.
  2: { rewrite (bind_raise _ _ _ _ _ (dict_get_missing _ _ w Ep)).
       apply only_volumes_on_refl. }
  rewrite (bind_ok _ _ _ _ _ (dict_get_ok _ _ _ w Ep)). cbn [fst snd].
  destruct (vols !! well) as [v|] eqn:Ev.
  2: { rewrite (bind_raise _ _ _ _ _ (dict_get_missing _ _ w Ev)).
       apply only_volumes_on_refl. }
  rewrite (bind_ok _ _ _ _ _ (dict_get_ok _ _ _ w Ev)).
  cbn. split; [split; [|split; reflexivity]|].
  - intros p. unfold shape, set_volumes. cbn [all_volumes].
    destruct (decide (p = plate)) as [->|Hp].
    + rewrite lookup_insert_eq, Ep. cbn. f_equal. f_equal.
      rewrite dom_insert_L. apply (elem_of_dom_2 (D := gset string)) in Ev.
      apply subseteq_union_1_L, singleton_subseteq_l, Ev.
    + rewrite lookup_insert_ne by congruence. reflexivity.
  - intros p Hp. unfold set_volumes. cbn [all_volumes].
    apply lookup_insert_ne. intros ->. contradiction.
Qed.

Lemma fan_out_pure plate n start x a v w : (fan_out plate n start x a v w).2 = w.
Proof.
  unfold fan_out. destruct (Nat.eqb n 1); [reflexivity|].
  destruct (Nat.eqb n 8).
  { unfold assert_. destruct (String.eqb start "A"); [|reflexivity].
    rewrite (bind_ok (mret tt) _ w tt w) by reflexivity.
    unfold dict_get. destruct (columns_by_name plate !! _); reflexivity. }
  destruct (Nat.eqb n 16); [|reflexivity].
  destruct (String.eqb start "A" || String.eqb start "B"); [|reflexivity].
  rewrite (bind_ok (mret tt) _ w tt w) by reflexivity.
  unfold dict_get. destruct (columns_by_name plate !! _); reflexivity.
Qed.

Lemma well_lists_pure n src dst sl sn sstart dp dn dstart w :
  (well_lists n src dst sl sn sstart dp dn dstart w).2 = w.
Proof.
  unfold well_lists. destruct (Z.eqb n 1); [reflexivity|].
  destruct (Z.eqb n 8); [|reflexivity].
  unfold mbind, M_bind.
  pose proof (fan_out_pure sl sn sstart src SourceMustStartAtRowA "source_row" w) as Hs.
  destruct (fan_out sl sn sstart src _ _ w) as [[sf|e|] w1]; cbn [snd] in Hs; subst w1;
    [|reflexivity..].
  destruct dp as [dp|], dstart as [dstart|]; try reflexivity.
  pose proof (fan_out_pure dp dn dstart dst DestinationMustStartAtRowA "destination_row" w)
    as Hd.
  destruct (fan_out dp dn dstart dst _ _ w) as [[df|e|] w1]; cbn [snd] in Hd; subst w1;
    reflexivity.
Qed.

Lemma destination_info_pure dst w : (destination_info dst w).2 = w.
Proof.
  unfold destination_info. rewrite (bind_ok get_world _ w w w) by reflexivity.
  destruct (str_contains "Fixed Trash" (parent dst)); [reflexivity|].
  unfold dict_get. destruct (all_volumes w !! parent dst) as [e|]; [|reflexivity].
  rewrite (bind_ok (mret e) _ w e w) by reflexivity.
  destruct (well_name dst); reflexivity.
Qed.

Lemma apply_well_lists_only_volumes_on transfer_volume src dst not_trash sfan dfan :
  preserves (only_volumes_on [parent src; parent dst])
    (apply_well_lists transfer_volume src dst not_trash sfan dfan).
Proof.
  pose proof (only_volumes_on_refl [parent src; parent dst]) as Hr.
  pose proof (only_volumes_on_trans [parent src; parent dst]) as Ht.
  unfold apply_well_lists.
  apply preserves_bind; [exact Ht | apply preserves_read_local, Hr |].
  intros [um swl].
  apply preserves_bind; [exact Ht | |].
  { apply preserves_for_each; [exact Hr | exact Ht |].
    intros s. apply update_volume_only_volumes_on. rewrite !elem_of_cons. tauto. }
  intros _. destruct not_trash; [|apply preserves_pure; [exact Hr | reflexivity]].
  apply preserves_bind; [exact Ht | apply preserves_read_local, Hr |].
  intros [dm dwl].
  apply preserves_for_each; [exact Hr | exact Ht |].
  intros d. apply update_volume_only_volumes_on. rewrite !elem_of_cons. tauto.
Qed.

Lemma adjust_well_volume_only_volumes_on transfer_volume source destination num_channels :
  preserves
    (only_volumes_on [parent (target_well source); parent (target_well destination)])
    (adjust_well_volume transfer_volume source destination num_channels).
Proof.
  pose proof (only_volumes_on_refl
                [parent (target_well source); parent (target_well destination)]) as Hr.
  pose proof (only_volumes_on_trans
                [parent (target_well source); parent (target_well destination)]) as Ht.
  unfold adjust_well_volume.
  apply preserves_bind; [exact Ht | apply preserves_pure; [exact Hr | reflexivity] |].
  intros w0.
  apply preserves_bind; [exact Ht | apply preserves_dict_get, Hr |]. intros e.
  apply preserves_bind; [exact Ht | apply preserves_str_first, Hr |]. intros start.
  apply preserves_bind;
    [exact Ht | apply preserves_pure; [exact Hr | apply destination_info_pure] |].
  intros info.
  apply preserves_bind;
    [exact Ht | apply preserves_pure; [exact Hr | intros w; apply well_lists_pure] |].
  intros fans. apply apply_well_lists_only_volumes_on.
Qed.

Lemma adjust_well_volume_same_shape transfer_volume source destination num_channels :
  preserves same_shape (adjust_well_volume transfer_volume source destination num_channels).
Proof.
  eapply preserves_weaken; [|apply adjust_well_volume_only_volumes_on].
  intros w w' [[H _] _]. exact H.
Qed.

(** X9: whatever its arguments and whether it returns or raises,
    [adjust_well_volume] changes nothing but volumes of wells that the
    ledger already tracks on the plate of the source or of the destination:
    the ledger keeps its plates, their labware and their sets of tracked
    wells, every other plate keeps all its volumes, and nothing is sent to
    the robot or printed. *)
Theorem adjust_well_volume_frame transfer_volume source destination num_channels w :
  let w' := (adjust_well_volume transfer_volume source destination num_channels w).2 in
  (forall p, shape w' p = shape w p)
  /\ (forall p, p <> parent (target_well source) ->
                p <> parent (target_well destination) ->
                all_volumes w' !! p = all_volumes w !! p)
  /\ trace w' = trace w
  /\ stdout w' = stdout w.
Proof.
  cbv zeta.
  destruct (adjust_well_volume_only_volumes_on transfer_volume source destination
              num_channels w) as [(Hs & Ht & Ho) Hf].
  split; [exact Hs|]. split; [|split; assumption].
  intros p H1 H2. apply Hf. rewrite !elem_of_cons, elem_of_nil. tauto.
Qed.

Lemma adjust_well_volume_frame_witness :
  all_volumes
    (adjust_well_volume 20 (AWell buffer) (AWell assay_a1) 1 start).2
  !! display deepwell_plate
  = all_volumes start !! display deepwell_plate.
Proof.
  apply (proj1 (proj2 (adjust_well_volume_frame 20 (AWell buffer) (AWell assay_a1) 1 start)));
    discriminate.
Defined.

(** ** adjust_well_volume: failures *)

Lemma update_volume_untracked f plate well w lw vols :
  all_volumes w !! plate = Some (lw, vols) ->
  vols !! well = None ->
  update_volume f plate well w = (Raise (KeyError well), w).
Proof.
  intros Ep Ev. unfold update_volume.
  rewrite (bind_ok get_world _ w w w) by reflexivity.
  rewrite (bind_ok _ _ _ _ _ (dict_get_ok _ _ _ w Ep)). cbn [fst snd].
  apply bind_raise, dict_get_missing, Ev.
Qed.

(** X10: a failing adjustment is not undone.  A single-channel transfer
    from a tracked well into a well that the ledger does not track, on a
    plate that it has, raises [KeyError] on the destination well name after
    the volume has been taken from the source: the source well has lost the
    transfer volume, and no other volume has changed. *)
Theorem adjust_well_volume_not_atomic transfer_volume src dst w dl dv :
  registered w src ->
  is_trash dst = false ->
  well_name dst <> "" ->
  all_volumes w !! parent dst = Some (dl, dv) ->
  dv !! well_name dst = None ->
  exists w',
    adjust_well_volume transfer_volume (AWell src) (AWell dst) 1 w
    = (Raise (KeyError (well_name dst)), w')
    /\ (vol w' (parent src) (well_name src)
        == vol w (parent src) (well_name src) - transfer_volume)%Q
    /\ (forall p n, (p, n) <> well_key src -> vol w' p n = vol w p n).
Proof.
  intros Hs Ht Hnd Ed Hd.
  destruct (registered_lookup w src Hs) as (Hn & sl & sv & Es & [v Hv]).
  rewrite (adjust_well_volume_stages transfer_volume (AWell src) (AWell dst) 1 w sl sv
             (true, Some dl, length (rows dl), Some (start_row dst))
             (Some (1%Z, [src]), Some (1%Z, [dst])) Es Hn
             (destination_info_plate dst w dl dv Ht Ed Hnd)
             (well_lists_single _ _ _ _ _ _ _ _ _)).
  cbn [fst snd]. unfold apply_well_lists.
  rewrite (bind_ok (read_local "source_well_list" (Some (1%Z, [src]))) _ w (1%Z, [src]) w)
    by reflexivity.
  unfold sub_volume.
  rewrite (bind_ok _ _ _ _ _
             (for_each_update (fun x => (x - transfer_volume * inject_Z 1)%Q) (parent src)
                [src] w sl sv Es ltac:(repeat constructor; eexists; exact Hv))).
  cbn [foldl].
  set (w1 := set_volumes w _).
  rewrite (bind_ok (read_local "destination_well_list" (Some (1%Z, [dst]))) _ w1
             (1%Z, [dst]) w1) by reflexivity.
  exists w1. split; [|split].
  - cbn [for_each]. apply bind_raise. unfold add_volume.
    destruct (decide (parent dst = parent src)) as [E|N].
    + rewrite E in Ed. rewrite Es in Ed. injection Ed as <- <-.
      apply (update_volume_untracked _ _ _ w1 sl
               (alter (fun x => (x - transfer_volume * inject_Z 1)%Q) (well_name src) sv)).
      * subst w1. cbn [set_volumes all_volumes target_well]. rewrite E.
        apply lookup_insert_eq.
      * rewrite lookup_alter_ne; [exact Hd|]. intros En. rewrite En in Hv. congruence.
    + apply (update_volume_untracked _ _ _ w1 dl dv); [|exact Hd].
      subst w1. cbn [set_volumes all_volumes target_well].
      rewrite lookup_insert_ne by congruence. exact Ed.
  - unfold vol, volume_of. subst w1. cbn [set_volumes all_volumes].
    rewrite lookup_insert_eq, Es. cbn. rewrite lookup_alter_eq, Hv. cbn.
    change (inject_Z 1) with 1%Q. ring.
  - intros p n Hk. unfold vol, volume_of, well_key in *. subst w1.
    cbn [set_volumes all_volumes].
    destruct (decide (p = parent src)) as [->|Np].
    + rewrite lookup_insert_eq, Es. cbn. rewrite lookup_alter_ne; [reflexivity|].
      intros En. apply Hk. rewrite En. reflexivity.
    + rewrite lookup_insert_ne by congruence. reflexivity.
Qed.

Lemma adjust_well_volume_not_atomic_witness :
  exists w',
    adjust_well_volume 20 (AWell buffer)
      (AWell (plate_well (display assay_plate) 11.43 3.6 16 0)) 1 start
    = (Raise (KeyError "Q1"), w')
    /\ (vol w' (display reservoir_plate) "A1" == - 20)%Q.
Proof.
  destruct (adjust_well_volume_not_atomic 20 buffer
              (plate_well (display assay_plate) 11.43 3.6 16 0) start
              assay_plate (zero_volumes assay_plate)) as (w' & E & Hv & _).
  - split; [discriminate | vm_compute; eexists; reflexivity].
  - reflexivity.
  - discriminate.
  - reflexivity.
  - vm_compute. reflexivity.
  - exists w'. split; [exact E|]. rewrite Hv. vm_compute. reflexivity.
Defined.

(** X11: the order of the checks of [adjust_well_volume].  A source whose
    plate the ledger does not have, as the trash, raises [KeyError] on the
    plate name whatever the other arguments; with the source plate found
    and the source well named, a destination that is not the trash and
    whose plate the ledger does not have raises [KeyError] on that plate
    name; with both sides found, a channel count other than 1 and 8 raises
    [ValueError].  In all three cases nothing has changed. *)
Theorem adjust_well_volume_argument_errors transfer_volume source destination
    num_channels w :
  let src := target_well source in
  let dst := target_well destination in
  (all_volumes w !! parent src = None ->
   adjust_well_volume transfer_volume source destination num_channels w
   = (Raise (KeyError (parent src)), w))
  /\ (is_Some (all_volumes w !! parent src) -> well_name src <> "" ->
      is_trash dst = false -> all_volumes w !! parent dst = None ->
      adjust_well_volume transfer_volume source destination num_channels w
      = (Raise (KeyError (parent dst)), w))
  /\ (is_Some (all_volumes w !! parent src) -> well_name src <> "" ->
      (is_trash dst = false ->
       well_name dst <> "" /\ is_Some (all_volumes w !! parent dst)) ->
      num_channels <> 1%Z -> num_channels <> 8%Z ->
      adjust_well_volume transfer_volume source destination num_channels w
      = (Raise (ValueError "Wrong number of channels. num_channels should be 1 or 8"), w)).
Proof.
  cbv zeta. split; [|split].
  - intros Es. unfold adjust_well_volume.
    rewrite (bind_ok get_world _ w w w) by reflexivity.
    apply bind_raise, dict_get_missing, Es.
  - intros [[sl sv] Es] Hn Ht Ed. unfold adjust_well_volume.
    rewrite (bind_ok get_world _ w w w) by reflexivity.
    rewrite (bind_ok _ _ _ _ _ (dict_get_ok _ _ _ w Es)). cbn [fst snd].
    rewrite (bind_ok _ _ _ _ _ (str_first_ok _ w Hn)).
    apply bind_raise. unfold destination_info, is_trash in *.
    rewrite (bind_ok get_world _ w w w) by reflexivity. rewrite Ht.
    apply bind_raise, dict_get_missing, Ed.
  - intros [[sl sv] Es] Hn Hd N1 N8.
    destruct (destination_info_ok (target_well destination) w) as (info & Hinfo & _).
    { intros Ht. destruct (Hd Ht) as (Hnd & [dl dv] & Ed). split; [exact Hnd|].
      exists dl, dv. exact Ed. }
    apply (adjust_well_volume_fans_raise transfer_volume source destination num_channels w
             sl sv info _ Es Hn Hinfo).
    unfold well_lists.
    destruct (Z.eqb_spec num_channels 1) as [|_]; [contradiction|].
    destruct (Z.eqb_spec num_channels 8) as [|_]; [contradiction|].
    reflexivity.
Qed.

Lemma adjust_well_volume_argument_errors_witness :
  adjust_well_volume 20 (AWell fixed_trash) (AWell assay_a1) 1 start
  = (Raise (KeyError "Opentrons Fixed Trash on 12"), start)
  /\ adjust_well_volume 20 (AWell buffer)
       (AWell (plate_well "Plate on 3" 10 8 0 0)) 1 start
     = (Raise (KeyError "Plate on 3"), start)
  /\ adjust_well_volume 20 (AWell buffer) (AWell assay_a1) 4 start
     = (Raise (ValueError "Wrong number of channels. num_channels should be 1 or 8"), start).
Proof.
  split; [|split].
  - apply (proj1 (adjust_well_volume_argument_errors 20 (AWell fixed_trash) (AWell assay_a1)
                    1 start)).
    reflexivity.
  - apply (proj1 (proj2 (adjust_well_volume_argument_errors 20 (AWell buffer)
                           (AWell (plate_well "Plate on 3" 10 8 0 0)) 1 start))).
    + vm_compute. eexists. reflexivity.
    + discriminate.
    + reflexivity.
    + reflexivity.
  - apply (proj2 (proj2 (adjust_well_volume_argument_errors 20 (AWell buffer)
                           (AWell assay_a1) 4 start))).
    + vm_compute. eexists. reflexivity.
    + discriminate.
    + intros _. split; [discriminate | vm_compute; eexists; reflexivity].
    + discriminate.
    + discriminate.
Defined.

(** ** reset_well_volumes *)

Lemma zero_volumes_lookup (plate : Labware) n :
  zero_volumes plate !! n
  = if decide (n ∈ wells_by_name plate) then Some 0%Q else None.
Proof.
  unfold zero_volumes. induction (wells_by_name plate) as [|x l IH]; cbn.
  - rewrite lookup_empty. destruct (decide (n ∈ [])) as [H|_]; [|reflexivity].
    apply elem_of_nil in H. contradiction.
  - destruct (decide (n = x)) as [->|N].
    + rewrite lookup_insert_eq. destruct (decide (x ∈ x :: l)) as [_|H]; [reflexivity|].
      exfalso. apply H. rewrite elem_of_cons. tauto.
    + rewrite lookup_insert_ne by congruence. rewrite IH.
      destruct (decide (n ∈ l)) as [H|H], (decide (n ∈ x :: l)) as [H'|H'];
        try reflexivity; exfalso.
      * apply H'. rewrite elem_of_cons. tauto.
      * apply elem_of_cons in H'. tauto.
Qed.

Lemma sum_volumes_zero (vols : gmap string Q) :
  (forall n v, vols !! n = Some v -> v = 0%Q) -> (sum_volumes vols == 0)%Q.
Proof.
  unfold sum_volumes. induction vols as [|n v vols Hn IH] using map_ind; intros H.
  - rewrite map_fold_empty. reflexivity.
  - rewrite (map_fold_insert Qeq (fun _ v acc => (v + acc)%Q) 0%Q n v vols).
    + rewrite IH.
      * rewrite (H n v (lookup_insert_eq _ _ _)). reflexivity.
      * intros k u Hk. apply (H k u). rewrite lookup_insert_ne; [exact Hk|].
        intros ->. congruence.
    + intros j z a b Hab. rewrite Hab. reflexivity.
    + intros. ring.
    + exact Hn.
Qed.

Lemma reset_well_volumes_run w :
  reset_well_volumes w
  = (Ok tt, set_volumes w ((fun val => (val.1, zero_volumes val.1)) <$> all_volumes w)).
Proof. reflexivity. Qed.

Lemma reset_same_plates (w1 w2 : World) :
  (forall p, shape w2 p = shape w1 p) ->
  all_volumes (reset_well_volumes w2).2 = all_volumes (reset_well_volumes w1).2.
Proof.
  intros H. rewrite !reset_well_volumes_run. unfold set_volumes. cbn [snd all_volumes].
  apply map_eq. intros p. rewrite !lookup_fmap. specialize (H p). unfold shape in H.
  destruct (all_volumes w2 !! p) as [[l2 v2]|], (all_volumes w1 !! p) as [[l1 v1]|];
    cbn in *; try congruence.
Qed.

(** X12: [reset_well_volumes] returns normally and sends nothing to the
    robot; it keeps the plates of the ledger and their labware; afterwards
    the wells tracked on a plate are exactly the wells of that labware,
    each with volume 0, whatever was tracked before; every plate total is
    0. *)
Theorem reset_well_volumes_zero w :
  let r := reset_well_volumes w in
  r.1 = Ok tt
  /\ trace r.2 = trace w
  /\ (forall p, fst <$> all_volumes r.2 !! p = fst <$> all_volumes w !! p)
  /\ (forall p n,
        volume_of r.2 p n
        = val ← all_volumes w !! p ;
          if decide (n ∈ wells_by_name val.1) then Some 0%Q else None)
  /\ (forall p, plate_total r.2 p == 0)%Q.
Proof.
  cbv zeta. rewrite reset_well_volumes_run. unfold set_volumes. cbn [fst snd trace].
  split; [reflexivity|]. split; [reflexivity|]. split; [|split].
  - intros p. cbn [all_volumes]. rewrite lookup_fmap.
    destruct (all_volumes w !! p) as [[lw vols]|]; reflexivity.
  - intros p n. unfold volume_of. cbn [all_volumes]. rewrite lookup_fmap.
    destruct (all_volumes w !! p) as [[lw vols]|]; [|reflexivity].
    cbn. apply zero_volumes_lookup.
  - intros p. unfold plate_total. cbn [all_volumes]. rewrite lookup_fmap.
    destruct (all_volumes w !! p) as [[lw vols]|]; [|reflexivity].
    cbn. apply sum_volumes_zero. intros n v. rewrite zero_volumes_lookup.
    destruct (decide (n ∈ wells_by_name lw)); congruence.
Qed.

(** X13: a reset forgets every adjustment: the ledger after
    [adjust_well_volume], whatever its arguments and whether it returned or
    raised, followed by [reset_well_volumes] is the ledger after the reset
    alone; and a second reset changes nothing. *)
Theorem reset_well_volumes_forgets transfer_volume source destination num_channels w :
  all_volumes
    (reset_well_volumes
       (adjust_well_volume transfer_volume source destination num_channels w).2).2
  = all_volumes (reset_well_volumes w).2
  /\ reset_well_volumes (reset_well_volumes w).2 = reset_well_volumes w.
Proof.
  split.
  - apply reset_same_plates.
    apply (adjust_well_volume_same_shape transfer_volume source destination num_channels w).
  - rewrite !reset_well_volumes_run. cbn [snd]. f_equal. unfold set_volumes.
    cbn [all_volumes trace stdout]. f_equal.
    rewrite <- map_fmap_compose. apply map_fmap_ext. intros p [lw vols] _. reflexivity.
Qed.

(** ** Sequences of single-channel transfers *)

Lemma between_tracked_wells_moved w w' d t x :
  ledger_moved w w' d t -> between_tracked_wells w x -> between_tracked_wells w' x.
Proof.
  intros Hm (Hs & Hd & Hts & Htd).
  repeat split; try assumption; eapply registered_moved; eauto.
Qed.

Lemma run_transfers_well_change (l : list (Q * Well * Well)) :
  forall w,
    Forall (between_tracked_wells w) l ->
    exists w',
      run_transfers l w = (Ok tt, w')
      /\ ledger_moved w w' (fun p n => well_change p n l) (fun p => net_change p l).
Proof.
  induction l as [|t l IH]; intros w Hl.
  - exists w. split; [reflexivity|]. apply ledger_moved_refl.
  - inversion Hl as [|? ? (Hs & Hd & Hts & Htd) Hl']; subst.
    destruct (adjust_single_channel_moved t.1.1 (AWell t.1.2) (AWell t.2) w Hs
                (fun _ => Hd)) as (w1 & E1 & Hm1).
    cbn [target_well] in Hm1. rewrite Htd in Hm1.
    destruct (IH w1) as (w' & E & Hm).
    { eapply Forall_impl; [exact Hl'|]. intros u. apply (between_tracked_wells_moved _ _ _ _ _ Hm1). }
    exists w'. split.
    + unfold run_transfers in *. cbn [for_each].
      rewrite (bind_ok _ _ _ _ _ E1). exact E.
    + eapply ledger_moved_ext; [exact (ledger_moved_trans _ _ _ _ _ _ _ Hm1 Hm)| |].
      * intros p n. cbn [well_change]. unfold at_well, well_key. split_cases; ring.
      * intros p. cbn [net_change]. split_cases; ring.
Qed.

Lemma well_change_app p n l1 l2 :
  (well_change p n (l1 ++ l2) == well_change p n l1 + well_change p n l2)%Q.
Proof.
  induction l1 as [|t l1 IH]; cbn [app well_change]; [ring | rewrite IH; ring].
Qed.

Lemma well_change_opposite p n l :
  (well_change p n (opposite <$> l) == - well_change p n l)%Q.
Proof.
  induction l as [|t l IH]; cbn [fmap list_fmap well_change]; [reflexivity|].
  change (list_fmap _ _ opposite l) with (opposite <$> l). rewrite IH.
  unfold opposite. cbn [fst snd]. ring.
Qed.

Lemma well_change_permutation p n l l' :
  l ≡ₚ l' -> (well_change p n l == well_change p n l')%Q.
Proof.
  induction 1 as [|t l l' _ IH|t u l|l1 l2 l3 _ IH1 _ IH2]; cbn [well_change].
  - reflexivity.
  - rewrite IH. reflexivity.
  - ring.
  - rewrite IH1. exact IH2.
Qed.

(** X14: the order of single-channel transfers does not matter.  For
    transfers between tracked wells off the trash, [adjust_well_volume]
    applied along a list and along any permutation of it both return, with
    equal volumes in every well: the initial volume plus what the transfers
    bring to the well minus what they take from it. *)
Theorem run_transfers_any_order (l l' : list (Q * Well * Well)) w :
  l ≡ₚ l' ->
  Forall (between_tracked_wells w) l ->
  exists w1 w2,
    run_transfers l w = (Ok tt, w1)
    /\ run_transfers l' w = (Ok tt, w2)
    /\ (forall p n, vol w1 p n == vol w p n + well_change p n l)%Q
    /\ (forall p n, vol w2 p n == vol w1 p n)%Q.
Proof.
  intros Hp Hl.
  destruct (run_transfers_well_change l w Hl) as (w1 & E1 & _ & Hv1 & _).
  assert (Hl' : Forall (between_tracked_wells w) l') by (rewrite <- Hp; exact Hl).
  destruct (run_transfers_well_change l' w Hl') as (w2 & E2 & _ & Hv2 & _).
  exists w1, w2. split; [exact E1|]. split; [exact E2|]. split; [exact Hv1|].
  intros p n. rewrite Hv1, Hv2. rewrite (well_change_permutation p n l l' Hp). reflexivity.
Qed.

Lemma run_transfers_any_order_witness :
  exists w1 w2,
    run_transfers [(20%Q, buffer, assay_a1); (5%Q, assay_a1, buffer)] start = (Ok tt, w1)
    /\ run_transfers [(5%Q, assay_a1, buffer); (20%Q, buffer, assay_a1)] start = (Ok tt, w2)
    /\ (vol w2 (display assay_plate) "A1" == vol w1 (display assay_plate) "A1")%Q.
Proof.
  destruct (run_transfers_any_order
              [(20%Q, buffer, assay_a1); (5%Q, assay_a1, buffer)]
              [(5%Q, assay_a1, buffer); (20%Q, buffer, assay_a1)] start)
    as (w1 & w2 & E1 & E2 & _ & Hv).
  - apply Permutation_swap.
  - repeat constructor; try discriminate; vm_compute; eexists; reflexivity.
  - exists w1, w2. split; [exact E1|]. split; [exact E2|]. apply Hv.
Defined.

(** X15: transfers are undone by the opposite transfers.  For
    single-channel transfers between tracked wells off the trash, a list of
    them followed by the transfers of the same volumes from each
    destination back to its source, in any order of the second half,
    returns and leaves every well with the volume it started with. *)
Theorem run_transfers_undo (l back : list (Q * Well * Well)) w :
  back ≡ₚ opposite <$> l ->
  Forall (between_tracked_wells w) l ->
  exists w',
    run_transfers (l ++ back) w = (Ok tt, w')
    /\ (forall p n, vol w' p n == vol w p n)%Q
    /\ (forall p, plate_total w' p == plate_total w p)%Q.
Proof.
  intros Hp Hl.
  assert (Hb : Forall (between_tracked_wells w) back).
  { rewrite Hp. apply Forall_fmap. eapply Forall_impl; [exact Hl|].
    intros t (Hs & Hd & Hts & Htd).
    unfold compose, between_tracked_wells, opposite. cbn [fst snd]. tauto. }
  destruct (run_transfers_well_change (l ++ back) w) as (w' & E & _ & Hv & _).
  { apply Forall_app. split; assumption. }
  exists w'. split; [exact E|].
  assert (Hvol : forall p n, (vol w' p n == vol w p n)%Q).
  { intros p n. rewrite Hv, well_change_app.
    rewrite (well_change_permutation p n back _ Hp), well_change_opposite. ring. }
  split; [exact Hvol|].
  intros p.
  destruct (run_transfers_well_change (l ++ back) w) as (w'' & E' & _ & _ & Htot).
  { apply Forall_app. split; assumption. }
  rewrite E in E'. injection E' as <-. rewrite Htot.
  assert (Hnet : forall l1 l2, (net_change p (l1 ++ l2) == net_change p l1 + net_change p l2)%Q).
  { intros l1 l2. induction l1 as [|t l1 IH]; cbn [app net_change]; [ring | rewrite IH; ring]. }
  assert (Hopp : (net_change p (opposite <$> l) == - net_change p l)%Q).
  { clear. induction l as [|t l IH]; cbn [fmap list_fmap net_change]; [reflexivity|].
    change (list_fmap _ _ opposite l) with (opposite <$> l). rewrite IH.
    unfold opposite. cbn [fst snd]. ring. }
  assert (Hperm : forall l1 l2, l1 ≡ₚ l2 -> (net_change p l1 == net_change p l2)%Q).
  { clear. induction 1 as [|t l l' _ IH|t u l|l1 l2 l3 _ IH1 _ IH2]; cbn [net_change].
    - reflexivity.
    - rewrite IH. reflexivity.
    - ring.
    - rewrite IH1. exact IH2. }
  rewrite Hnet, (Hperm _ _ Hp), Hopp. ring.
Qed.

Lemma run_transfers_undo_witness :
  exists w',
    run_transfers ([(20%Q, buffer, assay_a1)] ++ [(20%Q, assay_a1, buffer)]) start
    = (Ok tt, w')
    /\ (vol w' (display reservoir_plate) "A1" == 0)%Q.
Proof.
  destruct (run_transfers_undo [(20%Q, buffer, assay_a1)] [(20%Q, assay_a1, buffer)] start)
    as (w' & E & Hv & _).
  - reflexivity.
  - repeat constructor; try discriminate; vm_compute; eexists; reflexivity.
  - exists w'. split; [exact E|]. rewrite Hv. vm_compute. reflexivity.
Defined.

(** ** The ledger shape under custom_transfer and serial_dilution *)

Ltac keeps_shape :=
  repeat match goal with
         | |- preserves _ (mbind _ _) =>
             apply preserves_bind; [exact same_shape_trans | | intros ?]
         | |- preserves _ (for_each _ _) =>
             apply preserves_for_each; [exact same_shape_refl | exact same_shape_trans |];
             intros ?
         | |- preserves _ (for_range _ _) =>
             apply preserves_for_range_from;
             [exact same_shape_refl | exact same_shape_trans |]; intros ?
         | |- preserves _ (adjust_well_volume _ _ _ _) => apply adjust_well_volume_same_shape
         | |- preserves _ (dict_get _ _) => apply preserves_dict_get, same_shape_refl
         | |- preserves _ (read_local _ _) => apply preserves_read_local, same_shape_refl
         | |- preserves _ (list_get _ _) => apply preserves_list_get, same_shape_refl
         | |- preserves _ (assert_ _ _) => apply preserves_assert, same_shape_refl
         | |- preserves _ (py_div _ _) => apply preserves_py_div, same_shape_refl
         | |- preserves _ (mret _) => intros ? ?; reflexivity
         | |- preserves _ (raise _) => intros ? ?; reflexivity
         | |- preserves _ (cmd _) => intros ? ?; reflexivity
         | |- preserves _ (print _) => intros ? ?; reflexivity
         | |- preserves _ get_world => intros ? ?; reflexivity
         | |- preserves _ out_of_fuel => intros ? ?; reflexivity
         | |- preserves _ (match ?x with _ => _ end) => destruct x
         end.

Lemma get_well_edge_offset_same_shape pipette well height_above_bottom :
  preserves same_shape (get_well_edge_offset pipette well height_above_bottom).
Proof. unfold get_well_edge_offset. keeps_shape. Qed.

Lemma offset_dispense_same_shape pipette well transfer_volume offset_direction
    custom_offset_distance dispense_height do_blowout dest_blowout_height do_touch_tip
    dispense_rate inspect_tips :
  preserves same_shape
    (offset_dispense pipette well transfer_volume offset_direction custom_offset_distance
       dispense_height do_blowout dest_blowout_height do_touch_tip dispense_rate
       inspect_tips).
Proof.
  unfold offset_dispense. keeps_shape.
  - unfold offset_distance_for. keeps_shape. apply get_well_edge_offset_same_shape.
  - unfold xy_offsets. keeps_shape.
Qed.

Section EngineShape.
Context {driver : Driver}.
Variable trash : Well.

Lemma pick_up_tip_if_needed_same_shape pipette :
  preserves same_shape (pick_up_tip_if_needed pipette).
Proof. unfold pick_up_tip_if_needed. keeps_shape. Qed.

Lemma distribute_batch_same_shape pipette transfer_volume source dispense_height
    offset_direction do_touch_tip dispense_rate inspect_tips carryover temp_transfer_list :
  preserves same_shape
    (distribute_batch pipette transfer_volume source dispense_height offset_direction
       do_touch_tip dispense_rate inspect_tips carryover temp_transfer_list).
Proof. unfold distribute_batch. keeps_shape. apply offset_dispense_same_shape. Qed.

Lemma distribute_loop_same_shape fuel pipette transfer_volume source dispense_height
    offset_direction do_touch_tip dispense_rate inspect_tips carryover
    max_wells_per_aspirate :
  forall working_destination_list,
    preserves same_shape
      (distribute_loop fuel pipette transfer_volume source dispense_height
         offset_direction do_touch_tip dispense_rate inspect_tips carryover
         max_wells_per_aspirate working_destination_list).
Proof.
  induction fuel as [|fuel IH]; intros [|x l]; cbn [distribute_loop]; keeps_shape.
  - apply distribute_batch_same_shape.
  - apply IH.
Qed.

Lemma custom_transfer_same_shape fuel pipette transfer_volume source destination_list
    source_blowout_height dest_blowout_height dispense_height offset_direction prewet_tip
    drop_tip do_blowout do_touch_tip transfer_type dispense_rate inspect_tips
    evenly_split_transfers :
  preserves same_shape
    (custom_transfer fuel pipette transfer_volume source destination_list
       source_blowout_height dest_blowout_height dispense_height offset_direction
       prewet_tip drop_tip do_blowout do_touch_tip transfer_type dispense_rate
       inspect_tips evenly_split_transfers).
Proof.
  unfold custom_transfer. keeps_shape;
    try apply pick_up_tip_if_needed_same_shape;
    try apply offset_dispense_same_shape;
    try apply distribute_loop_same_shape.
  unfold wells_per_aspirate. keeps_shape.
Qed.

Lemma serial_dilution_same_shape pipette transfer_volume mix_volume wells mix_steps
    dispense_height blowout_height mix_before do_blowout always_get_new_tip :
  preserves same_shape
    (serial_dilution trash pipette transfer_volume mix_volume wells mix_steps
       dispense_height blowout_height mix_before do_blowout always_get_new_tip).
Proof.
  unfold serial_dilution, mix_first, dilution_step, blow_out_and_touch, mix_cycles.
  keeps_shape; apply pick_up_tip_if_needed_same_shape.
Qed.

(** X16: [custom_transfer] and [serial_dilution] never change which plates
    the ledger has, the labware of a plate or the set of wells tracked on
    it, whatever their arguments and the state of the robot and whether
    they return, raise or, for the loop of the distribute strategy, do not
    come to an end within the fuel given. *)
Theorem transfers_keep_ledger_shape :
  (forall fuel pipette transfer_volume source destination_list source_blowout_height
          dest_blowout_height dispense_height offset_direction prewet_tip drop_tip
          do_blowout do_touch_tip transfer_type dispense_rate inspect_tips
          evenly_split_transfers w p,
      shape
        (custom_transfer fuel pipette transfer_volume source destination_list
           source_blowout_height dest_blowout_height dispense_height offset_direction
           prewet_tip drop_tip do_blowout do_touch_tip transfer_type dispense_rate
           inspect_tips evenly_split_transfers w).2 p
      = shape w p)
  /\ (forall pipette transfer_volume mix_volume wells mix_steps dispense_height
             blowout_height mix_before do_blowout always_get_new_tip w p,
        shape
          (serial_dilution trash pipette transfer_volume mix_volume wells mix_steps
             dispense_height blowout_height mix_before do_blowout always_get_new_tip w).2 p
        = shape w p).
Proof.
  split; intros.
  - apply custom_transfer_same_shape.
  - apply serial_dilution_same_shape.
Qed.

End EngineShape.

(** ** custom_transfer: what it does before the transfers *)

Section CustomTransferStart.
Context {driver : Driver}.

Lemma volume_assert_passes pipette transfer_volume w :
  volume_in_range pipette transfer_volume ->
  assert_ (Qle_bool transfer_volume (max_volume pipette)
           && Qle_bool (min_volume pipette) transfer_volume) TransferVolumeOutOfRange w
  = (Ok tt, w).
Proof.
  intros [H1 H2]. apply Qle_bool_iff in H1, H2. rewrite H1, H2. reflexivity.
Qed.

(** Once the volume is in range, [custom_transfer] issues its preparation
    and goes on with the strategy. *)
Lemma custom_transfer_prepared fuel pipette transfer_volume source destination_list
    source_blowout_height dest_blowout_height dispense_height offset_direction prewet_tip
    drop_tip do_blowout do_touch_tip transfer_type dispense_rate inspect_tips
    evenly_split_transfers w :
  volume_in_range pipette transfer_volume ->
  custom_transfer fuel pipette transfer_volume source destination_list
    source_blowout_height dest_blowout_height dispense_height offset_direction
    prewet_tip drop_tip do_blowout do_touch_tip transfer_type dispense_rate
    inspect_tips evenly_split_transfers w
  = (if String.eqb transfer_type "single" then
       for_each destination_list (fun well =>
         cmd (Aspirate pipette transfer_volume
                (Some (ALocation (source_location source))) None) ;;
         cmd (TouchTip pipette None) ;;
         offset_dispense pipette well transfer_volume offset_direction None
           dispense_height do_blowout 8%Q do_touch_tip dispense_rate inspect_tips ;;
         adjust_well_volume transfer_volume (ALocation (source_location source)) well
           (channels pipette)) ;;
       (if drop_tip then cmd (DropTip pipette) else mret tt)
     else if String.eqb transfer_type "distribute" then
       max_wells_per_aspirate ←
         wells_per_aspirate pipette transfer_volume 0.1%Q evenly_split_transfers
           (length destination_list) ;
       distribute_loop fuel pipette transfer_volume (source_location source)
         dispense_height offset_direction do_touch_tip dispense_rate inspect_tips 0.1%Q
         max_wells_per_aspirate destination_list ;;
       (if drop_tip then cmd (DropTip pipette) else mret tt)
     else mret tt)
      (extend w (preparation pipette (source_location source) source_blowout_height
                   prewet_tip do_blowout (trace w))).
Proof.
  intros Hv. unfold custom_transfer.
  rewrite (bind_ok _ _ _ _ _ (volume_assert_passes pipette transfer_volume w Hv)).
  unfold preparation, pick_up_tip_if_needed. fold (source_location source).
  rewrite (bind_ok (get_world ≫= _) _ w tt
             (extend w (if has_tip pipette (trace w) then [] else [PickUpTip pipette]))).
  2: { rewrite (bind_ok get_world _ w w w) by reflexivity.
       destruct (has_tip pipette (trace w)); [rewrite extend_nil|]; reflexivity. }
  destruct prewet_tip.
  - rewrite (bind_ok _ _ (extend w _) tt
               (extend w ((if has_tip pipette (trace w) then [] else [PickUpTip pipette])
                          ++ [Aspirate pipette (max_volume pipette)
                                (Some (ALocation (source_location source))) None;
                              Dispense pipette (max_volume pipette)
                                (Some (ALocation (source_location source))) None]
                          ++ (if do_blowout
                              then [BlowOut pipette
                                      (Some (bottom (as_well (source_location source))
                                               source_blowout_height))]
                              else [])
                          ++ [TouchTip pipette None]))).
    + reflexivity.
    + destruct do_blowout; unfold extend, mbind, M_bind, mret, M_ret, cmd; cbn;
        repeat rewrite <- app_assoc; reflexivity.
  - rewrite (bind_ok (mret tt) _ _ tt _) by reflexivity. rewrite app_nil_r. reflexivity.
Qed.

(** X17: [custom_transfer] checks the volume before anything else: a
    volume outside the range of the pipette fails the assertion with
    nothing done.  With a volume in range and a transfer type that is
    neither single nor distribute it returns normally after the
    preparation only (the tip pick-up if the pipette has none, the
    prewetting if asked for): no destination receives anything, the ledger
    is as before, and the tip is not dropped even when [drop_tip] is set. *)
Theorem custom_transfer_no_strategy fuel pipette transfer_volume source destination_list
    source_blowout_height dest_blowout_height dispense_height offset_direction prewet_tip
    drop_tip do_blowout do_touch_tip transfer_type dispense_rate inspect_tips
    evenly_split_transfers w :
  (~ volume_in_range pipette transfer_volume ->
   custom_transfer fuel pipette transfer_volume source destination_list
     source_blowout_height dest_blowout_height dispense_height offset_direction
     prewet_tip drop_tip do_blowout do_touch_tip transfer_type dispense_rate
     inspect_tips evenly_split_transfers w
   = (Raise (AssertionError TransferVolumeOutOfRange), w))
  /\ (volume_in_range pipette transfer_volume ->
      transfer_type <> "single" -> transfer_type <> "distribute" ->
      custom_transfer fuel pipette transfer_volume source destination_list
        source_blowout_height dest_blowout_height dispense_height offset_direction
        prewet_tip drop_tip do_blowout do_touch_tip transfer_type dispense_rate
        inspect_tips evenly_split_transfers w
      = (Ok tt,
         extend w (preparation pipette (source_location source) source_blowout_height
                     prewet_tip do_blowout (trace w)))).
Proof.
  split.
  - intros Hv. unfold custom_transfer. apply bind_raise. unfold assert_.
    destruct (Qle_bool transfer_volume (max_volume pipette)) eqn:E1;
      [destruct (Qle_bool (min_volume pipette) transfer_volume) eqn:E2|]; try reflexivity.
    exfalso. apply Hv. split; apply Qle_bool_iff; assumption.
  - intros Hv N1 N2. rewrite custom_transfer_prepared by exact Hv.
    apply String.eqb_neq in N1, N2. rewrite N1, N2. reflexivity.
Qed.

(** X18: in the single strategy a destination given as a location object
    is refused only after the liquid has been drawn: with a volume in
    range and a location as the first destination, [custom_transfer] issues
    its preparation, the aspirate and the touch, and then fails with the
    assertion of [offset_dispense] that the destination be a well; nothing
    is dispensed, the ledger is as before and the tip is kept. *)
Theorem custom_transfer_location_destination fuel pipette transfer_volume source l
    destination_list source_blowout_height dest_blowout_height dispense_height
    offset_direction prewet_tip drop_tip do_blowout do_touch_tip dispense_rate inspect_tips
    evenly_split_transfers w :
  volume_in_range pipette transfer_volume ->
  custom_transfer fuel pipette transfer_volume source (ALocation l :: destination_list)
    source_blowout_height dest_blowout_height dispense_height offset_direction
    prewet_tip drop_tip do_blowout do_touch_tip "single" dispense_rate
    inspect_tips evenly_split_transfers w
  = (Raise (AssertionError MustBeWellObject),
     extend w (preparation pipette (source_location source) source_blowout_height
                 prewet_tip do_blowout (trace w)
               ++ [Aspirate pipette transfer_volume
                     (Some (ALocation (source_location source))) None;
                   TouchTip pipette None])).
Proof.
  intros Hv. rewrite custom_transfer_prepared by exact Hv.
  cbn [String.eqb Ascii.eqb Bool.eqb for_each].
  apply bind_raise. apply bind_raise.
  rewrite (bind_ok _ _ _ _ _ (cmd_extend _ _)), extend_extend.
  rewrite (bind_ok _ _ _ _ _ (cmd_extend _ _)), extend_extend.
  apply bind_raise. rewrite <- app_assoc. reflexivity.
Qed.

End CustomTransferStart.

Lemma custom_transfer_no_strategy_witness :
  custom_transfer (driver := simulated) 5 p20 25 (AWell buffer) [AWell assay_a1] 25 8 1
    "center" true true true true "single" 1 false false start
  = (Raise (AssertionError TransferVolumeOutOfRange), start)
  /\ custom_transfer (driver := simulated) 5 p20 20 (AWell buffer) [AWell assay_a1] 25 8 1
       "center" false true true true "Single" 1 false false start
     = (Ok tt, extend start [PickUpTip p20]).
Proof.
  split.
  - apply (proj1 (custom_transfer_no_strategy (driver := simulated) 5 p20 25 (AWell buffer)
                    [AWell assay_a1] 25 8 1 "center" true true true true "single" 1 false
                    false start)).
    intros [H _]. vm_compute in H. apply H. reflexivity.
  - apply (proj2 (custom_transfer_no_strategy (driver := simulated) 5 p20 20 (AWell buffer)
                    [AWell assay_a1] 25 8 1 "center" false true true true "Single" 1 false
                    false start)).
    + split; vm_compute; discriminate.
    + discriminate.
    + discriminate.
Defined.

Lemma custom_transfer_location_destination_witness :
  custom_transfer (driver := simulated) 5 p20 20 (AWell buffer)
    [ALocation (bottom assay_a1 2)] 25 8 1 "center" false true true true "single" 1 false
    false start
  = (Raise (AssertionError MustBeWellObject),
     extend start [PickUpTip p20;
                   Aspirate p20 20 (Some (ALocation (bottom buffer 1))) None;
                   TouchTip p20 None]).
Proof.
  apply (custom_transfer_location_destination (driver := simulated) 5 p20 20 (AWell buffer)
           (bottom assay_a1 2) [] 25 8 1 "center" false true true true 1 false false start).
  split; vm_compute; discriminate.
Defined.
